(** * Bug tracker server: lifecycle and authorization rules

    A shallow embedding of the server side of the MERN bug tracker
    ([server/src/utils/validation.js], [server/src/models/Bug.js],
    [server/src/middleware/auth.js], [server/src/controllers/bugController.js]
    and [server/src/routes/bugRoutes.js]) together with the properties of its
    status transitions, its access checks and its bug mutations.

    Conventions of the embedding.
    - A JavaScript string is a [string]: a sequence of code units, here in the
      8-bit range.
    - An [ObjectId] is its 24 digit hexadecimal rendering; two ids are equal
      when their renderings are ([equals], [toString() ===] and the Mongoose
      array [includes] all compare by value).
    - The collections are finite maps from ids to documents, threaded through
      every handler; [new Date()] is the argument [now], and the id of a new
      document is an argument as well.
    - A handler ends in one of three ways, see [Result]. [populate] and the
      logger only shape the response and the log, and are left out.

    What the libraries do, as far as the handlers rely on it.
    - Mongoose: [create] and [save] run the schema validators on the whole
      document, then the [pre('save')] hook, then write; the timestamps of
      the schema, which precede the hook, set [updatedAt] on [save] only
      when a path of the document was modified;
      [findByIdAndUpdate] puts the top level keys of the update under its
      [$set], casts and (on request) validates the paths of the update,
      writes them and runs no save hook; a path given as [undefined]
      takes its default; setters ([trim], [lowercase]) run on creation and on
      update.
    - Express: the middlewares of a route run in order, and [req.route.path]
      is the path the route was registered with on its router. The request
      validators of express-validator, which precede the handlers, are not
      part of the embedding. A body gives each key of a bug a value of the
      type of its path; the content of a comment is any JSON value, and an
      update may carry a [$set]. *)

From stdpp Require Import gmap strings list fin_maps.
From Stdlib Require Import ZArith Ascii String.

Local Open Scope string_scope.
Local Open Scope Z_scope.

(** ** JavaScript strings and values *)

Module Js.

(** Code units that [String.prototype.trim] strips (WhiteSpace and
    LineTerminator of ECMAScript) in the 8-bit range: TAB, LF, VT, FF, CR,
    SP and NBSP. *)
Definition isWhiteSpace (c : ascii) : bool :=
  let n := nat_of_ascii c in
  bool_decide (n ∈ [9; 10; 11; 12; 13; 32; 160]%nat).

Fixpoint trimStart (s : string) : string :=
  match s with
  | EmptyString => EmptyString
  | String c s' => if isWhiteSpace c then trimStart s' else s
  end.

Definition trimEnd (s : string) : string :=
  String.rev (trimStart (String.rev s)).

Definition trim (s : string) : string := trimEnd (trimStart s).

(** [s.startsWith(p)] *)
Fixpoint startsWith (p s : string) : bool :=
  match p, s with
  | EmptyString, _ => true
  | String a p', String b s' => bool_decide (a = b) && startsWith p' s'
  | String _ _, EmptyString => false
  end.

(** [s.includes(p)] on strings: [p] occurs somewhere in [s]. *)
Fixpoint includes (s p : string) : bool :=
  startsWith p s ||
  match s with
  | EmptyString => false
  | String _ s' => includes s' p
  end.

(** [arr.includes(x)] on an array of strings. *)
Definition arrayIncludes (arr : list string) (x : string) : bool :=
  bool_decide (x ∈ arr).

(** [s.toLowerCase()] on 8-bit code units: A-Z, and the Latin-1 capitals
    0xC0-0xDE except the multiplication sign 0xD7. *)
Definition lowerCode (c : ascii) : ascii :=
  let n := nat_of_ascii c in
  if bool_decide (65 ≤ n ≤ 90 ∨ (192 ≤ n ≤ 222 ∧ n ≠ 215))%nat
  then ascii_of_nat (n + 32) else c.

Fixpoint toLowerCase (s : string) : string :=
  match s with
  | EmptyString => EmptyString
  | String c s' => String (lowerCode c) (toLowerCase s')
  end.

(** Truthiness of a string: only the empty string is falsy. *)
Definition truthy (s : string) : bool := negb (bool_decide (s = EmptyString)).

(** Truthiness of an optional [Date]: a date object is truthy,
    [undefined] is not. *)
Definition present {A} (o : option A) : bool :=
  match o with Some _ => true | None => false end.

(** The own property names of [Object.prototype], which every object
    literal inherits. *)
Definition Object_prototype_keys : list string :=
  [ "constructor"; "hasOwnProperty"; "isPrototypeOf";
    "propertyIsEnumerable"; "toLocaleString"; "toString"; "valueOf";
    "__defineGetter__"; "__defineSetter__"; "__lookupGetter__";
    "__lookupSetter__"; "__proto__" ].

(** What [obj[key]] evaluates to when [obj] is an object literal whose own
    properties are arrays of strings. *)
Inductive Property :=
| Undefined
| ArrayOf (items : list string)
| Inherited.       (* a member of Object.prototype: a function, or the
                      prototype object itself for __proto__ *)

Fixpoint ownProperty (own : list (string * list string)) (key : string)
  : option (list string) :=
  match own with
  | [] => None
  | (k, v) :: rest => if bool_decide (k = key) then Some v
                      else ownProperty rest key
  end.

Definition getProperty (own : list (string * list string)) (key : string)
  : Property :=
  match ownProperty own key with
  | Some v => ArrayOf v
  | None => if bool_decide (key ∈ Object_prototype_keys) then Inherited
            else Undefined
  end.

(** Completion of a JavaScript expression: a value or a thrown error. *)
Inductive Error := TypeError | ValidationError.

Inductive Completion (A : Type) :=
| Normal (v : A)
| Throw (e : Error).
Arguments Normal {A} v.
Arguments Throw {A} e.

End Js.

(** ** utils/validation.js *)

Definition validStatuses : list string :=
  ["open"; "in-progress"; "testing"; "resolved"; "closed"].

Definition validPriorities : list string :=
  ["low"; "medium"; "high"; "critical"].

Definition validatePriority (priority : string) : bool :=
  Js.arrayIncludes validPriorities priority.

Definition validateStatus (status : string) : bool :=
  Js.arrayIncludes validStatuses status.

Definition allowedTransitions : list (string * list string) :=
  [ ("open", ["in-progress"; "closed"]);
    ("in-progress", ["testing"; "open"; "closed"]);
    ("testing", ["resolved"; "in-progress"; "open"]);
    ("resolved", ["closed"; "open"]);
    ("closed", ["open"]) ].

(** [allowedTransitions[currentStatus]?.includes(newStatus) || false]: the
    optional chain stops on [undefined] only, so a value inherited from
    [Object.prototype] is asked for its [includes], which it does not have,
    and calling that throws. *)
Definition validateStatusTransition (currentStatus newStatus : string)
  : Js.Completion bool :=
  match Js.getProperty allowedTransitions currentStatus with
  | Js.Undefined => Js.Normal false
  | Js.ArrayOf items => Js.Normal (Js.arrayIncludes items newStatus || false)
  | Js.Inherited => Js.Throw Js.TypeError
  end.

(** The edges of the transition table, as pairs. *)
Definition legalEdges : list (string * string) :=
  [ ("open", "in-progress"); ("open", "closed");
    ("in-progress", "testing"); ("in-progress", "open");
    ("in-progress", "closed");
    ("testing", "resolved"); ("testing", "in-progress"); ("testing", "open");
    ("resolved", "closed"); ("resolved", "open");
    ("closed", "open") ].

(** ** models/User.js and models/Bug.js *)

Definition ObjectId := string.

Record User := mkUser {
  user_id : ObjectId;
  username : string;
  role : string;            (* enum: reporter | developer | admin *)
  isActive : bool
}.

Record Step := mkStep { step : string; order : Z }.

Record Comment := mkComment {
  author : ObjectId;
  content : string;
  comment_createdAt : Z
}.

(** The paths of [bugSchema] that the controller reads or writes
    ([attachments], [estimatedTime] and [actualTime] are never touched by
    it). A [Date] is its time value; an absent path is [None]. *)
Record Bug := mkBug {
  bug_id : ObjectId;
  title : string;
  description : string;
  status : string;
  priority : string;
  severity : string;
  category : string;
  environment : string;
  assignee : option ObjectId;
  reporter : ObjectId;
  stepsToReproduce : list Step;
  expectedResult : option string;
  actualResult : option string;
  tags : list string;
  comments : list Comment;
  watchers : list ObjectId;
  dueDate : option Z;
  resolvedAt : option Z;
  closedAt : option Z;
  createdAt : Z;
  updatedAt : Z
}.

#[global] Instance Step_eq_dec : EqDecision Step.
Proof. solve_decision. Defined.

#[global] Instance Comment_eq_dec : EqDecision Comment.
Proof. solve_decision. Defined.

#[global] Instance Bug_eq_dec : EqDecision Bug.
Proof. solve_decision. Defined.


Definition set_comments (v : list Comment) (b : Bug) : Bug :=
  mkBug (bug_id b) (title b) (description b) (status b) (priority b)
    (severity b) (category b) (environment b) (assignee b) (reporter b)
    (stepsToReproduce b) (expectedResult b) (actualResult b) (tags b)
    v (watchers b) (dueDate b) (resolvedAt b) (closedAt b)
    (createdAt b) (updatedAt b).

Definition set_watchers (v : list ObjectId) (b : Bug) : Bug :=
  mkBug (bug_id b) (title b) (description b) (status b) (priority b)
    (severity b) (category b) (environment b) (assignee b) (reporter b)
    (stepsToReproduce b) (expectedResult b) (actualResult b) (tags b)
    (comments b) v (dueDate b) (resolvedAt b) (closedAt b)
    (createdAt b) (updatedAt b).

Definition set_status (v : string) (b : Bug) : Bug :=
  mkBug (bug_id b) (title b) (description b) v (priority b)
    (severity b) (category b) (environment b) (assignee b) (reporter b)
    (stepsToReproduce b) (expectedResult b) (actualResult b) (tags b)
    (comments b) (watchers b) (dueDate b) (resolvedAt b) (closedAt b)
    (createdAt b) (updatedAt b).

Definition set_stepsToReproduce (v : list Step) (b : Bug) : Bug :=
  mkBug (bug_id b) (title b) (description b) (status b) (priority b)
    (severity b) (category b) (environment b) (assignee b) (reporter b)
    v (expectedResult b) (actualResult b) (tags b)
    (comments b) (watchers b) (dueDate b) (resolvedAt b) (closedAt b)
    (createdAt b) (updatedAt b).

Definition set_resolvedAt (v : option Z) (b : Bug) : Bug :=
  mkBug (bug_id b) (title b) (description b) (status b) (priority b)
    (severity b) (category b) (environment b) (assignee b) (reporter b)
    (stepsToReproduce b) (expectedResult b) (actualResult b) (tags b)
    (comments b) (watchers b) (dueDate b) v (closedAt b)
    (createdAt b) (updatedAt b).

Definition set_closedAt (v : option Z) (b : Bug) : Bug :=
  mkBug (bug_id b) (title b) (description b) (status b) (priority b)
    (severity b) (category b) (environment b) (assignee b) (reporter b)
    (stepsToReproduce b) (expectedResult b) (actualResult b) (tags b)
    (comments b) (watchers b) (dueDate b) (resolvedAt b) v
    (createdAt b) (updatedAt b).

Definition set_updatedAt (v : Z) (b : Bug) : Bug :=
  mkBug (bug_id b) (title b) (description b) (status b) (priority b)
    (severity b) (category b) (environment b) (assignee b) (reporter b)
    (stepsToReproduce b) (expectedResult b) (actualResult b) (tags b)
    (comments b) (watchers b) (dueDate b) (resolvedAt b) (closedAt b)
    (createdAt b) v.

(** The two collections. *)
Record Db := mkDb {
  bugs : gmap ObjectId Bug;
  users : gmap ObjectId User
}.

Definition put_bug (id : ObjectId) (b : Bug) (db : Db) : Db :=
  mkDb (<[id := b]> (bugs db)) (users db).

Definition remove_bug (id : ObjectId) (db : Db) : Db :=
  mkDb (delete id (bugs db)) (users db).

(** *** Schema validators *)

Definition maxlength (n : Z) (s : string) : bool :=
  bool_decide (Z.of_nat (String.length s) ≤ n).

(** [required] on a String path rejects the empty string as well. *)
Definition required (s : string) : bool := Js.truthy s.

Definition enum (values : list string) (s : string) : bool :=
  Js.arrayIncludes values s.

Definition severities : list string := ["minor"; "major"; "critical"; "blocker"].
Definition categories : list string := ["bug"; "feature"; "enhancement"; "task"].
Definition environments : list string := ["development"; "staging"; "production"].

Definition optional (check : string → bool) (o : option string) : bool :=
  from_option check true o.

Definition validate_comment (c : Comment) : bool :=
  required (content c) && maxlength 1000 (content c).

(** Document validation, as [save] and [create] run it over every path. *)
Definition validate (b : Bug) : bool :=
  required (title b) && maxlength 200 (title b) &&
  required (description b) && maxlength 2000 (description b) &&
  enum validStatuses (status b) &&
  enum validPriorities (priority b) &&
  enum severities (severity b) &&
  enum categories (category b) &&
  enum environments (environment b) &&
  forallb (λ s, required (step s)) (stepsToReproduce b) &&
  optional (maxlength 1000) (expectedResult b) &&
  optional (maxlength 1000) (actualResult b) &&
  forallb validate_comment (comments b).

(** *** bugSchema.pre('save') *)

Fixpoint insertStep (s : Step) (l : list Step) : list Step :=
  match l with
  | [] => [s]
  | x :: rest => if order s <=? order x then s :: l
                 else x :: insertStep s rest
  end.

(** [steps.sort((a, b) => a.order - b.order)], a stable sort. *)
Definition sortSteps (l : list Step) : list Step := foldr insertStep [] l.

Definition pre_save (isModified_status : bool) (now : Z) (this : Bug) : Bug :=
  let this :=
    if isModified_status then
      let this :=
        if bool_decide (status this = "resolved") &&
           negb (Js.present (resolvedAt this))
        then set_resolvedAt (Some now) this else this in
      if bool_decide (status this = "closed") &&
         negb (Js.present (closedAt this))
      then set_closedAt (Some now) this else this
    else this in
  match stepsToReproduce this with
  | [] => this
  | _ :: _ => set_stepsToReproduce (sortSteps (stepsToReproduce this)) this
  end.

(** [doc.save()] of a document loaded as [loaded] and changed into [this]:
    validation, then [updatedAt] when some path was modified, then the
    hook, then the write. An assignment of the value a path has modifies
    nothing, so the document is modified when it differs from the loaded
    one; for an unmodified document whose steps the hook leaves in place
    the write puts back the document that is there. *)
Definition save (now : Z) (loaded this : Bug) (db : Db)
  : Js.Completion Bug * Db :=
  if validate this then
    let hooked :=
      pre_save (negb (bool_decide (status this = status loaded))) now this in
    let saved :=
      if bool_decide (this = loaded) then hooked
      else set_updatedAt now hooked
    in (Js.Normal saved, put_bug (bug_id saved) saved db)
  else (Js.Throw Js.ValidationError, db).

(** [bug.updateStatus(newStatus, userId)] *)
Definition updateStatus (now : Z) (newStatus : string) (this : Bug) (db : Db)
  : Js.Completion Bug * Db :=
  save now this (set_status newStatus this) db.

(** *** Bug.getStatistics *)

Record Statistics := mkStatistics {
  total : Z;
  open : Z; inProgress : Z; testing : Z; resolved : Z; closed : Z;
  critical : Z; high : Z; medium : Z; low : Z
}.

Definition cond (test : bool) : Z := if test then 1 else 0.

(** One step of the [$group] stage: every accumulator is a [$sum]. *)
Definition accumulate (acc : Statistics) (b : Bug) : Statistics :=
  mkStatistics
    (total acc + 1)
    (open acc + cond (bool_decide (status b = "open")))
    (inProgress acc + cond (bool_decide (status b = "in-progress")))
    (testing acc + cond (bool_decide (status b = "testing")))
    (resolved acc + cond (bool_decide (status b = "resolved")))
    (closed acc + cond (bool_decide (status b = "closed")))
    (critical acc + cond (bool_decide (priority b = "critical")))
    (high acc + cond (bool_decide (priority b = "high")))
    (medium acc + cond (bool_decide (priority b = "medium")))
    (low acc + cond (bool_decide (priority b = "low"))).

Definition zeroStatistics : Statistics := mkStatistics 0 0 0 0 0 0 0 0 0 0.

(** [this.aggregate([{ $group: { _id: null, ... } }])]: no group, hence an
    empty array, over an empty collection; one group otherwise. *)
Definition aggregate (docs : list Bug) : list Statistics :=
  match docs with
  | [] => []
  | _ :: _ => [foldl accumulate zeroStatistics docs]
  end.

(** [stats[0] || { total: 0, ... }] *)
Definition statisticsOf (docs : list Bug) : Statistics :=
  match aggregate docs with
  | s :: _ => s
  | [] => zeroStatistics
  end.

Definition collection (db : Db) : list Bug := (map_to_list (bugs db)).*2.

Definition getStatistics (db : Db) : Statistics := statisticsOf (collection db).

(** *** Bug.create *)

(** The object handed to [Bug.create]; an [undefined] property is [None]. *)
Record BugInput := mkBugInput {
  i_title : option string;
  i_description : option string;
  i_status : option string;
  i_priority : option string;
  i_severity : option string;
  i_category : option string;
  i_environment : option string;
  i_stepsToReproduce : option (list Step);
  i_expectedResult : option string;
  i_actualResult : option string;
  i_tags : option (list string);
  i_dueDate : option Z;
  i_reporter : option ObjectId
}.

(** The new document: setters ([trim], [lowercase]) on what is given, the
    schema defaults on what is not, both timestamps at [now]. A missing
    required string is the empty string here, which [required] rejects
    just as it rejects [undefined]. *)
Definition construct (now : Z) (id reporter : ObjectId) (i : BugInput) : Bug :=
  mkBug id
    (from_option Js.trim EmptyString (i_title i))
    (default EmptyString (i_description i))
    (default "open" (i_status i))
    (default "medium" (i_priority i))
    (default "major" (i_severity i))
    (default "bug" (i_category i))
    (default "development" (i_environment i))
    None
    reporter
    (default [] (i_stepsToReproduce i))
    (i_expectedResult i)
    (i_actualResult i)
    ((λ t, Js.toLowerCase (Js.trim t)) <$> default [] (i_tags i))
    [] []
    (i_dueDate i)
    None None
    now now.

(** [Bug.create(input)]: [id] is the ObjectId the driver generates. *)
Definition Bug_create (now : Z) (id : ObjectId) (i : BugInput) (db : Db)
  : Js.Completion Bug * Db :=
  match i_reporter i with
  | None => (Js.Throw Js.ValidationError, db)
  | Some r =>
    let doc := construct now id r i in
    if validate doc then
      let saved := pre_save (Js.present (i_status i)) now doc in
      (Js.Normal saved, put_bug id saved db)
    else (Js.Throw Js.ValidationError, db)
  end.

(** *** Bug.findByIdAndUpdate *)

(** Paths of the schema with the values an update gives them. [p_title]
    to [p_environment] are the keys the route validates; the others are
    schema paths a client may send as well. Each value is of the type of
    its path; values that Mongoose would have to cast are outside this
    embedding. *)
Record Patch := mkPatch {
  p_title : option string;
  p_description : option string;
  p_status : option string;
  p_priority : option string;
  p_severity : option string;
  p_category : option string;
  p_environment : option string;
  p_assignee : option ObjectId;
  p_resolvedAt : option Z;
  p_closedAt : option Z;
  p_reporter : option ObjectId;
  p_createdAt : option Z;
  p_comments : option (list Comment)
}.

(** Update validators ([runValidators: true]) look at the paths being set,
    after casting. *)
Definition validate_update (u : Patch) : bool :=
  optional (λ t, required (Js.trim t) && maxlength 200 (Js.trim t)) (p_title u) &&
  optional (λ d, required d && maxlength 2000 d) (p_description u) &&
  optional (enum validStatuses) (p_status u) &&
  optional (enum validPriorities) (p_priority u) &&
  optional (enum severities) (p_severity u) &&
  optional (enum categories) (p_category u) &&
  optional (enum environments) (p_environment u) &&
  from_option (forallb validate_comment) true (p_comments u).

(** The [$set] of every key present; [createdAt] is immutable under
    [timestamps: true] and [updatedAt] is bumped. No [save] hook runs. *)
Definition apply_update (now : Z) (u : Patch) (b : Bug) : Bug :=
  mkBug (bug_id b)
    (from_option Js.trim (title b) (p_title u))
    (default (description b) (p_description u))
    (default (status b) (p_status u))
    (default (priority b) (p_priority u))
    (default (severity b) (p_severity u))
    (default (category b) (p_category u))
    (default (environment b) (p_environment u))
    (from_option Some (assignee b) (p_assignee u))
    (default (reporter b) (p_reporter u))
    (stepsToReproduce b) (expectedResult b) (actualResult b) (tags b)
    (default (comments b) (p_comments u))
    (watchers b)
    (dueDate b)
    (from_option Some (resolvedAt b) (p_resolvedAt u))
    (from_option Some (closedAt b) (p_closedAt u))
    (createdAt b)
    now.

(** An update document: the paths among its top level keys, and those
    of its [$set] operator when it has one. The other update operators
    and dotted paths are not part of the embedding. *)
Record Update := mkUpdate {
  top : Patch;
  dollar_set : option Patch
}.

(** An update document without operators. *)
Definition topLevel (keys : Patch) : Update := mkUpdate keys None.

(** The paths of [over], and those of [under] that [over] does not give. *)
Definition overlay (over under : Patch) : Patch :=
  let first {A} (a b : option A) : option A :=
    match a with Some v => Some v | None => b end in
  mkPatch
    (first (p_title over) (p_title under))
    (first (p_description over) (p_description under))
    (first (p_status over) (p_status under))
    (first (p_priority over) (p_priority under))
    (first (p_severity over) (p_severity under))
    (first (p_category over) (p_category under))
    (first (p_environment over) (p_environment under))
    (first (p_assignee over) (p_assignee under))
    (first (p_resolvedAt over) (p_resolvedAt under))
    (first (p_closedAt over) (p_closedAt under))
    (first (p_reporter over) (p_reporter under))
    (first (p_createdAt over) (p_createdAt under))
    (first (p_comments over) (p_comments under)).

(** What Mongoose makes of an update document before it validates and
    writes: the top level keys are put into the [$set] operator, over
    what it holds. *)
Definition castUpdate (u : Update) : Patch :=
  match dollar_set u with
  | None => top u
  | Some under => overlay (top u) under
  end.

(** [Bug.findByIdAndUpdate(id, updates, { new: true, runValidators })]:
    the updated document, or [null] when there is none with this id. *)
Definition findByIdAndUpdate (runValidators : bool) (now : Z) (id : ObjectId)
    (updates : Update) (db : Db) : Js.Completion (option Bug) * Db :=
  let u := castUpdate updates in
  if negb runValidators || validate_update u then
    match bugs db !! id with
    | None => (Js.Normal None, db)
    | Some b =>
      let b' := apply_update now u b in
      (Js.Normal (Some b'), put_bug id b' db)
    end
  else (Js.Throw Js.ValidationError, db).

(** ** Requests and responses *)

(** [req], after [protect] and after the request validators: the verified
    user, the [:id] parameter, the parsed body and the path of the matched
    route ([req.route.path]). *)
Record Request (B : Type) := mkRequest {
  user : option User;
  params_id : ObjectId;
  body : B;
  route_path : string
}.
Arguments mkRequest {B} _ _ _ _.
Arguments user {B} _.
Arguments params_id {B} _.
Arguments body {B} _.
Arguments route_path {B} _.

(** How a handler ends: a success response with its status code and data;
    an error response, from [next(new AppError(error, code))] or from a
    middleware's own [res.status(code).json({ success: false, error })];
    or a rejection that [catchAsync] hands to [next]. *)
Inductive Result (A : Type) :=
| Sent (code : Z) (data : A)
| Rejected (code : Z) (error : string)
| Crashed (e : Js.Error).
Arguments Sent {A} code data.
Arguments Rejected {A} code error.
Arguments Crashed {A} e.

(** A middleware either calls [next()] or answers itself. *)
Inductive Guard :=
| Next
| Respond (code : Z) (error : string).

(** ** middleware/auth.js *)

Definition authorize {B} (roles : list string) (req : Request B) (db : Db)
  : Guard :=
  match user req with
  | None => Respond 401 "Authentication required."
  | Some u =>
    if negb (Js.arrayIncludes roles (role u)) then
      Respond 403 ("Access denied. Required role: "
                   ++ String.concat " or " roles ++ ".")
    else Next
  end.

(** [canModifyResource('id')] *)
Definition canModifyResource {B} (req : Request B) (db : Db) : Guard :=
  match user req with
  | None => Respond 401 "Authentication required."
  | Some u =>
    if bool_decide (role u = "admin") then Next
    else if Js.includes (route_path req) "/bugs" then
      match bugs db !! params_id req with
      | None => Respond 404 "Bug not found."
      | Some bug =>
        let canModify :=
          bool_decide (reporter bug = user_id u) ||
          from_option (λ a, bool_decide (a = user_id u)) false (assignee bug) in
        if negb canModify then
          Respond 403 "You can only modify bugs you reported or are assigned to."
        else Next
      end
    else Next
  end.

(** ** controllers/bugController.js *)

(** The keys [createBug] reads from [req.body], and two it does not read
    but a client may send. *)
Record CreateBody := mkCreateBody {
  cb_title : option string;
  cb_description : option string;
  cb_priority : option string;
  cb_severity : option string;
  cb_category : option string;
  cb_environment : option string;
  cb_stepsToReproduce : option (list Step);
  cb_expectedResult : option string;
  cb_actualResult : option string;
  cb_tags : option (list string);
  cb_dueDate : option Z;
  cb_reporter : option ObjectId;
  cb_status : option string
}.

Definition createBug (now : Z) (id : ObjectId) (req : Request CreateBody)
    (db : Db) : Result Bug * Db :=
  let b := body req in
  match user req with
  | None => (Crashed Js.TypeError, db)
  | Some u =>
    match
      Bug_create now id
        (mkBugInput (cb_title b) (cb_description b) None (cb_priority b)
           (cb_severity b) (cb_category b) (cb_environment b)
           (cb_stepsToReproduce b) (cb_expectedResult b) (cb_actualResult b)
           (cb_tags b) (cb_dueDate b) (Some (user_id u))) db
    with
    | (Js.Normal bug, db') => (Sent 201 bug, db')
    | (Js.Throw e, db') => (Crashed e, db')
    end
  end.

(** [delete updates.reporter; delete updates.createdAt;
    delete updates.comments]: three keys of the top level go, and
    nothing else does. *)
Definition strip (updates : Update) : Update :=
  let keys := top updates in
  mkUpdate
    (mkPatch (p_title keys) (p_description keys) (p_status keys)
       (p_priority keys) (p_severity keys) (p_category keys)
       (p_environment keys) (p_assignee keys) (p_resolvedAt keys)
       (p_closedAt keys) None None None)
    (dollar_set updates).

(** The block under [if (updates.status)]: [None] when the handler goes
    on to the update, the early answer otherwise. *)
Definition checkTransition (id : ObjectId) (updates : Update) (db : Db)
  : option (Result Bug) :=
  match p_status (top updates) with
  | None => None
  | Some requested =>
    if Js.truthy requested then
      match bugs db !! id with
      | None => Some (Rejected 404 "Bug not found")
      | Some bug =>
        match validateStatusTransition (status bug) requested with
        | Js.Normal true => None
        | Js.Normal false =>
          Some (Rejected 400
                  ("Invalid status transition from " +:+ status bug
                   +:+ " to " +:+ requested))
        | Js.Throw e => Some (Crashed e)
        end
      end
    else None
  end.

Definition updateBug (now : Z) (req : Request Update) (db : Db)
  : Result Bug * Db :=
  let id := params_id req in
  let updates := strip (body req) in
  match checkTransition id updates db with
  | Some answer => (answer, db)
  | None =>
    match findByIdAndUpdate true now id updates db with
    | (Js.Throw e, db') => (Crashed e, db')
    | (Js.Normal None, db') => (Rejected 404 "Bug not found", db')
    | (Js.Normal (Some bug), db') =>
      match user req with
      | None => (Crashed Js.TypeError, db')     (* req.user.username *)
      | Some _ => (Sent 200 bug, db')
      end
    end
  end.

Definition deleteBug (req : Request unit) (db : Db) : Result unit * Db :=
  let id := params_id req in
  match bugs db !! id with
  | None => (Rejected 404 "Bug not found", db)
  | Some bug =>
    match user req with
    | None => (Crashed Js.TypeError, db)
    | Some u =>
      if negb (bool_decide (reporter bug = user_id u)) &&
         negb (bool_decide (role u = "admin"))
      then (Rejected 403 "You can only delete bugs you reported", db)
      else (Sent 200 (), remove_bug id db)
    end
  end.

(** [req.body] of the assign route: [{ assigneeId }] with a string; an
    [assigneeId] that is no string is outside this embedding. *)
Definition assignBug (now : Z) (req : Request ObjectId) (db : Db)
  : Result Bug * Db :=
  let id := params_id req in
  let assigneeId := body req in
  match users db !! assigneeId with
  | None => (Rejected 404 "Assignee not found", db)
  | Some assignee =>
    if negb (Js.arrayIncludes ["developer"; "admin"] (role assignee)) then
      (Rejected 400 "User must be a developer or admin to be assigned bugs", db)
    else
      match
        findByIdAndUpdate false now id
          (topLevel
             (mkPatch None None None None None None None (Some assigneeId)
                None None None None None)) db
      with
      | (Js.Throw e, db') => (Crashed e, db')
      | (Js.Normal None, db') => (Rejected 404 "Bug not found", db')
      | (Js.Normal (Some bug), db') =>
        match user req with
        | None => (Crashed Js.TypeError, db')
        | Some _ => (Sent 200 bug, db')
        end
      end
  end.

(** A parsed JSON value, as [req.body] and what it holds are. *)
#[local] Unset Elimination Schemes.
Inductive Json :=
| JNull
| JBoolean (b : bool)
| JNumber (n : Z)
| JString (s : string)
| JArray (items : list Json)
| JObject (members : list (string * Json)).
#[local] Set Elimination Schemes.

(** [!!value] *)
Definition Json_truthy (value : Json) : bool :=
  match value with
  | JNull => false
  | JBoolean b => b
  | JNumber n => negb (n =? 0)
  | JString s => Js.truthy s
  | JArray _ | JObject _ => true
  end.

(** The data of the comment response. *)
Record CommentAdded := mkCommentAdded {
  comment : option Comment;       (* bug.comments[bug.comments.length - 1] *)
  commented_id : ObjectId;
  commented_title : string;
  commentsCount : Z
}.

(** [req.body.content] of the comment route, [None] when the body has no
    such key. A content that is truthy and no string (an array passes
    the route validator item by item) has no [trim] to call. *)
Definition addComment (now : Z) (req : Request (option Json)) (db : Db)
  : Result CommentAdded * Db :=
  let id := params_id req in
  match body req with
  | None => (Rejected 400 "Comment content is required", db)
  | Some (JString content) =>
    if negb (Js.truthy content) ||
       bool_decide (String.length (Js.trim content) = 0%nat)
    then (Rejected 400 "Comment content is required", db)
    else
      match bugs db !! id with
      | None => (Rejected 404 "Bug not found", db)
      | Some bug =>
        match user req with
        | None => (Crashed Js.TypeError, db)
        | Some u =>
          let pushed :=
            set_comments
              (comments bug ++ [mkComment (user_id u) (Js.trim content) now])%list
              bug in
          match save now bug pushed db with
          | (Js.Throw e, db') => (Crashed e, db')
          | (Js.Normal saved, db') =>
            (Sent 201
               (mkCommentAdded (last (comments saved)) (bug_id saved)
                  (title saved) (Z.of_nat (List.length (comments saved)))),
             db')
          end
        end
      end
  | Some content =>
    if negb (Json_truthy content)
    then (Rejected 400 "Comment content is required", db)
    else (Crashed Js.TypeError, db)             (* content.trim() *)
  end.

(** The data of the watch response. *)
Record Watching := mkWatching {
  isWatching : bool;
  watchersCount : Z
}.

Definition toggleWatcher (now : Z) (req : Request unit) (db : Db)
  : Result Watching * Db :=
  let id := params_id req in
  match user req with
  | None => (Crashed Js.TypeError, db)
  | Some u =>
    let userId := user_id u in
    match bugs db !! id with
    | None => (Rejected 404 "Bug not found", db)
    | Some bug =>
      let isWatching := bool_decide (userId ∈ watchers bug) in
      let changed :=
        if isWatching then
          set_watchers
            (filter (λ watcher, watcher ≠ userId) (watchers bug)) bug
        else set_watchers (watchers bug ++ [userId])%list bug in
      match save now bug changed db with
      | (Js.Throw e, db') => (Crashed e, db')
      | (Js.Normal saved, db') =>
        (Sent 200
           (mkWatching (negb isWatching) (Z.of_nat (List.length (watchers saved)))),
         db')
      end
    end
  end.

(** ** routes/bugRoutes.js *)

(** A route of the router: Express sets [req.route] to the matched route,
    whose [path] is the one it was registered with, then runs the
    middlewares in order until one answers, then the handler. *)
Fixpoint runGuards {B} (guards : list (Request B → Db → Guard))
    (req : Request B) (db : Db) : Guard :=
  match guards with
  | [] => Next
  | g :: rest =>
    match g req db with
    | Next => runGuards rest req db
    | Respond code error => Respond code error
    end
  end.

Definition dispatch {B A} (path : string)
    (guards : list (Request B → Db → Guard))
    (handler : Request B → Db → Result A * Db)
    (req : Request B) (db : Db) : Result A * Db :=
  let req := mkRequest (user req) (params_id req) (body req) path in
  match runGuards guards req db with
  | Respond code error => (Rejected code error, db)
  | Next => handler req db
  end.

(** [router.post('/', authorize('reporter', 'developer', 'admin'), ...,
    createBug)] *)
Definition post_bugs (now : Z) (id : ObjectId) :=
  dispatch "/" [authorize ["reporter"; "developer"; "admin"]]
    (createBug now id).

(** [router.put('/:id', ..., canModifyResource('id'), updateBug)] *)
Definition put_bug_by_id (now : Z) :=
  dispatch "/:id" [canModifyResource] (updateBug now).

(** [router.delete('/:id', ..., canModifyResource('id'), deleteBug)] *)
Definition delete_bug_by_id :=
  dispatch "/:id" [canModifyResource] deleteBug.

(** [router.put('/:id/assign', ..., authorize('developer', 'admin'),
    assignBug)] *)
Definition put_assign (now : Z) :=
  dispatch "/:id/assign" [authorize ["developer"; "admin"]] (assignBug now).

(** [router.post('/:id/comments', ..., addComment)] *)
Definition post_comments (now : Z) :=
  dispatch "/:id/comments" [] (addComment now).

(** [router.put('/:id/watch', ..., toggleWatcher)] *)
Definition put_watch (now : Z) :=
  dispatch "/:id/watch" [] (toggleWatcher now).

(** ** utils/validation.js: the other validators and the text helpers *)

(** Character classes of the regular expressions, and the two ways a
    class is tested on a string: some character is in it ([/[a-z]/.test],
    and [/(?=.*[a-z])/.test] alike, since the search may start at the
    character itself), or every character is. *)
Module Re.

Definition code (c : ascii) : Z := Z.of_nat (nat_of_ascii c).

Definition lower (c : ascii) : bool := bool_decide (97 ≤ code c ≤ 122).
Definition upper (c : ascii) : bool := bool_decide (65 ≤ code c ≤ 90).
Definition digit (c : ascii) : bool := bool_decide (48 ≤ code c ≤ 57).

(** [[@$!%*?&]] *)
Definition special (c : ascii) : bool :=
  bool_decide (code c ∈ [64; 36; 33; 37; 42; 63; 38]).

(** [[a-zA-Z0-9_-]] *)
Definition word (c : ascii) : bool :=
  lower c || upper c || digit c || bool_decide (code c = 95) ||
  bool_decide (code c = 45).

(** [[a-z0-9\s-]] *)
Definition slug (c : ascii) : bool :=
  lower c || digit c || Js.isWhiteSpace c || bool_decide (code c = 45).

Definition dash (c : ascii) : bool := bool_decide (c = "-"%char).

Fixpoint some (cls : ascii → bool) (s : string) : bool :=
  match s with
  | EmptyString => false
  | String c s' => cls c || some cls s'
  end.

Fixpoint every (cls : ascii → bool) (s : string) : bool :=
  match s with
  | EmptyString => true
  | String c s' => cls c && every cls s'
  end.

(** [s.replace(/c/g, by)] for a single character [c]. *)
Fixpoint replaceChar (c : ascii) (by_ : string) (s : string) : string :=
  match s with
  | EmptyString => EmptyString
  | String a s' =>
    if bool_decide (a = c) then by_ +:+ replaceChar c by_ s'
    else String a (replaceChar c by_ s')
  end.

(** [s.replace(/[^cls]/g, '')]: the characters of the class are kept. *)
Fixpoint keep (cls : ascii → bool) (s : string) : string :=
  match s with
  | EmptyString => EmptyString
  | String a s' => if cls a then String a (keep cls s') else keep cls s'
  end.

(** [s.replace(/cls+/g, r)]: every maximal run of characters of the class
    becomes one [r]; [inRun] tells that the run has begun. *)
Fixpoint replaceRuns_from (cls : ascii → bool) (r : ascii) (inRun : bool)
    (s : string) : string :=
  match s with
  | EmptyString => EmptyString
  | String a s' =>
    if cls a then
      if inRun then replaceRuns_from cls r true s'
      else String r (replaceRuns_from cls r true s')
    else String a (replaceRuns_from cls r false s')
  end.

Definition replaceRuns (cls : ascii → bool) (r : ascii) (s : string) : string :=
  replaceRuns_from cls r false s.

End Re.

Definition pushIf (test : bool) (message : string) (errors : list string)
  : list string :=
  if test then (errors ++ [message])%list else errors.

Definition calculatePasswordStrength (password : string) : Z :=
  let len := Z.of_nat (String.length password) in
  let score := 0 in
  let score := if 8 <=? len then score + 1 else score in
  let score := if 12 <=? len then score + 1 else score in
  let score := if Re.some Re.lower password then score + 1 else score in
  let score := if Re.some Re.upper password then score + 1 else score in
  let score := if Re.some Re.digit password then score + 1 else score in
  let score := if Re.some Re.special password then score + 1 else score in
  let score := if 16 <=? len then score + 1 else score in
  Z.min score 5.

Record PasswordCheck := mkPasswordCheck {
  pw_isValid : bool;
  pw_errors : list string;
  pw_strength : Z
}.

Definition validatePasswordStrength (password : string) : PasswordCheck :=
  let len := Z.of_nat (String.length password) in
  let errors := [] in
  let errors :=
    pushIf (len <? 8) "Password must be at least 8 characters long" errors in
  let errors :=
    pushIf (negb (Re.some Re.lower password))
      "Password must contain at least one lowercase letter" errors in
  let errors :=
    pushIf (negb (Re.some Re.upper password))
      "Password must contain at least one uppercase letter" errors in
  let errors :=
    pushIf (negb (Re.some Re.digit password))
      "Password must contain at least one number" errors in
  let errors :=
    pushIf (negb (Re.some Re.special password))
      "Password must contain at least one special character (@$!%*?&)"
      errors in
  mkPasswordCheck (bool_decide (List.length errors = 0%nat)) errors
    (calculatePasswordStrength password).

Record FieldCheck := mkFieldCheck {
  isValid : bool;
  errors : list string
}.

Definition blank (s : string) : bool :=
  negb (Js.truthy s) || bool_decide (String.length (Js.trim s) = 0%nat).

(** [username.length] throws on [null] and [undefined], which are [None]
    here; the same holds for [validateBugTitle]. *)
Definition validateUsername (username : option string)
  : Js.Completion FieldCheck :=
  match username with
  | None => Js.Throw Js.TypeError
  | Some username =>
  let len := Z.of_nat (String.length username) in
  let errors := [] in
  let errors := pushIf (blank username) "Username is required" errors in
  let errors :=
    pushIf (len <? 3) "Username must be at least 3 characters long" errors in
  let errors :=
    pushIf (30 <? len) "Username cannot exceed 30 characters" errors in
  let errors :=
    pushIf (negb (Js.truthy username && Re.every Re.word username))
      "Username can only contain letters, numbers, underscores, and hyphens"
      errors in
  Js.Normal (mkFieldCheck (bool_decide (List.length errors = 0%nat)) errors)
  end.

Definition validateBugTitle (title : option string)
  : Js.Completion FieldCheck :=
  match title with
  | None => Js.Throw Js.TypeError
  | Some title =>
  let len := Z.of_nat (String.length title) in
  let errors := [] in
  let errors := pushIf (blank title) "Bug title is required" errors in
  let errors :=
    pushIf (200 <? len) "Bug title cannot exceed 200 characters" errors in
  Js.Normal (mkFieldCheck (bool_decide (List.length errors = 0%nat)) errors)
  end.

(** The six replacements of [sanitizeHtml], in the order of the source:
    the ampersand first. *)
Definition sanitizeHtml (input : string) : string :=
  Re.replaceChar "/" "&#x2F;"
    (Re.replaceChar "'" "&#x27;"
       (Re.replaceChar "034" "&quot;"
          (Re.replaceChar ">" "&gt;"
             (Re.replaceChar "<" "&lt;"
                (Re.replaceChar "&" "&amp;" input))))).

(** [/^[0-9a-fA-F]{24}$/] *)
Definition hexDigit (c : ascii) : bool :=
  Re.digit c || bool_decide (97 ≤ Re.code c ≤ 102) ||
  bool_decide (65 ≤ Re.code c ≤ 70).

Definition isValidObjectId (id : string) : bool :=
  bool_decide (String.length id = 24%nat) && Re.every hexDigit id.

Definition generateSlug (text : string) : string :=
  String.substring 0 50
    (Re.replaceRuns Re.dash "-"
       (Re.replaceRuns Js.isWhiteSpace "-"
          (Re.keep Re.slug (Js.trim (Js.toLowerCase text))))).

(** ** utils/auth.js *)

(** [s.split(sep)] for a one character separator: the pieces between the
    separators, one piece when there is none. *)
Fixpoint split (sep : ascii) (s : string) : list string :=
  match s with
  | EmptyString => [EmptyString]
  | String a s' =>
    if bool_decide (a = sep) then EmptyString :: split sep s'
    else
      match split sep s' with
      | [] => [String a EmptyString]
      | piece :: pieces => String a piece :: pieces
      end
  end.

(** [pieces.join(sep)] *)
Fixpoint join (sep : ascii) (pieces : list string) : string :=
  match pieces with
  | [] => EmptyString
  | [piece] => piece
  | piece :: rest => piece +:+ String sep (join sep rest)
  end.

(** [null] is [None]; a missing header is [None] as well. *)
Definition extractTokenFromHeader (authHeader : option string)
  : option string :=
  match authHeader with
  | None => None
  | Some authHeader =>
    if negb (Js.truthy authHeader) then None
    else
      let parts := split " " authHeader in
      if negb (bool_decide (List.length parts = 2%nat)) ||
         negb (bool_decide (parts !! 0%nat = Some "Bearer"))
      then None
      else parts !! 1%nat
  end.

(** [hasRole]: the required roles are one role or an array of roles;
    anything else is the last case. *)
Inductive RequiredRoles :=
| OneRole (r : string)
| RoleArray (rs : list string)
| OtherRoles.

Definition hasRole (userRole : string) (requiredRoles : RequiredRoles) : bool :=
  match requiredRoles with
  | OneRole r => bool_decide (userRole = r)
  | RoleArray rs => Js.arrayIncludes rs userRole
  | OtherRoles => false
  end.

(** The resource handed to [canAccessResource], by the [modelName] of its
    constructor. *)
Inductive Resource :=
| BugDocument (bug : Bug)
| UserDocument (target : User)
| OtherDocument.

(** What the function returns: a boolean, or [undefined] where the
    optional chain on a missing assignee ends the expression. *)
Inductive Answer := Yes | No | NoAnswer.

Definition ofBool (b : bool) : Answer := if b then Yes else No.

Definition granted (a : Answer) : bool :=
  match a with Yes => true | _ => false end.

Definition canAccessResource (user : User) (resource : Resource)
    (action : string) : Answer :=
  if bool_decide (role user = "admin") then Yes
  else
    match resource with
    | BugDocument bug =>
      if bool_decide (action = "read") then Yes
      else if bool_decide (action = "create") then
        ofBool (Js.arrayIncludes ["reporter"; "developer"; "admin"] (role user))
      else if bool_decide (action = "update") then
        if bool_decide (role user = "admin") ||
           bool_decide (reporter bug = user_id user)
        then Yes
        else
          match assignee bug with
          | None => NoAnswer
          | Some a => ofBool (bool_decide (a = user_id user))
          end
      else if bool_decide (action = "delete") then
        ofBool (bool_decide (role user = "admin") ||
                bool_decide (reporter bug = user_id user))
      else No
    | UserDocument target =>
      if bool_decide (action = "read") then Yes
      else if bool_decide (action = "update") then
        ofBool (bool_decide (role user = "admin") ||
                bool_decide (user_id target = user_id user))
      else if bool_decide (action = "delete") then
        ofBool (bool_decide (role user = "admin"))
      else No
    | OtherDocument => No
    end.

(** ** middleware/auth.js: the rate limiter *)

(** One call of the middleware that [userRateLimit(maxRequests,
    windowMs)] returns, at time [now], on the [Map] it closes over: for
    each key the times of the requests it let through. [userId] is the
    key the middleware computes, the id of the user or else the address
    of the client. *)
Definition userRateLimit (maxRequests windowMs : Z) (userId : string)
    (now : Z) (userRequests : gmap string (list Z))
  : Guard * gmap string (list Z) :=
  let windowStart := now - windowMs in
  let userRequests :=
    match userRequests !! userId with
    | Some requests =>
      <[userId := filter (λ time, windowStart < time) requests]> userRequests
    | None => userRequests
    end in
  let currentRequests := default [] (userRequests !! userId) in
  if maxRequests <=? Z.of_nat (List.length currentRequests) then
    (Respond 429 "Too many requests. Please try again later.", userRequests)
  else
    (Next, <[userId := (currentRequests ++ [now])%list]> userRequests).

(** A run of the limiter over requests given as key and time. *)
Fixpoint rateLimitRun (maxRequests windowMs : Z) (calls : list (string * Z))
    (userRequests : gmap string (list Z)) : gmap string (list Z) :=
  match calls with
  | [] => userRequests
  | (userId, now) :: rest =>
    rateLimitRun maxRequests windowMs rest
      (userRateLimit maxRequests windowMs userId now userRequests).2
  end.

(** ** middleware/validation.js *)

(** *** Numbers and query values *)

(** The numbers of the pagination: the doubles that are integers, the
    two infinities and NaN. The two zeros are one here, since nothing in
    the code tells them apart. *)
Inductive Number :=
| NaN
| Num (z : Z)
| PlusInfinity
| MinusInfinity.

(** The double nearest to the natural number [m], ties to the even
    mantissa: up to 2^53 every integer is a double, above it the 53
    leading bits are kept and the rest is rounded. *)
Definition nearest (m : Z) : Z :=
  if m <? 2 ^ 53 then m
  else
    let e := Z.log2 m - 52 in
    let q := m / 2 ^ e in
    let r := m mod 2 ^ e in
    let half := 2 ^ (e - 1) in
    let q := if (half <? r) || ((r =? half) && Z.odd q) then q + 1 else q in
    q * 2 ^ e.

(** The number that an exact integer result becomes: the nearest double,
    or an infinity from 2^1024 on. *)
Definition toNumber (z : Z) : Number :=
  let m := nearest (Z.abs z) in
  if 2 ^ 1024 <=? m then (if z <? 0 then MinusInfinity else PlusInfinity)
  else Num (Z.sgn z * m).

Definition isNaN (x : Number) : bool :=
  match x with NaN => true | _ => false end.

(** [x < y] *)
Definition Number_lt (x y : Number) : bool :=
  match x, y with
  | NaN, _ | _, NaN => false
  | Num a, Num b => a <? b
  | MinusInfinity, MinusInfinity => false
  | MinusInfinity, _ => true
  | _, MinusInfinity => false
  | PlusInfinity, _ => false
  | _, PlusInfinity => true
  end.

(** [x - y] *)
Definition Number_sub (x y : Number) : Number :=
  match x, y with
  | NaN, _ | _, NaN => NaN
  | Num a, Num b => toNumber (a - b)
  | Num _, PlusInfinity => MinusInfinity
  | Num _, MinusInfinity => PlusInfinity
  | PlusInfinity, PlusInfinity => NaN
  | MinusInfinity, MinusInfinity => NaN
  | PlusInfinity, _ => PlusInfinity
  | MinusInfinity, _ => MinusInfinity
  end.

(** [x * y] *)
Definition Number_mul (x y : Number) : Number :=
  let scaled (positive : bool) (a : Z) : Number :=
    if a =? 0 then NaN
    else if Bool.eqb positive (0 <? a) then PlusInfinity
    else MinusInfinity in
  match x, y with
  | NaN, _ | _, NaN => NaN
  | Num a, Num b => toNumber (a * b)
  | Num a, PlusInfinity | PlusInfinity, Num a => scaled true a
  | Num a, MinusInfinity | MinusInfinity, Num a => scaled false a
  | PlusInfinity, PlusInfinity | MinusInfinity, MinusInfinity => PlusInfinity
  | PlusInfinity, MinusInfinity | MinusInfinity, PlusInfinity => MinusInfinity
  end.

(** A value of [req.query]: a string when the query gives the parameter
    once, an array when it gives it several times, an object when it
    gives it with keys in brackets. *)
#[local] Unset Elimination Schemes.
Inductive Query :=
| QString (s : string)
| QArray (items : list Query)
| QObject (members : list (string * Query)).
#[local] Set Elimination Schemes.

(** [String(value)], as [parseInt] takes it of its argument. The items
    of an array are joined by commas, each as its string. An object of
    the query parser has the [toString] of [Object.prototype], unless the
    query gives it a key [toString] of its own, which the parser of
    Express 4 allows: the value under it is no function, so that the
    conversion throws. *)
Fixpoint toString (value : Query) : Js.Completion string :=
  match value with
  | QString s => Js.Normal s
  | QArray items =>
    let fix each (items : list Query) : Js.Completion (list string) :=
      match items with
      | [] => Js.Normal []
      | item :: rest =>
        match toString item with
        | Js.Throw e => Js.Throw e
        | Js.Normal s =>
          match each rest with
          | Js.Throw e => Js.Throw e
          | Js.Normal ss => Js.Normal (s :: ss)
          end
        end
      end in
    match each items with
    | Js.Throw e => Js.Throw e
    | Js.Normal ss => Js.Normal (join "," ss)
    end
  | QObject members =>
    if Js.arrayIncludes members.*1 "toString" then Js.Throw Js.TypeError
    else Js.Normal "[object Object]"
  end.

(** [parseInt(string, 10)]: leading whitespace, an optional sign, then
    the longest run of decimal digits, as the double nearest to their
    value; NaN when there is no digit. *)
Fixpoint digitsValue (acc : Z) (s : string) : Z :=
  match s with
  | EmptyString => acc
  | String c s' =>
    if Re.digit c then digitsValue (10 * acc + (Re.code c - 48)) s'
    else acc
  end.

Definition startsWithDigit (s : string) : bool :=
  match s with
  | EmptyString => false
  | String c _ => Re.digit c
  end.

Definition parseInt (s : string) : Number :=
  let s := Js.trimStart s in
  let '(sign, digits) :=
    match s with
    | String "-" rest => (-1, rest)
    | String "+" rest => (1, rest)
    | _ => (1, s)
    end in
  if startsWithDigit digits then toNumber (sign * digitsValue 0 digits)
  else NaN.

(** *** validatePagination and validateSort *)

Record Pagination := mkPagination {
  page : Number;
  limit : Number;
  skip : Number
}.

(** [req.query.page] and [req.query.limit], [None] when the query does
    not have them: the defaults 1 and 10 of the destructuring apply.
    [parseInt] takes the string of what it is given, and what that
    conversion throws ends the middleware. *)
Definition validatePagination (queryPage queryLimit : option Query)
  : Js.Completion Pagination :=
  let parsed (default : Number) (value : option Query)
    : Js.Completion Number :=
    match value with
    | None => Js.Normal default
    | Some value =>
      match toString value with
      | Js.Throw e => Js.Throw e
      | Js.Normal s => Js.Normal (parseInt s)
      end
    end in
  match parsed (Num 1) queryPage with
  | Js.Throw e => Js.Throw e
  | Js.Normal page =>
    match parsed (Num 10) queryLimit with
    | Js.Throw e => Js.Throw e
    | Js.Normal limit =>
      let page :=
        if isNaN page || Number_lt page (Num 1) then Num 1 else page in
      let limit :=
        if isNaN limit || Number_lt limit (Num 1) then Num 10 else limit in
      let limit := if Number_lt (Num 100) limit then Num 100 else limit in
      Js.Normal
        (mkPagination page limit (Number_mul (Number_sub page (Num 1)) limit))
    end
  end.

Definition allowedSortFields : list string :=
  ["createdAt"; "updatedAt"; "title"; "priority"; "status"].

(** [sortObj[key] = value] on an object as the list of its entries, in
    insertion order: a key that is there keeps its place. *)
Fixpoint setProperty {V} (key : string) (value : V)
    (obj : list (string * V)) : list (string * V) :=
  match obj with
  | [] => [(key, value)]
  | (k, v) :: rest =>
    if bool_decide (k = key) then (k, value) :: rest
    else (k, v) :: setProperty key value rest
  end.

(** The body of the [forEach] of [validateSort]. *)
Definition addSortField (sortObj : list (string * Z)) (field : string)
  : list (string * Z) :=
  let '(sortField, sortOrder) :=
    match field with
    | String "-" rest => (rest, -1)
    | _ => (field, 1)
    end in
  if Js.arrayIncludes allowedSortFields sortField
  then setProperty sortField sortOrder sortObj
  else sortObj.

(** [req.query.sort], [None] when the query has none. An array and an
    object are truthy and have no [split] to call: [sort.split(',')]
    throws. *)
Definition validateSort (querySort : option Query)
  : Js.Completion (list (string * Z)) :=
  let orDefault (sortObj : list (string * Z)) : list (string * Z) :=
    match sortObj with
    | [] => [("createdAt", -1)]
    | _ :: _ => sortObj
    end in
  match querySort with
  | None => Js.Normal (orDefault [])
  | Some (QString sort) =>
    Js.Normal
      (orDefault
         (if Js.truthy sort then foldl addSortField [] (split "," sort)
          else []))
  | Some (QArray _) | Some (QObject _) => Js.Throw Js.TypeError
  end.

(** A loop over the items of an array that ends at the first throw. *)
Definition forEach {A B} (f : A → Js.Completion B)
  : list A → Js.Completion (list B) :=
  fix each (items : list A) : Js.Completion (list B) :=
    match items with
    | [] => Js.Normal []
    | item :: rest =>
      match f item with
      | Js.Throw e => Js.Throw e
      | Js.Normal item =>
        match each rest with
        | Js.Throw e => Js.Throw e
        | Js.Normal rest => Js.Normal (item :: rest)
        end
      end
    end.

(** [sanitize(obj)] of [sanitizeInput], on the value that holds [obj]:
    a string property gets the six replacements of [sanitizeHtml], in the
    same order; an array or an object is walked; anything else stays.
    [obj.hasOwnProperty(key)] is a call of the own property of that name
    when [obj] has one, and a parsed value is no function: the call
    throws before anything of [obj] is looked at. *)
Fixpoint sanitize (value : Json) : Js.Completion Json :=
  match value with
  | JString s => Js.Normal (JString (sanitizeHtml s))
  | JArray items =>
    match forEach sanitize items with
    | Js.Throw e => Js.Throw e
    | Js.Normal items => Js.Normal (JArray items)
    end
  | JObject members =>
    if Js.arrayIncludes members.*1 "hasOwnProperty" then Js.Throw Js.TypeError
    else
      match
        forEach (λ member,
                   match sanitize member.2 with
                   | Js.Throw e => Js.Throw e
                   | Js.Normal item => Js.Normal (member.1, item)
                   end) members
      with
      | Js.Throw e => Js.Throw e
      | Js.Normal members => Js.Normal (JObject members)
      end
  | other => Js.Normal other
  end.

(** [if (req.body) sanitize(req.body)]. What [sanitize] rewrites are the
    properties of its argument: a body that is itself a string, a number
    or a boolean comes out as it went in. *)
Definition sanitizeInput (body : Json) : Js.Completion Json :=
  match body with
  | JArray _ | JObject _ => sanitize body
  | other => Js.Normal other
  end.

(** ** models/Bug.js: the virtual, the watcher methods, the queries *)

(** The truthiness of the [isOverdue] virtual at time [now]. *)
Definition isOverdue (now : Z) (this : Bug) : bool :=
  match dueDate this with
  | None => false
  | Some due =>
    (due <? now) && negb (Js.arrayIncludes ["resolved"; "closed"] (status this))
  end.

(** [bugSchema.methods]: the two watcher methods, on the document [this]
    as it was loaded from [db]. *)
Module BugMethods.

Definition addWatcher (now : Z) (userId : ObjectId) (this : Bug) (db : Db)
  : Js.Completion Bug * Db :=
  if negb (bool_decide (userId ∈ watchers this)) then
    save now this (set_watchers (watchers this ++ [userId])%list this) db
  else (Js.Normal this, db).

Definition removeWatcher (now : Z) (userId : ObjectId) (this : Bug) (db : Db)
  : Js.Completion Bug * Db :=
  save now this
    (set_watchers (filter (λ watcher, watcher ≠ userId) (watchers this)) this)
    db.

End BugMethods.

(** [Bug.find(query)] and [Bug.countDocuments(query)], the query as the
    predicate it stands for. *)
Definition find (query : Bug → Prop) `{∀ b, Decision (query b)} (db : Db)
  : list Bug :=
  filter query (collection db).

Definition countDocuments (query : Bug → Prop) `{∀ b, Decision (query b)}
    (db : Db) : Z :=
  Z.of_nat (List.length (find query db)).

(** ** controllers/bugController.js: the handlers that read *)

Definition getBug (req : Request unit) (db : Db) : Result Bug * Db :=
  match bugs db !! params_id req with
  | None => (Rejected 404 "Bug not found", db)
  | Some bug => (Sent 200 bug, db)
  end.

(** The [statistics] of the response of [getBugStatistics]; its
    [recentBugs], a sorted page of five, is left out. *)
Record BugStatistics := mkBugStatistics {
  stats : Statistics;
  overdue : Z;
  myBugs : Z
}.

Definition getBugStatistics (now : Z) (req : Request unit) (db : Db)
  : Result BugStatistics * Db :=
  let stats := getStatistics db in
  match user req with
  | None => (Crashed Js.TypeError, db)
  | Some u =>
    let overdueCount :=
      countDocuments
        (λ b, from_option (λ due, due <? now) false (dueDate b) = true ∧
              status b ∉ ["resolved"; "closed"]) db in
    let myBugsCount :=
      countDocuments
        (λ b, reporter b = user_id u ∨ assignee b = Some (user_id u)) db in
    (Sent 200 (mkBugStatistics stats overdueCount myBugsCount), db)
  end.

(** [Math.ceil(total / limit)] for a positive [limit]. *)
Definition ceilDiv (total limit : Z) : Z := - ((- total) / limit).

(** The data of a listing: the page of bugs and the [pagination]. *)
Record Listing := mkListing {
  listed : list Bug;
  l_page : Number;
  l_limit : Number;
  l_total : Z;
  l_pages : Z
}.

(** [Bug.find(query).sort(sort).skip(skip).limit(limit)] and the count of
    the same query. The order MongoDB gives to the documents it finds is
    the parameter [sorted]. The skip and the limit go to the database as
    they are: the embedding covers those that are 64 bit integers, the
    skip not negative and the limit positive, and is [None] for the
    others. *)
Definition findPage (sorted : list (string * Z) → list Bug → list Bug)
    (query : Bug → Prop) `{∀ b, Decision (query b)}
    (pagination : Pagination) (sort : list (string * Z)) (db : Db)
  : option Listing :=
  match skip pagination, limit pagination with
  | Num skip, Num limit =>
    if (0 <=? skip) && (skip <? 2 ^ 63) && (1 <=? limit) && (limit <? 2 ^ 63)
    then
      let bugs :=
        take (Z.to_nat limit)
          (drop (Z.to_nat skip) (sorted sort (find query db))) in
      let total := countDocuments query db in
      Some (mkListing bugs (page pagination) (Num limit) total
              (ceilDiv total limit))
    else None
  | _, _ => None
  end.

Definition getMyAssignedBugs
    (sorted : list (string * Z) → list Bug → list Bug)
    (pagination : Pagination) (sort : list (string * Z))
    (req : Request unit) (db : Db) : option (Result Listing * Db) :=
  match user req with
  | None => Some (Crashed Js.TypeError, db)
  | Some u =>
    listing ←
      findPage sorted (λ b, assignee b = Some (user_id u)) pagination sort db;
    Some (Sent 200 listing, db)
  end.

Definition getMyReportedBugs
    (sorted : list (string * Z) → list Bug → list Bug)
    (pagination : Pagination) (sort : list (string * Z))
    (req : Request unit) (db : Db) : option (Result Listing * Db) :=
  match user req with
  | None => Some (Crashed Js.TypeError, db)
  | Some u =>
    listing ←
      findPage sorted (λ b, reporter b = user_id u) pagination sort db;
    Some (Sent 200 listing, db)
  end.

(** [router.get('/my-assigned', validatePagination, validateSort,
    getMyAssignedBugs)], on the three query parameters: what
    [validatePagination] or [validateSort] throws ends the request. *)
Definition get_my_assigned
    (sorted : list (string * Z) → list Bug → list Bug)
    (queryPage queryLimit querySort : option Query)
    (req : Request unit) (db : Db) : option (Result Listing * Db) :=
  match validatePagination queryPage queryLimit with
  | Js.Throw e => Some (Crashed e, db)
  | Js.Normal pagination =>
    match validateSort querySort with
    | Js.Throw e => Some (Crashed e, db)
    | Js.Normal sort => getMyAssignedBugs sorted pagination sort req db
    end
  end.

(** [router.get('/my-reported', validatePagination, validateSort,
    getMyReportedBugs)] *)
Definition get_my_reported
    (sorted : list (string * Z) → list Bug → list Bug)
    (queryPage queryLimit querySort : option Query)
    (req : Request unit) (db : Db) : option (Result Listing * Db) :=
  match validatePagination queryPage queryLimit with
  | Js.Throw e => Some (Crashed e, db)
  | Js.Normal pagination =>
    match validateSort querySort with
    | Js.Throw e => Some (Crashed e, db)
    | Js.Normal sort => getMyReportedBugs sorted pagination sort req db
    end
  end.

(** ** middleware/auth.js: protect and optionalAuth *)

(** [verifyToken(token)] is [jwt.verify] with the secret of the server:
    the parameter [jwt_verify], which gives the [id] of the payload, if
    the payload has one, and is [None] when the verification throws. *)
Definition verifyToken (jwt_verify : string → option (option ObjectId))
    (token : string) : option (option ObjectId) :=
  jwt_verify token.

(** [protect] on the [authorization] header: the answer of the
    middleware and the [req.user] it leaves. [User.findById] of an [id]
    that is [undefined] finds nobody. *)
Definition protect (jwt_verify : string → option (option ObjectId))
    (authHeader : option string) (db : Db) : Guard * option User :=
  match extractTokenFromHeader authHeader with
  | None => (Respond 401 "Access denied. No token provided.", None)
  | Some token =>
    if negb (Js.truthy token)
    then (Respond 401 "Access denied. No token provided.", None)
    else
      match verifyToken jwt_verify token with
      | None => (Respond 401 "Token is invalid.", None)
      | Some decoded_id =>
        match decoded_id ≫= (λ id, users db !! id) with
        | None => (Respond 401 "Token is invalid or user is inactive.", None)
        | Some user =>
          if negb (isActive user)
          then (Respond 401 "Token is invalid or user is inactive.", None)
          else (Next, Some user)
        end
      end
  end.

(** [optionalAuth] always goes on; [req.user] is set when the token
    stands for an active user. *)
Definition optionalAuth (jwt_verify : string → option (option ObjectId))
    (authHeader : option string) (db : Db) : Guard * option User :=
  match extractTokenFromHeader authHeader with
  | None => (Next, None)
  | Some token =>
    if Js.truthy token then
      match verifyToken jwt_verify token with
      | None => (Next, None)
      | Some decoded_id =>
        match decoded_id ≫= (λ id, users db !! id) with
        | None => (Next, None)
        | Some user =>
          if isActive user then (Next, Some user) else (Next, None)
        end
      end
    else (Next, None)
  end.

(** [router.use(protect)] in front of a route: the route sees the
    request with the user that [protect] found. *)
Definition protected {B A} (jwt_verify : string → option (option ObjectId))
    (authHeader : option string)
    (route : Request B → Db → Result A * Db)
    (req : Request B) (db : Db) : Result A * Db :=
  match protect jwt_verify authHeader db with
  | (Next, found) =>
    route (mkRequest found (params_id req) (body req) (route_path req)) db
  | (Respond code error, _) => (Rejected code error, db)
  end.

(** * Sample data and auxiliary definitions

    Users of the three roles and a few bugs, on which the handlers are
    run, and the notions the statements below are phrased with. *)

Definition alice : User := mkUser "64a000000000000000000001" "alice" "reporter" true.
Definition bob : User := mkUser "64a000000000000000000002" "bob" "developer" true.
Definition carol : User := mkUser "64a000000000000000000003" "carol" "admin" true.
Definition dave : User := mkUser "64a000000000000000000004" "dave" "reporter" true.

Definition bugId : ObjectId := "64b000000000000000000001".

(** A bug reported by alice, unassigned, in the given status. *)
Definition sampleBug (st : string) : Bug :=
  mkBug bugId "Login fails" "Cannot log in" st "high" "major" "bug"
    "production" None (user_id alice) [] None None [] [] [] None None None
    1000 1000.

Definition sampleUsers : gmap ObjectId User :=
  list_to_map [ (user_id alice, alice); (user_id bob, bob);
                (user_id carol, carol); (user_id dave, dave) ].

Definition sampleDb (st : string) : Db :=
  put_bug bugId (sampleBug st) (mkDb ∅ sampleUsers).

Definition titlePatch (t : string) : Patch :=
  mkPatch (Some t) None None None None None None None None None None None None.

Definition statusPatch (s : string) : Patch :=
  mkPatch None None (Some s) None None None None None None None None None None.

(** The same body with other values under [reporter] and [status]. *)
Definition with_reporter_status (r : option ObjectId) (s : option string)
    (b : CreateBody) : CreateBody :=
  mkCreateBody (cb_title b) (cb_description b) (cb_priority b) (cb_severity b)
    (cb_category b) (cb_environment b) (cb_stepsToReproduce b)
    (cb_expectedResult b) (cb_actualResult b) (cb_tags b) (cb_dueDate b) r s.

Definition sampleCreate : CreateBody :=
  mkCreateBody (Some "  Crash on save ") (Some "The editor crashes")
    (Some "critical") None None None
    (Some [mkStep "press save" 2; mkStep "open a file" 1])
    None None (Some [" UI "]) None
    (Some (user_id dave)) (Some "closed").

Definition seededBug : Bug :=
  set_comments [mkComment (user_id bob) "seen" 1500] (sampleBug "open").

Definition seededDb : Db := put_bug bugId seededBug (sampleDb "open").

(** A patch that names dave as reporter, moves the creation time and
    empties the comments, besides renaming the bug. *)
Definition greedyPatch : Patch :=
  mkPatch (Some " Login is broken ") None None (Some "critical") None None
    None None None None (Some (user_id dave)) (Some 1) (Some []).

(** An update that names dave as reporter, moves the creation time and
    empties the comments under [$set], with no key at the top level. *)
Definition operatorPatch : Update :=
  mkUpdate
    (mkPatch None None None None None None None None None None None None None)
    (Some (mkPatch None None None None None None None None None None
             (Some (user_id dave)) (Some 1) (Some []))).

(** The update document of [assignBug]: [{ assignee: assigneeId }]. *)
Definition assignment (assigneeId : ObjectId) : Patch :=
  mkPatch None None None None None None None (Some assigneeId)
    None None None None None.

(** The watchers after one toggle by [userId]. *)
Definition toggled (userId : ObjectId) (ws : list ObjectId) : list ObjectId :=
  if bool_decide (userId ∈ ws) then filter (λ watcher, watcher ≠ userId) ws
  else (ws ++ [userId])%list.

(** The document that one toggle by [u] saves. *)
Definition watchSaved (u : User) (now : Z) (bug : Bug) : Bug :=
  set_updatedAt now
    (pre_save false now (set_watchers (toggled (user_id u) (watchers bug)) bug)).

(** The sample bug watched by bob and alice, in this order. *)
Definition watchedBug : Bug :=
  set_watchers [user_id bob; user_id alice] (sampleBug "open").

Definition watchedDb : Db := put_bug bugId watchedBug (sampleDb "open").

(** The number of documents that satisfy [P]. *)
Definition countWhere (P : Bug → Prop) `{∀ b, Decision (P b)}
    (docs : list Bug) : Z :=
  Z.of_nat (List.length (filter P docs)).

(** Five bugs, with the statuses open, open, in-progress, resolved and
    closed. *)
Definition fiveBugs : Db :=
  mkDb
    (list_to_map
       [ ("64b000000000000000000001", sampleBug "open");
         ("64b000000000000000000002", sampleBug "resolved");
         ("64b000000000000000000003", sampleBug "in-progress");
         ("64b000000000000000000004", sampleBug "closed");
         ("64b000000000000000000005", sampleBug "open") ])
    ∅.

(** Every stored bug sits under its own id and passes the schema
    validators. *)
Definition wf_db (db : Db) : Prop :=
  ∀ id b, bugs db !! id = Some b → bug_id b = id ∧ validate b = true.

(** ** Notions for the other validators, the middlewares and the
    reading handlers *)

(** The characters [sanitizeHtml] is there to remove, and those it
    rewrites (the same and the ampersand). *)
Definition markup (c : ascii) : bool :=
  bool_decide (Re.code c ∈ [60; 62; 34; 39; 47]).

Definition escaped (c : ascii) : bool :=
  markup c || bool_decide (Re.code c = 38).

(** [[a-z0-9-]], the characters of a slug. *)
Definition slugOut (c : ascii) : bool :=
  Re.lower c || Re.digit c || Re.dash c.

(** A character that [trim] does not remove. *)
Definition notSpace (c : ascii) : bool := negb (Js.isWhiteSpace c).

(** [c] occurs in [s]. *)
Definition hasChar (c : ascii) (s : string) : bool :=
  Re.some (λ a, bool_decide (a = c)) s.

(** The lists of a limiter hold at most [maxRequests] times. *)
Definition bounded (maxRequests : Z) (userRequests : gmap string (list Z))
  : Prop :=
  ∀ userId requests,
    userRequests !! userId = Some requests →
    Z.of_nat (List.length requests) ≤ maxRequests.

(** The requests of a run that the limiter lets through, in order. *)
Fixpoint letThrough (maxRequests windowMs : Z) (calls : list (string * Z))
    (userRequests : gmap string (list Z)) : list (string * Z) :=
  match calls with
  | [] => []
  | (userId, now) :: rest =>
    let '(answer, userRequests) :=
      userRateLimit maxRequests windowMs userId now userRequests in
    match answer with
    | Next => (userId, now) :: letThrough maxRequests windowMs rest userRequests
    | Respond _ _ => letThrough maxRequests windowMs rest userRequests
    end
  end.

(** The requests of [userId] within the window that ends at [now]. *)
Definition inWindow (windowMs : Z) (userId : string) (now : Z)
    (calls : list (string * Z)) : list (string * Z) :=
  filter (λ call, call.1 = userId ∧ now - windowMs < call.2) calls.

(** Above every threshold that the calls made so far allow, the list of
    a key is the history of the requests let through for it. *)
Definition agrees (windowMs : Z) (seen : list Z)
    (userRequests : gmap string (list Z)) (history : list (string * Z))
  : Prop :=
  ∀ k c, (∀ t, t ∈ seen → t - windowMs ≤ c) →
    filter (λ t, c < t) (default [] (userRequests !! k)) =
    (filter (λ call, call.1 = k ∧ c < call.2) history).*2.

(** [f] on every string that a value holds, at any depth. *)
Fixpoint mapStrings (f : string → string) (value : Json) : Json :=
  match value with
  | JString s => JString (f s)
  | JArray items => JArray (map (mapStrings f) items)
  | JObject members =>
    JObject (map (λ member, (member.1, mapStrings f member.2)) members)
  | other => other
  end.

(** The strings that a value holds, at any depth. *)
Fixpoint strings (value : Json) : list string :=
  match value with
  | JString s => [s]
  | JArray items => List.concat (map strings items)
  | JObject members => List.concat (map (λ member, strings member.2) members)
  | _ => []
  end.

(** Some object of the value has a member called [hasOwnProperty]. *)
Fixpoint shadows (value : Json) : bool :=
  match value with
  | JArray items => existsb shadows items
  | JObject members =>
    Js.arrayIncludes members.*1 "hasOwnProperty" ||
    existsb (λ member, shadows member.2) members
  | _ => false
  end.

Definition isContainer (value : Json) : bool :=
  match value with
  | JArray _ | JObject _ => true
  | _ => false
  end.

(** A body with markup in its strings, two levels down. *)
Definition sampleBody : Json :=
  JObject [ ("title", JString "<b>Crash</b>");
            ("steps", JArray [JString "open a/b"; JNumber 2]) ].

(** What a listing of the bugs that satisfy [query] has to say, for a
    limit and a skip. *)
Definition pageOf (query : Bug → Prop) `{∀ b, Decision (query b)}
    (limit skip : Z) (db : Db) (l : Listing) : Prop :=
  let matching := countWhere query (collection db) in
  l_limit l = Num limit ∧
  l_total l = matching ∧
  Z.of_nat (List.length (listed l)) = Z.max 0 (Z.min limit (matching - skip)) ∧
  (∀ b, b ∈ listed l → query b ∧ b ∈ collection db) ∧
  (l_pages l - 1) * limit < matching ≤ l_pages l * limit.

(** What holds of the sort object all along the loop. *)
Definition sortFields (sortObj : list (string * Z)) : Prop :=
  NoDup sortObj.*1 ∧
  Forall (λ entry, entry.1 ∈ allowedSortFields ∧ (entry.2 = 1 ∨ entry.2 = -1))
    sortObj.


(** Steps in ascending order: each step is at most every later one. *)
Fixpoint ascending (steps : list Step) : Prop :=
  match steps with
  | [] => True
  | s :: rest => Forall (λ x, order s ≤ order x) rest ∧ ascending rest
  end.

(** A comment as a client posts it: who, what and when. *)
Record Post := mkPost {
  post_user : User;
  post_content : string;
  post_time : Z
}.

(** Comments posted one after the other on the bug [id]. *)
Fixpoint postComments (id : ObjectId) (posts : list Post) (db : Db) : Db :=
  match posts with
  | [] => db
  | p :: rest =>
    postComments id rest
      (post_comments (post_time p)
         (mkRequest (Some (post_user p)) id (Some (JString (post_content p)))
            EmptyString) db).2
  end.

(** The comment that a post becomes. *)
Definition posted (p : Post) : Comment :=
  mkComment (user_id (post_user p)) (Js.trim (post_content p)) (post_time p).

(** A content that [addComment] and the schema accept. *)
Definition acceptable (raw : string) : Prop :=
  Js.trim raw ≠ EmptyString ∧ Z.of_nat (String.length (Js.trim raw)) ≤ 1000.

(** Two comments on the seeded bug, the first with blanks around it. *)
Definition samplePosts : list Post :=
  [mkPost carol "  fixed in 1.2 " 2000; mkPost dave "confirmed" 3000].

(** A verification that knows one token, that of bob. *)
Definition sampleVerify (token : string) : option (option ObjectId) :=
  if bool_decide (token = "t0k3n") then Some (Some (user_id bob)) else None.


(** How a parameter is read: the default when the query does not have
    it, the integer parsed from its string otherwise. *)
Definition readAs (default : Number) (param : option Query) (n : Number)
  : Prop :=
  match param with
  | None => n = default
  | Some value => ∃ s, toString value = Js.Normal s ∧ n = parseInt s
  end.

(** * Properties *)

(** ** The save hook *)

Section SaveHook.

Implicit Types (this : Bug) (now : Z) (m : bool).

Local Ltac by_cases m :=
  unfold pre_save; destruct m; repeat (case_match; cbn); reflexivity.

(** The hook touches [resolvedAt], [closedAt] and the order of the
    steps, nothing else. *)
Lemma pre_save_bug_id m now this :
  bug_id (pre_save m now this) = bug_id this.
Proof. by_cases m. Qed.

Lemma pre_save_title m now this :
  title (pre_save m now this) = title this.
Proof. by_cases m. Qed.

Lemma pre_save_description m now this :
  description (pre_save m now this) = description this.
Proof. by_cases m. Qed.

Lemma pre_save_status m now this :
  status (pre_save m now this) = status this.
Proof. by_cases m. Qed.

Lemma pre_save_priority m now this :
  priority (pre_save m now this) = priority this.
Proof. by_cases m. Qed.

Lemma pre_save_severity m now this :
  severity (pre_save m now this) = severity this.
Proof. by_cases m. Qed.

Lemma pre_save_category m now this :
  category (pre_save m now this) = category this.
Proof. by_cases m. Qed.

Lemma pre_save_environment m now this :
  environment (pre_save m now this) = environment this.
Proof. by_cases m. Qed.

Lemma pre_save_assignee m now this :
  assignee (pre_save m now this) = assignee this.
Proof. by_cases m. Qed.

Lemma pre_save_reporter m now this :
  reporter (pre_save m now this) = reporter this.
Proof. by_cases m. Qed.

Lemma pre_save_expectedResult m now this :
  expectedResult (pre_save m now this) = expectedResult this.
Proof. by_cases m. Qed.

Lemma pre_save_actualResult m now this :
  actualResult (pre_save m now this) = actualResult this.
Proof. by_cases m. Qed.

Lemma pre_save_comments m now this :
  comments (pre_save m now this) = comments this.
Proof. by_cases m. Qed.

Lemma pre_save_watchers m now this :
  watchers (pre_save m now this) = watchers this.
Proof. by_cases m. Qed.

Lemma pre_save_createdAt m now this :
  createdAt (pre_save m now this) = createdAt this.
Proof. by_cases m. Qed.

Lemma pre_save_stepsToReproduce m now this :
  stepsToReproduce (pre_save m now this)
  = sortSteps (stepsToReproduce this).
Proof.
  unfold pre_save.
  match goal with
  | |- context [match stepsToReproduce ?b with _ => _ end] =>
    set (stamped := b);
    assert (stepsToReproduce stamped = stepsToReproduce this) as <-
      by (subst stamped; destruct m; repeat (case_match; cbn); reflexivity)
  end.
  clearbody stamped.
  destruct (stepsToReproduce stamped) eqn:E; [exact E | reflexivity].
Qed.

(** When the status has changed, the hook stamps a resolved bug that has
    no stamp yet, and likewise a closed one; it never replaces or clears
    a stamp. *)
Lemma pre_save_resolvedAt m now this :
  resolvedAt (pre_save m now this) =
    match resolvedAt this with
    | Some at_ => Some at_
    | None => if m && bool_decide (status this = "resolved")
              then Some now else None
    end.
Proof.
  unfold pre_save.
  destruct m, (resolvedAt this) eqn:Hres,
    (bool_decide (status this = "resolved"));
    cbn; repeat (case_match; cbn); done.
Qed.

Lemma pre_save_closedAt m now this :
  closedAt (pre_save m now this) =
    match closedAt this with
    | Some at_ => Some at_
    | None => if m && bool_decide (status this = "closed")
              then Some now else None
    end.
Proof.
  unfold pre_save.
  destruct m, (closedAt this) eqn:Hres,
    (bool_decide (status this = "resolved")),
    (Js.present (resolvedAt this)),
    (bool_decide (status this = "closed")) eqn:Hst;
    cbn; rewrite ?Hst, ?Hres; cbn; repeat (case_match; cbn); done.
Qed.

(** Sorting the steps keeps each of them. *)
Lemma insertStep_forallb (P : Step → bool) s l :
  forallb P (insertStep s l) = P s && forallb P l.
Proof.
  induction l as [| x l IH]; cbn; [done |].
  case_match; cbn; [done |]. rewrite IH.
  by destruct (P s), (P x).
Qed.

Lemma sortSteps_forallb (P : Step → bool) l :
  forallb P (sortSteps l) = forallb P l.
Proof.
  induction l as [| x l IH]; cbn; [done |].
  rewrite insertStep_forallb. f_equal. exact IH.
Qed.

End SaveHook.

Create Rewrite HintDb frame.
#[export] Hint Rewrite pre_save_bug_id pre_save_title pre_save_description
  pre_save_status pre_save_priority pre_save_severity pre_save_category
  pre_save_environment pre_save_assignee pre_save_reporter
  pre_save_expectedResult pre_save_actualResult pre_save_comments
  pre_save_watchers pre_save_createdAt pre_save_stepsToReproduce
  pre_save_resolvedAt pre_save_closedAt : frame.

(** Validation of a saved document looks only at paths the hook keeps. *)
Lemma validate_saved m now v this :
  validate (set_updatedAt v (pre_save m now this)) = validate this.
Proof.
  unfold validate. cbn. autorewrite with frame.
  by rewrite sortSteps_forallb.
Qed.

(** ** The stored bugs stay well formed *)

Section WellFormed.

Lemma wf_empty us : wf_db (mkDb ∅ us).
Proof. intros id b. cbn. by rewrite lookup_empty. Qed.

Lemma wf_put id b db :
  wf_db db → bug_id b = id → validate b = true → wf_db (put_bug id b db).
Proof.
  intros Hwf Hid Hval id' b'. unfold put_bug. cbn [bugs].
  rewrite lookup_insert. case_decide as Heq.
  - intros [= <-]. by subst.
  - apply Hwf.
Qed.


Lemma validate_pre_save m now this :
  validate (pre_save m now this) = validate this.
Proof.
  unfold validate. autorewrite with frame. by rewrite sortSteps_forallb.
Qed.






Lemma save_wf now loaded this db :
  wf_db db → wf_db (save now loaded this db).2.
Proof.
  intros Hwf. unfold save. destruct (validate this) eqn:Hval; [| done].
  cbn [snd]. apply wf_put; [done | done |].
  destruct (bool_decide (this = loaded));
    by rewrite ?validate_saved, ?validate_pre_save.
Qed.

(** A document that was changed is saved with the time of the call. *)
Lemma save_modified now loaded this db :
  this ≠ loaded →
  save now loaded this db =
    if validate this then
      let saved :=
        set_updatedAt now
          (pre_save (negb (bool_decide (status this = status loaded))) now this)
      in (Js.Normal saved, put_bug (bug_id saved) saved db)
    else (Js.Throw Js.ValidationError, db).
Proof.
  intros Hne. unfold save. by rewrite (bool_decide_eq_false_2 _ Hne).
Qed.

Lemma set_status_modified s this : s ≠ status this → set_status s this ≠ this.
Proof. intros Hne Heq. apply Hne. by apply (f_equal status) in Heq. Qed.

Lemma set_comments_modified c this :
  set_comments (comments this ++ [c])%list this ≠ this.
Proof.
  intros Heq. apply (f_equal comments) in Heq. cbn in Heq.
  apply (f_equal List.length) in Heq. rewrite length_app in Heq.
  cbn in Heq. lia.
Qed.

Lemma addComment_wf now req db :
  wf_db db → wf_db (addComment now req db).2.
Proof.
  intros Hwf. unfold addComment.
  destruct (body req) as [[| b | n | content | items | members] |];
    try done; try (by destruct (negb _)).
  destruct (_ || _); [done |].
  destruct (bugs db !! params_id req); [| done].
  destruct (user req); [| done].
  match goal with
  | |- context [save ?n ?l ?t ?d] =>
    pose proof (save_wf n l t d Hwf) as Hs; destruct (save n l t d) as [[] ?]
  end; exact Hs.
Qed.


End WellFormed.

(** ** The status transition validator *)

Section Transitions.

Implicit Types from to : string.



(** The table has eleven edges, none of them a loop, and every edge joins
    two of the five statuses. *)
Lemma legalEdges_shape :
  List.length legalEdges = 11%nat ∧
  Forall (λ e, e.1 ≠ e.2 ∧ e.1 ∈ validStatuses ∧ e.2 ∈ validStatuses)
    legalEdges.
Proof.
  split; [reflexivity |].
  apply (bool_decide_unpack _). by vm_compute.
Qed.


(** C1: the validator is meant to answer [false] on every pair outside
    the table, unknown values included; on the current status
    ["constructor"], which is not a status, it does not answer [false]
    but throws a [TypeError], because the table is an object literal and
    the lookup finds [Object.prototype.constructor]. *)
Theorem validateStatusTransition_constructor_throws :
  ("constructor" ∉ validStatuses) ∧
  validateStatusTransition "constructor" "open" = Js.Throw Js.TypeError ∧
  validateStatusTransition "constructor" "open" ≠ Js.Normal false.
Proof.
  split; [| split; [reflexivity | discriminate]].
  unfold validStatuses. rewrite !elem_of_cons, elem_of_nil.
  intuition discriminate.
Qed.

End Transitions.

(** ** updateBug and illegal transitions *)

Section UpdateTransitions.

Variables (now : Z) (req : Request Update) (db : Db).


End UpdateTransitions.


(** ** Who may update and who may delete *)

Section AccessControl.

Context {B : Type}.
Implicit Types (req : Request B) (db : Db) (u : User) (bug : Bug).

(** The ownership rule that [canModifyResource] holds for bugs, reached
    when the path of the matched route mentions [/bugs]. *)
Lemma canModifyResource_ownership req db u bug :
  user req = Some u →
  role u ≠ "admin" →
  Js.includes (route_path req) "/bugs" = true →
  bugs db !! params_id req = Some bug →
  canModifyResource req db =
    if decide (reporter bug = user_id u ∨ assignee bug = Some (user_id u))
    then Next
    else Respond 403
           "You can only modify bugs you reported or are assigned to.".
Proof.
  intros Hu Hrole Hpath Hbug. unfold canModifyResource.
  rewrite Hu, bool_decide_eq_false_2, Hpath, Hbug by done.
  destruct (assignee bug) as [a |]; cbn [from_option];
    repeat case_bool_decide; cbn [orb negb]; case_decide;
    first [reflexivity | exfalso; intuition congruence].
Qed.

(** On a route whose path does not mention [/bugs] the rule is never
    consulted: every authenticated user passes. *)
Lemma canModifyResource_skipped req db u :
  user req = Some u →
  Js.includes (route_path req) "/bugs" = false →
  canModifyResource req db = Next.
Proof.
  intros Hu Hpath. unfold canModifyResource. rewrite Hu, Hpath.
  by case_bool_decide.
Qed.

End AccessControl.

(** The update route hands every authenticated request to the handler. *)
Lemma put_bug_by_id_unguarded now (req : Request Update) db u :
  user req = Some u →
  put_bug_by_id now req db =
    updateBug now (mkRequest (user req) (params_id req) (body req) "/:id") db.
Proof.
  intros Hu. unfold put_bug_by_id, dispatch. cbn [runGuards].
  by rewrite (canModifyResource_skipped _ _ u).
Qed.

(** Deleting is refused to everyone but the reporter and the admins, by the
    handler's own check; nothing is removed. *)
Lemma delete_bug_by_id_forbidden (req : Request unit) db u bug :
  user req = Some u →
  role u ≠ "admin" →
  bugs db !! params_id req = Some bug →
  reporter bug ≠ user_id u →
  delete_bug_by_id req db =
    (Rejected 403 "You can only delete bugs you reported", db).
Proof.
  intros Hu Hrole Hbug Hrep. unfold delete_bug_by_id, dispatch.
  cbn [runGuards]. rewrite (canModifyResource_skipped _ _ u) by done.
  unfold deleteBug. cbn [params_id user]. rewrite Hbug, Hu.
  by rewrite !bool_decide_eq_false_2.
Qed.

(** The reporter and the admins may delete. *)
Lemma delete_bug_by_id_allowed (req : Request unit) db u bug :
  user req = Some u →
  bugs db !! params_id req = Some bug →
  reporter bug = user_id u ∨ role u = "admin" →
  delete_bug_by_id req db = (Sent 200 (), remove_bug (params_id req) db).
Proof.
  intros Hu Hbug Hmay. unfold delete_bug_by_id, dispatch.
  cbn [runGuards]. rewrite (canModifyResource_skipped _ _ u) by done.
  unfold deleteBug. cbn [params_id user]. rewrite Hbug, Hu.
  destruct Hmay as [-> | ->].
  - by rewrite bool_decide_eq_true_2.
  - rewrite (bool_decide_eq_true_2 ("admin" = "admin")) by done.
    by rewrite andb_false_r.
Qed.

(** C3: a user who is not admin may update a bug only as its reporter or
    its assignee. Here dave, a reporter-role user who neither reported the
    sample bug nor is assigned to it, sends [PUT /:id] with a new title:
    the route answers 200 and the stored title is the new one. The ownership test
    of [canModifyResource] sits behind
    [req.route.path.includes('/bugs')], and the path of this route is
    ["/:id"]. *)
Theorem put_bug_by_id_lets_a_stranger_update :
  let req :=
    mkRequest (Some dave) bugId (topLevel (titlePatch "Hijacked")) EmptyString in
  let db := sampleDb "open" in
  role dave ≠ "admin" ∧
  reporter (sampleBug "open") ≠ user_id dave ∧
  assignee (sampleBug "open") ≠ Some (user_id dave) ∧
  ∃ bug',
    put_bug_by_id 2000 req db = (Sent 200 bug', put_bug bugId bug' db) ∧
    title bug' = "Hijacked" ∧
    bugs (snd (put_bug_by_id 2000 req db)) !! bugId ≠ bugs db !! bugId.
Proof.
  cbv zeta. repeat split; try discriminate.
  eexists. split; [reflexivity |]. split; [reflexivity |].
  vm_compute. discriminate.
Qed.

(** Setting a status of the enumeration keeps a document valid. *)
Lemma validate_set_status s this :
  validate this = true →
  enum validStatuses s = true →
  validate (set_status s this) = true.
Proof.
  unfold validate. cbn [set_status title description status priority
    severity category environment stepsToReproduce expectedResult
    actualResult comments].
  intros Hval ->.
  destruct (enum validStatuses (status this)); [exact Hval |].
  by rewrite andb_false_r in Hval.
Qed.

(** The transition check never answers with a success. *)
Lemma checkTransition_not_sent id updates db code bug :
  checkTransition id updates db ≠ Some (Sent code bug).
Proof.
  unfold checkTransition. repeat case_match; congruence.
Qed.

(** ** Resolution and closing timestamps *)

Section Timestamps.

(** The save hook stamps a bug that [updateStatus] moves to resolved,
    once. *)
Lemma updateStatus_stamps now this db :
  validate this = true →
  status this ≠ "resolved" →
  resolvedAt this = None →
  ∃ saved, updateStatus now "resolved" this db
           = (Js.Normal saved, put_bug (bug_id this) saved db) ∧
           status saved = "resolved" ∧ resolvedAt saved = Some now.
Proof.
  intros Hval Hst Hres. unfold updateStatus.
  rewrite save_modified by (apply set_status_modified; congruence).
  rewrite validate_set_status by done.
  cbn [status set_status].
  rewrite (bool_decide_eq_false_2 ("resolved" = status this)) by done.
  cbn [negb]. eexists. split.
  - f_equal. f_equal. cbn. by autorewrite with frame.
  - cbn. autorewrite with frame. cbn. by rewrite Hres.
Qed.

(** What [updateBug] stores for [resolvedAt] and [closedAt] is what
    the patch carries for them, or else what was stored: the requested
    status plays no part. *)
Lemma updateBug_timestamps now (req : Request Update) db code bug bug' db' :
  bugs db !! params_id req = Some bug →
  updateBug now req db = (Sent code bug', db') →
  let updates := castUpdate (body req) in
  resolvedAt bug' = from_option Some (resolvedAt bug) (p_resolvedAt updates) ∧
  closedAt bug' = from_option Some (closedAt bug) (p_closedAt updates).
Proof.
  intros Hbug. unfold updateBug.
  destruct (checkTransition _ _ _) as [answer |] eqn:Hcheck.
  { intros [= -> _]. by apply checkTransition_not_sent in Hcheck. }
  unfold findByIdAndUpdate. rewrite Hbug.
  destruct (negb true || validate_update _); [| discriminate].
  destruct (user req); [| discriminate].
  intros [= _ <- _]. cbv zeta.
  by destruct (body req) as [keys [under |]].
Qed.

End Timestamps.

(** C5: [resolvedAt] is to be set the first time a bug reaches resolved,
    whatever operation takes it there. [updateBug] takes the sample bug
    from testing to resolved, a legal edge, and the stored bug has status
    resolved and no [resolvedAt]: [findByIdAndUpdate] runs no save hook.
    The model method [updateStatus], which saves, sets it on the same
    bug. *)
Theorem updateBug_resolves_without_resolvedAt :
  let req :=
    mkRequest (Some alice) bugId (topLevel (statusPatch "resolved")) "/:id" in
  let db := sampleDb "testing" in
  validateStatusTransition "testing" "resolved" = Js.Normal true ∧
  (∃ bug' db',
     updateBug 2000 req db = (Sent 200 bug', db') ∧
     bugs db' !! bugId = Some bug' ∧
     status bug' = "resolved" ∧ resolvedAt bug' = None) ∧
  (∃ saved db',
     updateStatus 2000 "resolved" (sampleBug "testing") db
       = (Js.Normal saved, db') ∧
     bugs db' !! bugId = Some saved ∧
     status saved = "resolved" ∧ resolvedAt saved = Some 2000).
Proof.
  cbv zeta. split; [reflexivity |]. split.
  - eexists _, _. split; [reflexivity |]. by vm_compute.
  - eexists _, _. split; [reflexivity |]. by vm_compute.
Qed.

(** ** createBug *)

Section Create.

Variables (now : Z) (id : ObjectId) (db : Db).

(** A document that passes validation is stored and sent back. *)
Lemma createBug_succeeds (req : Request CreateBody) u :
  user req = Some u →
  let b := body req in
  let doc :=
    construct now id (user_id u)
      (mkBugInput (cb_title b) (cb_description b) None (cb_priority b)
         (cb_severity b) (cb_category b) (cb_environment b)
         (cb_stepsToReproduce b) (cb_expectedResult b) (cb_actualResult b)
         (cb_tags b) (cb_dueDate b) (Some (user_id u))) in
  validate doc = true →
  createBug now id req db =
    (Sent 201 (pre_save false now doc),
     put_bug id (pre_save false now doc) db).
Proof.
  intros Hu b doc Hval. unfold createBug, Bug_create. rewrite Hu.
  cbn [i_reporter i_status Js.present]. fold b. fold doc.
  by rewrite Hval.
Qed.

(** C4: a bug that [createBug] stores has the acting user as reporter
    and status open, whatever the body carries under [reporter] and
    [status]: these two change nothing in the outcome. The bug is stored,
    and sent back with 201, exactly when the document made of the other
    fields of the body passes the schema; otherwise the call ends in a
    validation error and nothing is stored. *)
Theorem createBug_forces_reporter_and_status (req : Request CreateBody) u :
  user req = Some u →
  let b := body req in
  let doc :=
    construct now id (user_id u)
      (mkBugInput (cb_title b) (cb_description b) None (cb_priority b)
         (cb_severity b) (cb_category b) (cb_environment b)
         (cb_stepsToReproduce b) (cb_expectedResult b) (cb_actualResult b)
         (cb_tags b) (cb_dueDate b) (Some (user_id u))) in
  (∀ r s,
     createBug now id
       (mkRequest (user req) (params_id req)
          (with_reporter_status r s (body req)) (route_path req)) db
     = createBug now id req db) ∧
  if validate doc then
    ∃ bug,
      createBug now id req db = (Sent 201 bug, put_bug id bug db) ∧
      bugs (put_bug id bug db) !! id = Some bug ∧
      reporter bug = user_id u ∧ status bug = "open"
  else createBug now id req db = (Crashed Js.ValidationError, db).
Proof.
  intros Hu b doc. split; [reflexivity |].
  destruct (validate doc) eqn:Hval.
  - exists (pre_save false now doc).
    split; [by apply createBug_succeeds |].
    split; [unfold put_bug; cbn [bugs]; by rewrite lookup_insert_eq |].
    by autorewrite with frame.
  - unfold createBug, Bug_create. rewrite Hu. cbn [i_reporter].
    fold b. fold doc. by rewrite Hval.
Qed.

End Create.

Lemma createBug_forces_reporter_and_status_witness :
  let req := mkRequest (Some alice) EmptyString sampleCreate "/" in
  let id := "64b000000000000000000002" in
  cb_reporter sampleCreate = Some (user_id dave) ∧
  cb_status sampleCreate = Some "closed" ∧
  (∀ r s,
     createBug 2000 id
       (mkRequest (Some alice) EmptyString
          (with_reporter_status r s sampleCreate) "/")
       (sampleDb "open")
     = createBug 2000 id req (sampleDb "open")) ∧
  ∃ bug,
    createBug 2000 id req (sampleDb "open")
      = (Sent 201 bug, put_bug id bug (sampleDb "open")) ∧
    bugs (put_bug id bug (sampleDb "open")) !! id = Some bug ∧
    reporter bug = user_id alice ∧ status bug = "open".
Proof.
  split; [reflexivity |]. split; [reflexivity |].
  exact (createBug_forces_reporter_and_status 2000
           "64b000000000000000000002" (sampleDb "open")
           (mkRequest (Some alice) EmptyString sampleCreate "/") alice eq_refl).
Defined.

(** The sample body, which names dave as reporter and asks for status
    closed, is stored under alice, open, with its title trimmed and its
    steps in order. *)
Example createBug_sample :
  ∃ bug,
    (post_bugs 2000 "64b000000000000000000002"
       (mkRequest (Some alice) EmptyString sampleCreate EmptyString)
       (sampleDb "open")).1
    = Sent 201 bug ∧
    reporter bug = user_id alice ∧ status bug = "open" ∧
    title bug = "Crash on save" ∧
    stepsToReproduce bug = [mkStep "open a file" 1; mkStep "press save" 2] ∧
    tags bug = ["ui"].
Proof.
  eexists. split; [vm_compute; reflexivity |]. by vm_compute.
Qed.

(** ** updateBug and the protected fields *)

Section UpdateFrame.

Variables (now : Z) (req : Request Update) (db : Db).

Let id := params_id req.
Let updates := body req.

(** An update without a top level status that passes the update
    validators is applied. *)
Lemma updateBug_succeeds u bug :
  user req = Some u →
  bugs db !! id = Some bug →
  p_status (top updates) = None →
  validate_update (castUpdate (strip updates)) = true →
  updateBug now req db =
    (Sent 200 (apply_update now (castUpdate (strip updates)) bug),
     put_bug id (apply_update now (castUpdate (strip updates)) bug) db).
Proof.
  intros Hu Hbug Hst Hval. unfold updateBug, checkTransition.
  cbn [strip top p_status]. fold updates. rewrite Hst.
  unfold findByIdAndUpdate. fold id. fold updates.
  by rewrite Hval, Hbug, Hu.
Qed.

(** [reporter], [createdAt] and [comments] among the top level keys are
    dropped without an error: the handler does what it does on the body
    without them. For a body that has no [$set], the stored bug then has
    the reporter, the creation time and the comments it had, and when
    the update goes through, the other keys are the stored ones. *)
Lemma updateBug_strips_top_level_keys bug :
  bugs db !! id = Some bug →
  updateBug now req db =
    updateBug now
      (mkRequest (user req) id (strip updates) (route_path req)) db ∧
  (dollar_set updates = None →
   (∃ bug',
      bugs (updateBug now req db).2 !! id = Some bug' ∧
      reporter bug' = reporter bug ∧
      createdAt bug' = createdAt bug ∧
      comments bug' = comments bug) ∧
   (∀ code sent,
      (updateBug now req db).1 = Sent code sent →
      bugs (updateBug now req db).2 !! id = Some sent ∧
      title sent = from_option Js.trim (title bug) (p_title (top updates)) ∧
      description sent
        = default (description bug) (p_description (top updates)) ∧
      status sent = default (status bug) (p_status (top updates)) ∧
      priority sent = default (priority bug) (p_priority (top updates)) ∧
      severity sent = default (severity bug) (p_severity (top updates)) ∧
      category sent = default (category bug) (p_category (top updates)) ∧
      environment sent
        = default (environment bug) (p_environment (top updates)))).
Proof.
  intros Hbug. split; [reflexivity |]. intros Hset.
  unfold updateBug. fold id. fold updates.
  destruct (checkTransition id (strip updates) db) as [answer |] eqn:Hcheck.
  { split; [by exists bug |]. cbn. intros code sent ->.
    by apply checkTransition_not_sent in Hcheck. }
  unfold findByIdAndUpdate. rewrite Hbug.
  assert (castUpdate (strip updates) = top (strip updates)) as ->
    by (unfold castUpdate, strip; cbn [dollar_set]; by rewrite Hset).
  destruct (negb true || validate_update (top (strip updates)));
    [| cbn [fst snd]; split; [by exists bug | done]].
  set (stored := apply_update now (top (strip updates)) bug).
  assert (bugs (put_bug id stored db) !! id = Some stored) as Hput
    by (unfold put_bug; cbn [bugs]; apply lookup_insert_eq).
  assert (reporter stored = reporter bug ∧ createdAt stored = createdAt bug ∧
          comments stored = comments bug) as Hframe by done.
  destruct (user req); cbn [fst snd]; (split; [by exists stored |]);
    [| done].
  intros code sent [= _ <-]. by split.
Qed.

End UpdateFrame.

(** C6: [reporter], [createdAt] and [comments] are to come out of an
    update as they went in. The handler deletes these three keys from
    the top level of the body: alice's update that carries them there,
    besides a new title and priority, answers 200 and only the title
    and the priority change. It deletes nothing else: the same three
    paths under [$set] reach [findByIdAndUpdate], and alice's update
    answers 200 with dave as the reporter of the stored bug and its
    comments gone; the creation time alone stays, being immutable. *)
Theorem updateBug_protects_top_level_keys_only :
  let db := seededDb in
  let stripped := mkRequest (Some alice) bugId (topLevel greedyPatch) "/:id" in
  let through := mkRequest (Some alice) bugId operatorPatch "/:id" in
  (∃ bug',
     updateBug 2000 stripped db = (Sent 200 bug', put_bug bugId bug' db) ∧
     title bug' = "Login is broken" ∧ priority bug' = "critical" ∧
     reporter bug' = reporter seededBug ∧
     createdAt bug' = createdAt seededBug ∧
     comments bug' = comments seededBug) ∧
  (∃ bug',
     updateBug 2000 through db = (Sent 200 bug', put_bug bugId bug' db) ∧
     bugs (put_bug bugId bug' db) !! bugId = Some bug' ∧
     reporter seededBug = user_id alice ∧ reporter bug' = user_id dave ∧
     comments seededBug = [mkComment (user_id bob) "seen" 1500] ∧
     comments bug' = [] ∧
     createdAt bug' = createdAt seededBug).
Proof.
  cbv zeta. split.
  - eexists. split; [vm_compute; reflexivity |]. by vm_compute.
  - eexists. split; [vm_compute; reflexivity |]. by vm_compute.
Qed.

(** ** assignBug *)

Section Assign.

Variables (now : Z) (req : Request ObjectId) (db : Db).

Let id := params_id req.
Let assigneeId := body req.

(** C7: [assignBug] answers 404 "Assignee not found" when no user has the
    given id, and 400 "User must be a developer or admin to be assigned
    bugs" when the user's role is reporter (or anything but developer and
    admin); in both cases nothing is written, so the assignee stays. It
    answers with a success only when the user exists with role developer
    or admin, and for such a user and an existing bug it does succeed and
    stores the new assignee. *)
Theorem assignBug_checks_assignee :
  (users db !! assigneeId = None →
   assignBug now req db = (Rejected 404 "Assignee not found", db)) ∧
  (∀ target,
     users db !! assigneeId = Some target →
     role target = "reporter" ∨
     (role target ≠ "developer" ∧ role target ≠ "admin") →
     assignBug now req db =
       (Rejected 400 "User must be a developer or admin to be assigned bugs",
        db)) ∧
  (∀ code bug' db',
     assignBug now req db = (Sent code bug', db') →
     ∃ target,
       users db !! assigneeId = Some target ∧
       (role target = "developer" ∨ role target = "admin")) ∧
  (∀ target u bug,
     users db !! assigneeId = Some target →
     role target = "developer" ∨ role target = "admin" →
     bugs db !! id = Some bug →
     user req = Some u →
     assignBug now req db =
       (Sent 200 (apply_update now (assignment assigneeId) bug),
        put_bug id (apply_update now (assignment assigneeId) bug) db) ∧
     assignee (apply_update now (assignment assigneeId) bug)
     = Some assigneeId).
Proof.
  unfold assignBug. fold id. fold assigneeId.
  fold (assignment assigneeId).
  split; [by intros -> |]. split; [| split].
  - intros target -> Hrole. unfold Js.arrayIncludes.
    rewrite bool_decide_eq_false_2; [done |].
    rewrite !elem_of_cons, elem_of_nil.
    destruct Hrole as [-> | [? ?]]; intuition congruence.
  - intros code bug' db'.
    destruct (users db !! assigneeId) as [target |]; [| discriminate].
    unfold Js.arrayIncludes. case_bool_decide as Hrole; [| discriminate].
    intros _. exists target. split; [done |].
    revert Hrole. rewrite !elem_of_cons, elem_of_nil. tauto.
  - intros target u bug -> Hrole Hbug Hu. unfold Js.arrayIncludes.
    rewrite bool_decide_eq_true_2
      by (rewrite !elem_of_cons; tauto).
    cbn [negb]. unfold findByIdAndUpdate. cbn [negb orb].
    by rewrite Hbug, Hu.
Qed.

End Assign.

Lemma assignBug_checks_assignee_witness :
  assignBug 2000 (mkRequest (Some bob) bugId "64a0000000000000000000ff" EmptyString)
    (sampleDb "open")
  = (Rejected 404 "Assignee not found", sampleDb "open") ∧
  assignBug 2000 (mkRequest (Some bob) bugId (user_id alice) EmptyString)
    (sampleDb "open")
  = (Rejected 400 "User must be a developer or admin to be assigned bugs",
     sampleDb "open") ∧
  assignee (sampleBug "open") = None.
Proof.
  split; [| split].
  - apply (assignBug_checks_assignee 2000
             (mkRequest (Some bob) bugId "64a0000000000000000000ff" EmptyString)
             (sampleDb "open")).
    vm_compute. reflexivity.
  - apply (proj1 (proj2 (assignBug_checks_assignee 2000
             (mkRequest (Some bob) bugId (user_id alice) EmptyString)
             (sampleDb "open"))) alice).
    + vm_compute. reflexivity.
    + left. reflexivity.
  - reflexivity.
Defined.

(** Bob, a developer, assigns the sample bug to carol, an admin. *)
Example assignBug_sample :
  ∃ bug',
    (put_assign 2000 (mkRequest (Some bob) bugId (user_id carol) EmptyString)
       (sampleDb "open")).1 = Sent 200 bug' ∧
    assignee bug' = Some (user_id carol).
Proof.
  eexists. split; [vm_compute; reflexivity |]. by vm_compute.
Qed.

(** ** addComment *)

Lemma trim_empty : Js.trim EmptyString = EmptyString.
Proof. reflexivity. Qed.

Lemma length_zero_empty (s : string) : String.length s = 0%nat ↔ s = EmptyString.
Proof. destruct s; cbn; split; congruence. Qed.

(** A document stays valid when a valid comment is pushed. *)
Lemma validate_push_comment c this :
  validate this = true →
  validate_comment c = true →
  validate (set_comments (comments this ++ [c])%list this) = true.
Proof.
  unfold validate.
  cbn [set_comments title description status priority severity category
       environment stepsToReproduce expectedResult actualResult comments].
  intros Hval Hc. rewrite forallb_app. cbn [forallb]. rewrite Hc.
  rewrite andb_true_r. destruct (forallb validate_comment (comments this)).
  - by rewrite andb_true_r in *.
  - by rewrite andb_false_r in Hval.
Qed.

Section Comment.

Variables (now : Z) (req : Request (option Json)) (db : Db).

Let id := params_id req.


End Comment.

(** Every success of [addComment] is of this kind: the comment sent back
    carries the trimmed content and sits at the end of the stored list. *)
Lemma addComment_sent now (req : Request (option Json)) db code data db' :
  addComment now req db = (Sent code data, db') →
  ∃ raw u bug saved,
    let added := mkComment (user_id u) (Js.trim raw) now in
    body req = Some (JString raw) ∧ Js.trim raw ≠ EmptyString ∧
    user req = Some u ∧
    bugs db !! params_id req = Some bug ∧
    code = 201 ∧ comment data = Some added ∧
    db' = put_bug (bug_id bug) saved db ∧
    comments saved = (comments bug ++ [added])%list.
Proof.
  unfold addComment.
  destruct (body req) as [[| b | n | raw | items | members] |];
    try discriminate; try (by destruct (negb _)).
  destruct (negb (Js.truthy raw)) eqn:Hraw; [discriminate |].
  cbn [orb]. case_bool_decide as Hlen; [discriminate |].
  destruct (bugs db !! params_id req) as [bug |]; [| discriminate].
  destruct (user req) as [u |]; [| discriminate].
  rewrite save_modified by apply set_comments_modified.
  destruct (validate _); [| discriminate].
  intros [= <- <- <-]. eexists raw, u, bug, _. cbv zeta.
  repeat split; try reflexivity.
  - by rewrite <- length_zero_empty.
  - cbn. autorewrite with frame. cbn. by rewrite last_snoc.
  - cbn. by autorewrite with frame.
  - cbn. by autorewrite with frame.
Qed.


(** Carol comments on the seeded bug; her comment comes after bob's. *)
Example addComment_sample :
  let '(answer, db') :=
    post_comments 2000
      (mkRequest (Some carol) bugId (Some (JString " fixed in 1.2 "))
         EmptyString) seededDb in
  answer =
    Sent 201
      (mkCommentAdded (Some (mkComment (user_id carol) "fixed in 1.2" 2000))
         bugId "Login fails" 2) ∧
  comments <$> bugs db' !! bugId =
    Some [ mkComment (user_id bob) "seen" 1500;
           mkComment (user_id carol) "fixed in 1.2" 2000 ].
Proof. by vm_compute. Qed.

(** ** toggleWatcher *)

Section Toggled.

Implicit Types (u x : ObjectId) (ws : list ObjectId).

Lemma filter_absent u ws : u ∉ ws → filter (λ w, w ≠ u) ws = ws.
Proof.
  induction ws as [| w ws IH]; [done |].
  rewrite not_elem_of_cons. intros [Hne Hnin].
  rewrite filter_cons_True by done. by rewrite IH.
Qed.

Lemma elem_of_toggled u ws x :
  x ∈ toggled u ws ↔ (x ≠ u ∧ x ∈ ws) ∨ (x = u ∧ u ∉ ws).
Proof.
  unfold toggled. case_bool_decide as Hin.
  - rewrite list_elem_of_filter. intuition congruence.
  - rewrite elem_of_app, list_elem_of_singleton.
    destruct (decide (x = u)) as [-> | Hne]; intuition congruence.
Qed.

(** A toggle flips membership of the actor and of nobody else. *)
Lemma toggled_flips u ws : u ∈ toggled u ws ↔ u ∉ ws.
Proof. rewrite elem_of_toggled. intuition congruence. Qed.

Lemma toggled_twice_elem u ws x : x ∈ toggled u (toggled u ws) ↔ x ∈ ws.
Proof.
  rewrite elem_of_toggled, toggled_flips, elem_of_toggled.
  destruct (decide (x = u)) as [-> | Hne]; [| intuition congruence].
  destruct (decide (u ∈ ws)); intuition congruence.
Qed.

(** Watching and then unwatching gives back the very same list. *)
Lemma toggled_twice_absent u ws : u ∉ ws → toggled u (toggled u ws) = ws.
Proof.
  intros Hnin. unfold toggled at 2. rewrite bool_decide_eq_false_2 by done.
  unfold toggled. rewrite bool_decide_eq_true_2
    by (rewrite elem_of_app, list_elem_of_singleton; by right).
  rewrite filter_app, filter_absent by done.
  rewrite filter_cons_False by (intros H; by apply H).
  by rewrite filter_nil, app_nil_r.
Qed.

Lemma toggled_modified u ws : toggled u ws ≠ ws.
Proof.
  intros Heq. pose proof (toggled_flips u ws) as H. rewrite Heq in H. tauto.
Qed.

Lemma set_watchers_toggled_modified u (bug : Bug) :
  set_watchers (toggled u (watchers bug)) bug ≠ bug.
Proof.
  intros Heq. apply (f_equal watchers) in Heq.
  by apply toggled_modified in Heq.
Qed.

Lemma toggled_NoDup u ws : NoDup ws → NoDup (toggled u ws).
Proof.
  intros Hnd. unfold toggled. case_bool_decide as Hin.
  - by apply NoDup_filter.
  - rewrite NoDup_app. split; [done |]. split; [| apply NoDup_singleton].
    intros x Hx. rewrite list_elem_of_singleton. by intros ->.
Qed.

(** Without duplicates, two toggles give back the same watchers, up to
    their order. *)
Lemma toggled_twice_perm u ws : NoDup ws → toggled u (toggled u ws) ≡ₚ ws.
Proof.
  intros Hnd. apply NoDup_Permutation; [| done |].
  - by do 2 apply toggled_NoDup.
  - intros x. apply toggled_twice_elem.
Qed.

End Toggled.

Section Watch.

Variables (req : Request unit) (u : User) (id : ObjectId).
Hypothesis Huser : user req = Some u.
Hypothesis Hid : params_id req = id.

Lemma watchSaved_watchers now bug :
  watchers (watchSaved u now bug) = toggled (user_id u) (watchers bug).
Proof. unfold watchSaved. cbn. by autorewrite with frame. Qed.

Lemma watchSaved_bug_id now bug : bug_id (watchSaved u now bug) = bug_id bug.
Proof. unfold watchSaved. cbn. by autorewrite with frame. Qed.

Lemma watchSaved_validate now bug :
  validate (watchSaved u now bug) = validate bug.
Proof. unfold watchSaved. by rewrite validate_saved. Qed.

(** One toggle on a stored, valid bug. *)
Lemma toggleWatcher_step now db bug :
  bugs db !! id = Some bug →
  bug_id bug = id →
  validate bug = true →
  toggleWatcher now req db =
    (Sent 200
       (mkWatching (negb (bool_decide (user_id u ∈ watchers bug)))
          (Z.of_nat (List.length (watchers (watchSaved u now bug))))),
     put_bug id (watchSaved u now bug) db).
Proof.
  intros Hbug Hkey Hval. unfold toggleWatcher. rewrite Huser, Hid, Hbug.
  assert (∀ ws, validate (set_watchers ws bug) = validate bug) as Hframe
    by reflexivity.
  replace (if bool_decide (user_id u ∈ watchers bug)
           then set_watchers (filter (λ w, w ≠ user_id u) (watchers bug)) bug
           else set_watchers (watchers bug ++ [user_id u]) bug)
    with (set_watchers (toggled (user_id u) (watchers bug)) bug)
    by (unfold toggled; by case_bool_decide).
  rewrite save_modified by apply set_watchers_toggled_modified.
  rewrite Hframe, Hval. cbn [status set_watchers].
  rewrite (bool_decide_eq_true_2 (status bug = status bug)) by done.
  cbn [negb].
  fold (watchSaved u now bug).
  by rewrite watchSaved_bug_id, Hkey.
Qed.

(** C8: two toggles in a row by the same user on a bug of a well formed
    store both succeed; each reports whether the user is among the watchers it has
    just stored and how many these are; after the second the watchers are
    the ones before the first, as a set; when the first reported "now
    watching", the second reports "not watching" and the list is restored
    as it was; and a list without duplicates stays without duplicates
    through both, ending as a rearrangement of the original. *)
Theorem toggleWatcher_twice now1 now2 db bug :
  wf_db db →
  bugs db !! id = Some bug →
  ∃ first second bug1 bug2,
    toggleWatcher now1 req db = (Sent 200 first, put_bug id bug1 db) ∧
    toggleWatcher now2 req (put_bug id bug1 db)
      = (Sent 200 second, put_bug id bug2 (put_bug id bug1 db)) ∧
    isWatching first = bool_decide (user_id u ∈ watchers bug1) ∧
    watchersCount first = Z.of_nat (List.length (watchers bug1)) ∧
    isWatching second = bool_decide (user_id u ∈ watchers bug2) ∧
    watchersCount second = Z.of_nat (List.length (watchers bug2)) ∧
    (∀ x, x ∈ watchers bug2 ↔ x ∈ watchers bug) ∧
    (isWatching first = true →
     isWatching second = false ∧ watchers bug2 = watchers bug) ∧
    (NoDup (watchers bug) →
     NoDup (watchers bug1) ∧ NoDup (watchers bug2) ∧
     watchers bug2 ≡ₚ watchers bug).
Proof.
  intros Hwf Hbug. destruct (Hwf _ _ Hbug) as [Hkey Hval].
  set (bug1 := watchSaved u now1 bug). set (bug2 := watchSaved u now2 bug1).
  assert (watchers bug1 = toggled (user_id u) (watchers bug)) as Hw1
    by apply watchSaved_watchers.
  assert (watchers bug2 = toggled (user_id u) (toggled (user_id u) (watchers bug)))
    as Hw2 by (unfold bug2; by rewrite watchSaved_watchers, Hw1).
  eexists _, _, bug1, bug2.
  split; [by apply toggleWatcher_step |].
  split.
  { apply toggleWatcher_step.
    - apply lookup_insert_eq.
    - unfold bug1. by rewrite watchSaved_bug_id.
    - unfold bug1. by rewrite watchSaved_validate. }
  cbn [isWatching watchersCount]. fold bug1. fold bug2.
  assert (∀ ws, negb (bool_decide (user_id u ∈ ws))
                = bool_decide (user_id u ∈ toggled (user_id u) ws)) as Hflip.
  { intros ws. destruct (decide (user_id u ∈ ws)) as [Hin | Hnin].
    - rewrite (bool_decide_eq_true_2 _ Hin). symmetry.
      apply bool_decide_eq_false_2. rewrite toggled_flips. tauto.
    - rewrite (bool_decide_eq_false_2 _ Hnin). symmetry.
      apply bool_decide_eq_true_2. by rewrite toggled_flips. }
  repeat split.
  - by rewrite Hw1, Hflip.
  - by rewrite Hw2, Hw1, Hflip.
  - rewrite Hw2. apply toggled_twice_elem.
  - rewrite Hw2. apply toggled_twice_elem.
  - rewrite Hw1. apply negb_true_iff in H.
    apply bool_decide_eq_false in H.
    apply negb_false_iff, bool_decide_eq_true_2. by rewrite toggled_flips.
  - rewrite Hw2. apply toggled_twice_absent.
    apply negb_true_iff in H. by apply bool_decide_eq_false in H.
  - rewrite Hw1. by apply toggled_NoDup.
  - rewrite Hw2. by do 2 apply toggled_NoDup.
  - rewrite Hw2. by apply toggled_twice_perm.
Qed.

End Watch.

Lemma toggleWatcher_twice_witness :
  let req := mkRequest (Some bob) bugId () "/:id/watch" in
  ∃ first second bug1 bug2,
    toggleWatcher 2000 req watchedDb
      = (Sent 200 first, put_bug bugId bug1 watchedDb) ∧
    toggleWatcher 3000 req (put_bug bugId bug1 watchedDb)
      = (Sent 200 second, put_bug bugId bug2 (put_bug bugId bug1 watchedDb)) ∧
    (∀ x, x ∈ watchers bug2 ↔ x ∈ [user_id bob; user_id alice]) ∧
    NoDup (watchers bug2).
Proof.
  intros req.
  destruct (toggleWatcher_twice req bob bugId eq_refl eq_refl 2000 3000
              watchedDb watchedBug)
    as (first & second & bug1 & bug2 & H1 & H2 & _ & _ & _ & _ & Hset & _ & Hnd).
  - repeat apply wf_put; first [apply wf_empty | vm_compute; reflexivity].
  - vm_compute. reflexivity.
  - exists first, second, bug1, bug2.
    split; [exact H1 |]. split; [exact H2 |]. split; [exact Hset |].
    apply Hnd. apply (bool_decide_unpack _). vm_compute. exact I.
Defined.

(** Bob stops watching and watches again: he is told so, with the counts,
    and ends up behind alice. *)
Example toggleWatcher_sample :
  let req := mkRequest (Some bob) bugId () EmptyString in
  let '(first, db1) := put_watch 2000 req watchedDb in
  let '(second, db2) := put_watch 3000 req db1 in
  first = Sent 200 (mkWatching false 1) ∧
  second = Sent 200 (mkWatching true 2) ∧
  watchers <$> bugs db2 !! bugId = Some [user_id alice; user_id bob].
Proof. by vm_compute. Qed.

(** ** getStatistics *)

Section Statistics.

Implicit Types (docs : list Bug) (acc : Statistics).

Lemma countWhere_cons (P : Bug → Prop) `{∀ b, Decision (P b)} b docs :
  countWhere P (b :: docs) = cond (bool_decide (P b)) + countWhere P docs.
Proof.
  unfold countWhere, cond. rewrite filter_cons.
  case_bool_decide; [rewrite decide_True by done | rewrite decide_False by done];
    cbn [List.length]; lia.
Qed.

(** The ten sums of the group stage, started from any accumulator. *)
Lemma foldl_accumulate docs : ∀ acc,
  let s := foldl accumulate acc docs in
  total s = total acc + Z.of_nat (List.length docs) ∧
  open s = open acc + countWhere (λ b, status b = "open") docs ∧
  inProgress s = inProgress acc + countWhere (λ b, status b = "in-progress") docs ∧
  testing s = testing acc + countWhere (λ b, status b = "testing") docs ∧
  resolved s = resolved acc + countWhere (λ b, status b = "resolved") docs ∧
  closed s = closed acc + countWhere (λ b, status b = "closed") docs ∧
  critical s = critical acc + countWhere (λ b, priority b = "critical") docs ∧
  high s = high acc + countWhere (λ b, priority b = "high") docs ∧
  medium s = medium acc + countWhere (λ b, priority b = "medium") docs ∧
  low s = low acc + countWhere (λ b, priority b = "low") docs.
Proof.
  induction docs as [| b docs IH]; intros acc.
  - cbn. unfold countWhere. cbn. repeat split; lia.
  - cbn [foldl]. specialize (IH (accumulate acc b)). cbv zeta in IH.
    destruct IH as (H0 & H1 & H2 & H3 & H4 & H5 & H6 & H7 & H8 & H9).
    cbv zeta. rewrite H0, H1, H2, H3, H4, H5, H6, H7, H8, H9.
    rewrite !countWhere_cons.
    cbn [accumulate total open inProgress testing resolved closed critical
         high medium low List.length].
    repeat split; lia.
Qed.

(** The statistics of a list of documents are its counts. *)
Lemma statisticsOf_counts docs :
  let s := statisticsOf docs in
  total s = Z.of_nat (List.length docs) ∧
  open s = countWhere (λ b, status b = "open") docs ∧
  inProgress s = countWhere (λ b, status b = "in-progress") docs ∧
  testing s = countWhere (λ b, status b = "testing") docs ∧
  resolved s = countWhere (λ b, status b = "resolved") docs ∧
  closed s = countWhere (λ b, status b = "closed") docs ∧
  critical s = countWhere (λ b, priority b = "critical") docs ∧
  high s = countWhere (λ b, priority b = "high") docs ∧
  medium s = countWhere (λ b, priority b = "medium") docs ∧
  low s = countWhere (λ b, priority b = "low") docs.
Proof.
  destruct docs as [| b docs].
  - cbn. unfold countWhere. cbn. repeat split; reflexivity.
  - unfold statisticsOf, aggregate.
    pose proof (foldl_accumulate (b :: docs) zeroStatistics) as H.
    cbv zeta in H. cbn [zeroStatistics total open inProgress testing resolved
      closed critical high medium low] in H.
    cbv zeta. rewrite !Z.add_0_l in H. exact H.
Qed.

(** Counting by status looks at the statuses only. *)
Lemma countWhere_status s docs :
  countWhere (λ b, status b = s) docs
  = Z.of_nat (List.length (filter (λ t, t = s) (status <$> docs))).
Proof.
  unfold countWhere. f_equal.
  induction docs as [| b docs IH]; [done |].
  rewrite fmap_cons, !filter_cons.
  destruct (decide (status b = s)); cbn [List.length]; by rewrite IH.
Qed.

End Statistics.

(** C9: [getStatistics] returns as total the number of bugs of the
    collection and, under each status and each priority, the number of
    bugs that carry it; a collection whose statuses are open, open,
    in-progress, resolved and closed, in any order, gives total 5, open 2,
    inProgress 1, testing 0, resolved 1 and closed 1; an empty collection
    gives zero everywhere. *)
Theorem getStatistics_counts (db : Db) :
  let s := getStatistics db in
  let docs := collection db in
  (total s = Z.of_nat (size (bugs db)) ∧
   open s = countWhere (λ b, status b = "open") docs ∧
   inProgress s = countWhere (λ b, status b = "in-progress") docs ∧
   testing s = countWhere (λ b, status b = "testing") docs ∧
   resolved s = countWhere (λ b, status b = "resolved") docs ∧
   closed s = countWhere (λ b, status b = "closed") docs ∧
   critical s = countWhere (λ b, priority b = "critical") docs ∧
   high s = countWhere (λ b, priority b = "high") docs ∧
   medium s = countWhere (λ b, priority b = "medium") docs ∧
   low s = countWhere (λ b, priority b = "low") docs) ∧
  (status <$> docs ≡ₚ ["open"; "open"; "in-progress"; "resolved"; "closed"] →
   total s = 5 ∧ open s = 2 ∧ inProgress s = 1 ∧ testing s = 0 ∧
   resolved s = 1 ∧ closed s = 1) ∧
  (bugs db = ∅ → s = zeroStatistics).
Proof.
  cbv zeta. unfold getStatistics. set (docs := collection db).
  pose proof (statisticsOf_counts docs) as Hcounts. cbv zeta in Hcounts.
  assert (List.length docs = size (bugs db)) as Hsize.
  { unfold docs, collection. by rewrite length_fmap, length_map_to_list. }
  split; [| split].
  - by rewrite <- Hsize.
  - intros Hperm.
    destruct Hcounts as (-> & -> & -> & -> & -> & -> & _).
    rewrite !countWhere_status, !Hperm.
    rewrite <- (length_fmap status docs), Hperm.
    by vm_compute.
  - intros Hempty. unfold docs, collection.
    by rewrite Hempty, map_to_list_empty.
Qed.

Lemma getStatistics_counts_witness :
  let s := getStatistics fiveBugs in
  total s = 5 ∧ open s = 2 ∧ inProgress s = 1 ∧ testing s = 0 ∧
  resolved s = 1 ∧ closed s = 1.
Proof.
  apply (proj1 (proj2 (getStatistics_counts fiveBugs))).
  apply (bool_decide_unpack _). vm_compute. exact I.
Defined.

Example getStatistics_empty :
  getStatistics (mkDb ∅ ∅) = zeroStatistics.
Proof. by vm_compute. Qed.

(** * Further properties

    The validators and text helpers of [utils/validation.js], the helpers
    of [utils/auth.js], the middlewares, the remaining model methods and
    the handlers that read. *)

(** ** Strings *)

Section Strings.

Implicit Types (s t : string) (c : ascii) (cls : ascii → bool).

Lemma append_cons c s t : String c s +:+ t = String c (s +:+ t).
Proof. reflexivity. Qed.

Lemma append_nil_l t : EmptyString +:+ t = t.
Proof. reflexivity. Qed.

Lemma length_append s t :
  String.length (s +:+ t) = (String.length s + String.length t)%nat.
Proof.
  induction s as [| a s IH]; [done |].
  rewrite append_cons. simpl. by rewrite IH.
Qed.

Lemma append_empty_r s : s +:+ EmptyString = s.
Proof.
  induction s as [| a s IH]; [done |]. by rewrite append_cons, IH.
Qed.

Lemma append_assoc s t r : (s +:+ t) +:+ r = s +:+ (t +:+ r).
Proof.
  induction s as [| a s IH]; [done |]. by rewrite !append_cons, IH.
Qed.

Lemma some_append cls s t :
  Re.some cls (s +:+ t) = Re.some cls s || Re.some cls t.
Proof.
  induction s as [| a s IH]; [done |].
  rewrite append_cons. simpl. by rewrite IH, orb_assoc.
Qed.

Lemma every_append cls s t :
  Re.every cls (s +:+ t) = Re.every cls s && Re.every cls t.
Proof.
  induction s as [| a s IH]; [done |].
  rewrite append_cons. simpl. by rewrite IH, andb_assoc.
Qed.

Lemma every_impl cls1 cls2 s :
  (∀ c, cls1 c = true → cls2 c = true) →
  Re.every cls1 s = true → Re.every cls2 s = true.
Proof.
  intros Himpl. induction s as [| a s IH]; simpl; [done |].
  rewrite !andb_true_iff. intros [? ?]. split; auto.
Qed.

Lemma some_every_neg cls s :
  Re.some cls s = negb (Re.every (λ c, negb (cls c)) s).
Proof.
  induction s as [| a s IH]; simpl; [done |].
  rewrite IH. by destruct (cls a).
Qed.

(** Reversal, as [String.rev] computes it. *)
Lemma rev_app_length s t :
  String.length (String.rev_app s t)
  = (String.length s + String.length t)%nat.
Proof.
  revert t. induction s as [| a s IH]; intros t; simpl; [done |].
  rewrite IH. cbn. lia.
Qed.

Lemma rev_length s : String.length (String.rev s) = String.length s.
Proof. unfold String.rev. rewrite rev_app_length. cbn. lia. Qed.

Lemma rev_app_every cls s t :
  Re.every cls (String.rev_app s t) = Re.every cls s && Re.every cls t.
Proof.
  revert t. induction s as [| a s IH]; intros t; simpl; [done |].
  rewrite IH. cbn. by destruct (cls a), (Re.every cls s).
Qed.

Lemma rev_every cls s : Re.every cls (String.rev s) = Re.every cls s.
Proof. unfold String.rev. rewrite rev_app_every. cbn. apply andb_true_r. Qed.

Lemma rev_app_rev_app s t r :
  String.rev_app (String.rev_app s t) r = String.rev_app t (s +:+ r).
Proof.
  revert t. induction s as [| a s IH]; intros t; simpl; [done |].
  by rewrite IH, append_cons.
Qed.

Lemma rev_involutive s : String.rev (String.rev s) = s.
Proof.
  unfold String.rev. rewrite rev_app_rev_app. cbn. apply append_empty_r.
Qed.

(** Trimming. *)

Lemma trimStart_length s :
  (String.length (Js.trimStart s) ≤ String.length s)%nat.
Proof.
  induction s as [| a s IH]; simpl; [done |]. case_match; simpl; lia.
Qed.

Lemma trim_length s : (String.length (Js.trim s) ≤ String.length s)%nat.
Proof.
  unfold Js.trim, Js.trimEnd. rewrite rev_length.
  etrans; [apply trimStart_length |]. rewrite rev_length.
  apply trimStart_length.
Qed.

Lemma trimStart_every cls s :
  Re.every cls s = true → Re.every cls (Js.trimStart s) = true.
Proof.
  induction s as [| a s IH]; simpl; [done |].
  rewrite andb_true_iff. intros [Ha Hs].
  case_match; [by apply IH |]. cbn. by rewrite Ha, Hs.
Qed.

Lemma trim_every cls s :
  Re.every cls s = true → Re.every cls (Js.trim s) = true.
Proof.
  intros H. unfold Js.trim, Js.trimEnd. rewrite rev_every.
  apply trimStart_every. rewrite rev_every. by apply trimStart_every.
Qed.

Lemma trimStart_id s : Re.every notSpace s = true → Js.trimStart s = s.
Proof.
  destruct s as [| a s]; simpl; [done |]. unfold notSpace.
  by destruct (Js.isWhiteSpace a).
Qed.

(** A string without whitespace is its own trimming. *)
Lemma trim_id s : Re.every notSpace s = true → Js.trim s = s.
Proof.
  intros H. unfold Js.trim, Js.trimEnd.
  rewrite (trimStart_id s) by done.
  rewrite trimStart_id by (by rewrite rev_every).
  apply rev_involutive.
Qed.

End Strings.

(** ** Passwords, user names and titles *)

Lemma pushIf_length test message errors :
  List.length (pushIf test message errors)
  = (List.length errors + if test then 1 else 0)%nat.
Proof.
  destruct test; cbn; [| lia]. rewrite length_app. cbn. lia.
Qed.

(** X1: the strength of a password lies between 0 and 5; a password is
    valid exactly when it has 8 characters or more, a lower case letter,
    an upper case letter, a digit and one of [@$!%*?&]; every valid
    password has strength 5; and there is one error message for each of
    the five rules that fails. *)
Theorem validatePasswordStrength_rules (password : string) :
  let r := validatePasswordStrength password in
  let failed (rule : bool) : nat := if rule then 0%nat else 1%nat in
  0 ≤ pw_strength r ≤ 5 ∧
  (pw_isValid r = true ↔
     8 ≤ Z.of_nat (String.length password) ∧
     Re.some Re.lower password = true ∧
     Re.some Re.upper password = true ∧
     Re.some Re.digit password = true ∧
     Re.some Re.special password = true) ∧
  (pw_isValid r = true → pw_strength r = 5) ∧
  List.length (pw_errors r)
  = (failed (8 <=? Z.of_nat (String.length password))%Z
     + failed (Re.some Re.lower password)
     + failed (Re.some Re.upper password)
     + failed (Re.some Re.digit password)
     + failed (Re.some Re.special password))%nat.
Proof.
  cbv zeta. unfold validatePasswordStrength, calculatePasswordStrength.
  cbn [pw_strength pw_isValid pw_errors].
  rewrite !pushIf_length. cbn [List.length].
  set (len := Z.of_nat (String.length password)).
  replace (len <? 8) with (negb (8 <=? len)) by lia.
  destruct (Re.some Re.lower password), (Re.some Re.upper password),
    (Re.some Re.digit password), (Re.some Re.special password),
    (Z.leb_spec 8 len); cbn [negb Nat.add];
    rewrite bool_decide_eq_true;
    (split; [repeat case_match; lia |]);
    (split; [split; [intros ?; try discriminate; repeat split; lia
                    | intros (? & ? & ? & ? & ?);
                      first [reflexivity | discriminate | lia]] |]);
    (split; [| reflexivity]); intros ?; try discriminate;
    repeat case_match; lia.
Qed.

Lemma word_notSpace c : Re.word c = true → notSpace c = true.
Proof. destruct c as [[] [] [] [] [] [] [] []]; by vm_compute. Qed.

Lemma length_zero_iff (s : string) :
  String.length s = 0%nat ↔ s = EmptyString.
Proof. destruct s; simpl; split; congruence. Qed.

(** X2: [validateUsername] throws on a missing name; on a string it
    reports, and the name is valid exactly when it has 3 to 30 characters,
    all of them letters, digits, underscores or hyphens (the "required"
    rule then never decides). *)
Theorem validateUsername_rules (username : option string) :
  match username with
  | None => validateUsername None = Js.Throw Js.TypeError
  | Some name =>
    ∃ r, validateUsername (Some name) = Js.Normal r ∧
         (isValid r = true ↔
            3 ≤ Z.of_nat (String.length name) ≤ 30 ∧
            Re.every Re.word name = true)
  end.
Proof.
  destruct username as [name |]; [| reflexivity].
  eexists. split; [reflexivity |]. cbn [isValid].
  rewrite bool_decide_eq_true, !pushIf_length. cbn [List.length].
  set (len := Z.of_nat (String.length name)).
  destruct (Re.every Re.word name) eqn:Hword.
  - assert (3 ≤ len → blank name = false ∧ Js.truthy name = true) as Hreq.
    { intros Hlen. unfold blank, Js.truthy.
      assert (name ≠ EmptyString) as Hne
        by (intros ->; simpl in len; lia).
      rewrite (bool_decide_eq_false_2 (name = EmptyString)) by done.
      rewrite trim_id
        by (eapply every_impl; [apply word_notSpace | done]).
      by rewrite bool_decide_eq_false_2 by (by rewrite length_zero_iff). }
    destruct (Z.ltb_spec len 3), (Z.ltb_spec 30 len);
      [lia | lia | lia |].
    destruct Hreq as [-> ->]; [lia |]. cbn. split; [lia | done].
  - rewrite andb_false_r. cbn [negb].
    split; [repeat case_match; lia | by intros [_ ?]].
Qed.

(** X3: [validateBugTitle] throws on a missing title; a title it accepts
    is not blank, has at most 200 characters, and is accepted by the
    validators of the schema when it is set through an update. *)
Theorem validateBugTitle_rules (title : option string) :
  match title with
  | None => validateBugTitle None = Js.Throw Js.TypeError
  | Some t =>
    ∃ r, validateBugTitle (Some t) = Js.Normal r ∧
         (isValid r = true ↔
            Js.trim t ≠ EmptyString ∧ Z.of_nat (String.length t) ≤ 200) ∧
         (isValid r = true → validate_update (titlePatch t) = true)
  end.
Proof.
  destruct title as [t |]; [| reflexivity].
  eexists. split; [reflexivity |]. cbn [isValid].
  rewrite bool_decide_eq_true, !pushIf_length. cbn [List.length].
  assert (blank t = false ↔ Js.trim t ≠ EmptyString) as Hblank.
  { unfold blank, Js.truthy.
    destruct (decide (t = EmptyString)) as [-> | Hne].
    - vm_compute. split; [discriminate | intros H; by destruct H].
    - rewrite (bool_decide_eq_false_2 (t = EmptyString)) by done.
      cbn [negb orb]. by rewrite bool_decide_eq_false, length_zero_iff. }
  assert (Js.trim t ≠ EmptyString ∧ Z.of_nat (String.length t) ≤ 200 →
          validate_update (titlePatch t) = true) as Hschema.
  { intros [Hne Hlen].
    unfold validate_update, titlePatch. cbn [p_title p_description p_status
      p_priority p_severity p_category p_environment p_comments optional
      from_option]. rewrite !andb_true_r.
    unfold required, maxlength, Js.truthy.
    rewrite (bool_decide_eq_false_2 (Js.trim t = EmptyString)) by done.
    apply bool_decide_eq_true_2. pose proof (trim_length t). lia. }
  match goal with
  | |- (?L ↔ ?R) ∧ _ => assert (L ↔ R) as Hiff
  end.
  { destruct (blank t) eqn:Hb.
    - split; [intros H; exfalso; revert H; case_match; simpl; lia |].
      intros [HA _]. apply Hblank in HA. congruence.
    - destruct (Z.ltb_spec 200 (Z.of_nat (String.length t))); simpl.
      + split; [lia | intros [_ ?]; lia].
      + split; [| done]. intros _. split; [by apply Hblank | lia]. }
  split; [exact Hiff |]. intros H. by apply Hschema, Hiff.
Qed.

(** ** sanitizeHtml *)

Section Sanitize.

Implicit Types (s t : string) (a c : ascii).

Lemma replaceChar_append c by_ s t :
  Re.replaceChar c by_ (s +:+ t)
  = Re.replaceChar c by_ s +:+ Re.replaceChar c by_ t.
Proof.
  induction s as [| a s IH]; [done |].
  rewrite append_cons. simpl. rewrite IH.
  case_bool_decide; [by rewrite append_assoc | done].
Qed.

(** The six replacements together act character by character. *)
Lemma sanitizeHtml_append s t :
  sanitizeHtml (s +:+ t) = sanitizeHtml s +:+ sanitizeHtml t.
Proof. unfold sanitizeHtml. by rewrite !replaceChar_append. Qed.

Lemma sanitizeHtml_cons a s :
  sanitizeHtml (String a s)
  = sanitizeHtml (String a EmptyString) +:+ sanitizeHtml s.
Proof. by rewrite <- sanitizeHtml_append. Qed.

(** What becomes of one character. *)
Lemma sanitizeHtml_char a :
  let e := sanitizeHtml (String a EmptyString) in
  Re.some markup e = false ∧
  (escaped a = false → e = String a EmptyString) ∧
  (escaped a = true →
   (4 ≤ String.length e)%nat ∧
   Re.some (λ c, bool_decide (Re.code c = 38)) e = true).
Proof.
  destruct a as [[] [] [] [] [] [] [] []]; vm_compute;
    (split; [reflexivity |]); split; intros H;
    first [discriminate H | reflexivity | split; [lia | reflexivity]].
Qed.

Lemma sanitizeHtml_length s :
  (String.length s ≤ String.length (sanitizeHtml s))%nat.
Proof.
  induction s as [| a s IH]; [done |].
  rewrite sanitizeHtml_cons, length_append. simpl.
  destruct (sanitizeHtml_char a) as (_ & Hclean & Hesc).
  destruct (escaped a).
  - destruct Hesc as [? _]; [done |]. lia.
  - rewrite Hclean by done. simpl. lia.
Qed.

Lemma sanitizeHtml_clean s :
  Re.some escaped s = false → sanitizeHtml s = s.
Proof.
  induction s as [| a s IH]; [done |]. simpl.
  rewrite orb_false_iff. intros [Ha Hs].
  rewrite sanitizeHtml_cons.
  destruct (sanitizeHtml_char a) as (_ & Hclean & _).
  by rewrite Hclean, append_cons, append_nil_l, IH.
Qed.

Lemma sanitizeHtml_fixed s :
  sanitizeHtml s = s → Re.some escaped s = false.
Proof.
  induction s as [| a s IH]; [done |].
  rewrite sanitizeHtml_cons. simpl.
  destruct (sanitizeHtml_char a) as (_ & Hclean & Hesc).
  destruct (escaped a) eqn:Ha.
  - destruct Hesc as [Hlen _]; [done |]. intros Heq.
    apply (f_equal String.length) in Heq.
    rewrite length_append in Heq. simpl in Heq.
    pose proof (sanitizeHtml_length s). lia.
  - rewrite Hclean by done. rewrite append_cons, append_nil_l.
    intros [= Heq]. by apply IH.
Qed.

Lemma sanitizeHtml_ampersand s :
  Re.some escaped s = true →
  Re.some (λ c, bool_decide (Re.code c = 38)) (sanitizeHtml s) = true.
Proof.
  induction s as [| a s IH]; [done |]. simpl.
  rewrite sanitizeHtml_cons, some_append.
  destruct (sanitizeHtml_char a) as (_ & _ & Hesc).
  destruct (escaped a); simpl.
  - intros _. destruct Hesc as [_ Hamp]; [done |]. by rewrite Hamp.
  - intros Hs. rewrite IH by done. apply orb_true_r.
Qed.

End Sanitize.

Lemma sanitizeHtml_markup s : Re.some markup (sanitizeHtml s) = false.
Proof.
  induction s as [| a s IH]; [done |].
  rewrite sanitizeHtml_cons, some_append, IH.
  by destruct (sanitizeHtml_char a) as (-> & _).
Qed.

(** X4: the text that [sanitizeHtml] returns holds none of [<], [>], the
    double quote, the apostrophe and the slash, and is at least as long as
    the input; the input comes back unchanged exactly when it holds none
    of these and no ampersand; and sanitizing a second time changes the
    text again unless the input was of that kind. *)
Theorem sanitizeHtml_escapes (input : string) :
  Re.some markup (sanitizeHtml input) = false ∧
  (String.length input ≤ String.length (sanitizeHtml input))%nat ∧
  (sanitizeHtml input = input ↔ Re.some escaped input = false) ∧
  (sanitizeHtml (sanitizeHtml input) = sanitizeHtml input ↔
   Re.some escaped input = false).
Proof.
  split; [apply sanitizeHtml_markup |].
  split; [apply sanitizeHtml_length | split].
  - split; [apply sanitizeHtml_fixed | apply sanitizeHtml_clean].
  - split.
    + intros Hfix. apply sanitizeHtml_fixed in Hfix.
      destruct (Re.some escaped input) eqn:Hin; [| done].
      apply sanitizeHtml_ampersand in Hin.
      assert (∀ t, Re.some (λ c, bool_decide (Re.code c = 38)) t = true →
                   Re.some escaped t = true) as Hamp.
      { intros t. induction t as [| a t IH]; [done |]. simpl.
        rewrite !orb_true_iff. intros [Ha | Ht].
        - left. unfold escaped. rewrite Ha. apply orb_true_r.
        - right. by apply IH. }
      apply Hamp in Hin. congruence.
    + intros Hclean. by rewrite !(sanitizeHtml_clean input).
Qed.

Lemma hexDigit_plain c :
  hexDigit c = true → negb (escaped c) = true ∧ notSpace c = true.
Proof. destruct c as [[] [] [] [] [] [] [] []]; by vm_compute. Qed.

(** X29: an id that [isValidObjectId] accepts has 24 characters, and the
    text helpers leave it alone: escaping it or trimming it gives the
    same id, so that it is still accepted afterwards. *)
Theorem isValidObjectId_survives_sanitizer (id : string) :
  isValidObjectId id = true →
  String.length id = 24%nat ∧
  sanitizeHtml id = id ∧
  Js.trim id = id ∧
  isValidObjectId (sanitizeHtml (Js.trim id)) = true.
Proof.
  intros Hid. pose proof Hid as Hvalid. unfold isValidObjectId in Hid.
  apply andb_true_iff in Hid as [Hlen Hhex].
  apply bool_decide_eq_true in Hlen.
  assert (sanitizeHtml id = id) as Hsan.
  { apply sanitizeHtml_clean. rewrite some_every_neg.
    apply negb_false_iff. eapply every_impl; [| exact Hhex].
    intros c Hc. by apply hexDigit_plain. }
  assert (Js.trim id = id) as Htrim.
  { apply trim_id. eapply every_impl; [| exact Hhex].
    intros c Hc. by apply hexDigit_plain. }
  by rewrite Htrim, Hsan.
Qed.

Lemma isValidObjectId_survives_sanitizer_witness :
  String.length bugId = 24%nat ∧
  sanitizeHtml bugId = bugId ∧
  Js.trim bugId = bugId ∧
  isValidObjectId (sanitizeHtml (Js.trim bugId)) = true.
Proof. exact (isValidObjectId_survives_sanitizer bugId eq_refl). Defined.

(** ** generateSlug *)

Section Slug.

Implicit Types (s t : string) (a c : ascii) (cls : ascii → bool) (b : bool).

Lemma substring_length n s :
  (String.length (String.substring 0 n s) ≤ n)%nat.
Proof.
  revert s. induction n as [| n IH]; intros [| a s]; simpl; try lia.
  specialize (IH s). lia.
Qed.

Lemma substring_every cls n s :
  Re.every cls s = true → Re.every cls (String.substring 0 n s) = true.
Proof.
  revert s. induction n as [| n IH]; intros [| a s]; simpl; try done.
  rewrite !andb_true_iff. intros [? ?]. split; [done | by apply IH].
Qed.

Lemma substring_all n s :
  (String.length s ≤ n)%nat → String.substring 0 n s = s.
Proof.
  revert s. induction n as [| n IH]; intros [| a s]; simpl; try done;
    try lia.
  intros Hlen. rewrite IH; [done | lia].
Qed.

Lemma keep_every cls s : Re.every cls (Re.keep cls s) = true.
Proof.
  induction s as [| a s IH]; [done |]. simpl.
  destruct (cls a) eqn:Ha; [| done]. simpl. by rewrite Ha.
Qed.

Lemma keep_all cls s : Re.every cls s = true → Re.keep cls s = s.
Proof.
  induction s as [| a s IH]; [done |]. simpl.
  rewrite andb_true_iff. intros [-> Hs]. by rewrite IH.
Qed.

(** Replacing runs by a character of the target class lands in it. *)
Lemma replaceRuns_every cls cls0 cls' r b s :
  cls' r = true →
  (∀ c, cls0 c = true → cls c = false → cls' c = true) →
  Re.every cls0 s = true →
  Re.every cls' (Re.replaceRuns_from cls r b s) = true.
Proof.
  intros Hr Hother. revert b.
  induction s as [| a s IH]; intros b; [done |]. simpl.
  rewrite andb_true_iff. intros [Ha0 Hs].
  destruct (cls a) eqn:Ha.
  - destruct b; simpl; [by apply IH |]. by rewrite Hr, IH.
  - simpl. by rewrite Hother, IH.
Qed.

(** Without characters of the class nothing is replaced. *)
Lemma replaceRuns_none cls r b s :
  Re.some cls s = false → Re.replaceRuns_from cls r b s = s.
Proof.
  revert b. induction s as [| a s IH]; intros b; [done |]. simpl.
  rewrite orb_false_iff. intros [-> Hs]. by rewrite IH.
Qed.

Lemma dash_eq c : Re.dash c = true ↔ c = "-"%char.
Proof. unfold Re.dash. apply bool_decide_eq_true. Qed.

Lemma includes_cons a s t :
  Js.includes (String a s) t
  = Js.startsWith t (String a s) || Js.includes s t.
Proof. reflexivity. Qed.

Lemma startsWith_dashes a s :
  Js.startsWith "--" (String a s)
  = bool_decide ("-"%char = a) && Js.startsWith "-" s.
Proof. reflexivity. Qed.

Lemma startsWith_dash a s :
  Js.startsWith "-" (String a s) = bool_decide ("-"%char = a).
Proof. simpl. apply andb_true_r. Qed.

Lemma replaceRuns_from_cons cls r b a s :
  Re.replaceRuns_from cls r b (String a s)
  = if cls a then
      if b then Re.replaceRuns_from cls r true s
      else String r (Re.replaceRuns_from cls r true s)
    else String a (Re.replaceRuns_from cls r false s).
Proof. reflexivity. Qed.

Lemma not_dash a : Re.dash a = false → bool_decide ("-"%char = a) = false.
Proof.
  intros Ha. apply bool_decide_eq_false_2. intros <-.
  by rewrite (proj2 (dash_eq "-"%char)) in Ha.
Qed.

(** After the runs of hyphens have been merged, no two hyphens are
    adjacent. *)
Lemma mergeDashes_apart b s :
  let out := Re.replaceRuns_from Re.dash "-" b s in
  Js.includes out "--" = false ∧
  (b = true → Js.startsWith "-" out = false).
Proof.
  cbv zeta. revert b.
  induction s as [| a s IH]; intros b; [by destruct b |].
  rewrite replaceRuns_from_cons. destruct (Re.dash a) eqn:Ha.
  - destruct b; [apply (IH true) |].
    destruct (IH true) as [Hin Hst]. split; [| done].
    rewrite includes_cons, startsWith_dashes, Hin, Hst by done.
    by rewrite andb_false_r.
  - destruct (IH false) as [Hin _].
    rewrite includes_cons, startsWith_dashes, startsWith_dash, Hin.
    by rewrite not_dash.
Qed.

(** A text without adjacent hyphens is left as it is. *)
Lemma mergeDashes_id b s :
  Js.includes s "--" = false →
  (b = true → Js.startsWith "-" s = false) →
  Re.replaceRuns_from Re.dash "-" b s = s.
Proof.
  revert b. induction s as [| a s IH]; intros b; [done |].
  rewrite includes_cons, startsWith_dashes, startsWith_dash.
  rewrite replaceRuns_from_cons, orb_false_iff. intros [Hst Hin] Hb.
  destruct (Re.dash a) eqn:Ha.
  - apply dash_eq in Ha as ->.
    rewrite (bool_decide_eq_true_2 ("-"%char = "-"%char)) in Hst, Hb by done.
    destruct b; [by specialize (Hb eq_refl) |].
    f_equal. apply IH; [done |]. by intros _.
  - f_equal. apply IH; [done | discriminate].
Qed.

Lemma startsWith_dash_substring n s :
  Js.startsWith "-" s = false →
  Js.startsWith "-" (String.substring 0 n s) = false.
Proof. destruct n, s; try done. Qed.

Lemma includes_substring n s :
  Js.includes s "--" = false →
  Js.includes (String.substring 0 n s) "--" = false.
Proof.
  revert s. induction n as [| n IH]; intros [| a s]; try done.
  change (String.substring 0 (S n) (String a s))
    with (String a (String.substring 0 n s)).
  rewrite !includes_cons, !startsWith_dashes, !orb_false_iff.
  intros [Hst Hin]. split; [| by apply IH].
  destruct (bool_decide ("-"%char = a)); [| done].
  by apply startsWith_dash_substring.
Qed.

Lemma slugOut_facts c :
  slugOut c = true →
  Js.lowerCode c = c ∧ notSpace c = true ∧ Re.slug c = true.
Proof. destruct c as [[] [] [] [] [] [] [] []]; by vm_compute. Qed.

Lemma slug_after_space c :
  Re.slug c = true → Js.isWhiteSpace c = false → slugOut c = true.
Proof. destruct c as [[] [] [] [] [] [] [] []]; by vm_compute. Qed.

Lemma toLowerCase_id s : Re.every slugOut s = true → Js.toLowerCase s = s.
Proof.
  induction s as [| a s IH]; [done |]. simpl.
  rewrite andb_true_iff. intros [Ha Hs].
  destruct (slugOut_facts a Ha) as (-> & _). by rewrite IH.
Qed.

End Slug.

(** X5: a slug has at most 50 characters, all of them lower case letters,
    digits or hyphens, and no two hyphens in a row; and the slug of a slug
    is the slug itself. *)
Theorem generateSlug_shape (text : string) :
  let slug := generateSlug text in
  (String.length slug ≤ 50)%nat ∧
  Re.every slugOut slug = true ∧
  Js.includes slug "--" = false ∧
  generateSlug slug = slug.
Proof.
  cbv zeta.
  assert (∀ t, (String.length (generateSlug t) ≤ 50)%nat ∧
               Re.every slugOut (generateSlug t) = true ∧
               Js.includes (generateSlug t) "--" = false) as Hshape.
  { intros t. unfold generateSlug. split; [apply substring_length |]. split.
    - apply substring_every. unfold Re.replaceRuns.
      apply (replaceRuns_every _ slugOut); [done | done |].
      apply (replaceRuns_every _ Re.slug); [done | |].
      + intros c. apply slug_after_space.
      + apply keep_every.
    - apply includes_substring. unfold Re.replaceRuns.
      apply (mergeDashes_apart false). }
  destruct (Hshape text) as (Hlen & Hout & Hapart).
  repeat split; [done .. |].
  set (slug := generateSlug text) in *. unfold generateSlug at 1.
  rewrite toLowerCase_id by done.
  assert (Re.every notSpace slug = true) as Hns.
  { eapply every_impl; [| exact Hout]. intros c Hc.
    by destruct (slugOut_facts c Hc) as (_ & ? & _). }
  rewrite trim_id by done.
  rewrite keep_all
    by (eapply every_impl; [| exact Hout]; intros c Hc;
        by destruct (slugOut_facts c Hc) as (_ & _ & ?)).
  unfold Re.replaceRuns.
  rewrite (replaceRuns_none Js.isWhiteSpace).
  2:{ rewrite some_every_neg. fold notSpace.
      change (λ c, negb (Js.isWhiteSpace c)) with notSpace.
      by rewrite Hns. }
  rewrite mergeDashes_id by done.
  by apply substring_all.
Qed.

(** ** extractTokenFromHeader *)

Section Split.

Implicit Types (s t p : string) (sep a : ascii).

Lemma hasChar_cons sep a s :
  hasChar sep (String a s) = bool_decide (a = sep) || hasChar sep s.
Proof. reflexivity. Qed.

Lemma split_cons sep a s :
  split sep (String a s) =
    if bool_decide (a = sep) then EmptyString :: split sep s
    else match split sep s with
         | [] => [String a EmptyString]
         | piece :: pieces => String a piece :: pieces
         end.
Proof. reflexivity. Qed.

Lemma split_nonempty sep s : split sep s ≠ [].
Proof.
  destruct s as [| a s]; [done |]. rewrite split_cons.
  case_bool_decide; [done |]. by destruct (split sep s).
Qed.

(** No piece holds the separator. *)
Lemma split_pieces sep s :
  Forall (λ p, hasChar sep p = false) (split sep s).
Proof.
  induction s as [| a s IH]; [by repeat constructor |].
  rewrite split_cons. case_bool_decide as Ha.
  - by constructor.
  - pose proof (split_nonempty sep s) as Hne.
    destruct (split sep s) as [| p ps]; [done |].
    inversion_clear IH as [| ? ? Hp Hps]. constructor; [| done].
    by rewrite hasChar_cons, Hp, bool_decide_eq_false_2.
Qed.

(** Joining the pieces gives the text back. *)
Lemma join_split sep s : join sep (split sep s) = s.
Proof.
  induction s as [| a s IH]; [done |]. rewrite split_cons.
  pose proof (split_nonempty sep s) as Hne.
  destruct (split sep s) as [| p ps] eqn:Hsplit; [done |].
  case_bool_decide as Ha.
  - subst a.
    change (join sep (EmptyString :: p :: ps))
      with (EmptyString +:+ String sep (join sep (p :: ps))).
    by rewrite IH.
  - destruct ps as [| q qs].
    + change (String a p = String a s). by f_equal.
    + change (String a (p +:+ String sep (join sep (q :: qs))) = String a s).
      by f_equal.
Qed.

Lemma split_clean sep s : hasChar sep s = false → split sep s = [s].
Proof.
  induction s as [| a s IH]; [done |].
  rewrite hasChar_cons, orb_false_iff. intros [Ha Hs].
  by rewrite split_cons, Ha, IH.
Qed.

Lemma split_append sep p t :
  hasChar sep p = false →
  split sep (p +:+ String sep t) = p :: split sep t.
Proof.
  induction p as [| a p IH].
  - intros _. rewrite append_nil_l, split_cons.
    by rewrite bool_decide_eq_true_2.
  - rewrite hasChar_cons, orb_false_iff. intros [Ha Hp].
    by rewrite append_cons, split_cons, Ha, IH.
Qed.

End Split.

Lemma extractTokenFromHeader_Some authHeader token :
  extractTokenFromHeader authHeader = Some token →
  authHeader = Some ("Bearer " +:+ token) ∧ hasChar " " token = false.
Proof.
  destruct authHeader as [h |]; [| done]. unfold extractTokenFromHeader.
  destruct (negb (Js.truthy h)); [done |].
  pose proof (join_split " " h) as Hjoin.
  pose proof (split_pieces " " h) as Hpieces.
  destruct (split " " h) as [| p0 [| p1 [| p2 ps]]]; try done.
  simpl. case_bool_decide as Hp0; [| done]. cbn [negb].
  injection Hp0 as ->. intros [= ->].
  inversion_clear Hpieces as [| ? ? _ Hrest].
  inversion_clear Hrest as [| ? ? Htoken _].
  split; [| done]. f_equal. by rewrite <- Hjoin.
Qed.

(** X6: [extractTokenFromHeader] returns a token exactly for the headers
    made of [Bearer], one space and a token without spaces, and then it
    returns that token; for every other header, and without a header, it
    returns [null]. *)
Theorem extractTokenFromHeader_bearer (authHeader : option string)
    (token : string) :
  extractTokenFromHeader authHeader = Some token ↔
  authHeader = Some ("Bearer " +:+ token) ∧ hasChar " " token = false.
Proof.
  split; [apply extractTokenFromHeader_Some |].
  intros [-> Hclean]. unfold extractTokenFromHeader.
  change ("Bearer " +:+ token) with ("Bearer" +:+ String " " token).
  rewrite split_append by done. rewrite split_clean by done.
  reflexivity.
Qed.

(** ** canAccessResource *)

(** Decides the comparisons between two literals in the goal. *)
Ltac decide_literals :=
  repeat match goal with
    | |- context [bool_decide (?a = ?b)] =>
      let v := eval vm_compute in (bool_decide (a = b)) in
      match v with
      | true => change (bool_decide (a = b)) with true
      | false => change (bool_decide (a = b)) with false
      end
    end;
  cbv iota.

(** X7: an admin is granted every action on every resource, unknown kinds
    included. Anyone else may read a bug; is granted its update exactly
    as its reporter or its assignee, and its deletion exactly as its
    reporter; on an unassigned bug that the user did not report the answer
    to "update" is [undefined], not [false]. On a user document, anyone
    else may update only their own and delete none; unknown resources and
    unknown actions are refused. *)
Theorem canAccessResource_table (user : User) :
  (role user = "admin" →
   ∀ resource action, canAccessResource user resource action = Yes) ∧
  (role user ≠ "admin" →
   (∀ bug,
      canAccessResource user (BugDocument bug) "read" = Yes ∧
      (granted (canAccessResource user (BugDocument bug) "update") = true ↔
       reporter bug = user_id user ∨ assignee bug = Some (user_id user)) ∧
      (canAccessResource user (BugDocument bug) "delete" = Yes ↔
       reporter bug = user_id user) ∧
      (canAccessResource user (BugDocument bug) "delete" = No ↔
       reporter bug ≠ user_id user) ∧
      (reporter bug ≠ user_id user → assignee bug = None →
       canAccessResource user (BugDocument bug) "update" = NoAnswer)) ∧
   (∀ target,
      canAccessResource user (UserDocument target) "read" = Yes ∧
      (canAccessResource user (UserDocument target) "update" = Yes ↔
       user_id target = user_id user) ∧
      canAccessResource user (UserDocument target) "delete" = No) ∧
   (∀ action, canAccessResource user OtherDocument action = No) ∧
   (∀ resource action,
      action ∉ ["read"; "create"; "update"; "delete"] →
      canAccessResource user resource action = No)).
Proof.
  split.
  - intros Hadmin resource action. unfold canAccessResource.
    by rewrite bool_decide_eq_true_2.
  - intros Hrole. unfold canAccessResource.
    rewrite (bool_decide_eq_false_2 (role user = "admin")) by done.
    cbn [orb]. split; [| split; [| split]].
    + intros bug. decide_literals. cbn [granted ofBool].
      destruct (decide (reporter bug = user_id user)) as [Hrep | Hrep].
      * rewrite (bool_decide_eq_true_2 _ Hrep). cbn [granted ofBool].
        split; [done |]. split; [split; [by left | done] |].
        split; [done |]. split; [split; [done | by intros ?] |].
        by intros ?.
      * rewrite (bool_decide_eq_false_2 _ Hrep). cbn [granted ofBool].
        split; [done |]. split; [| split; [| split]]; [| done | done |].
        -- destruct (assignee bug) as [a |]; [case_bool_decide |];
             cbn [granted ofBool]; split;
             first [done | intros [? | ?]; congruence | intros _; right;
                    congruence].
        -- by intros _ ->.
    + intros target. decide_literals. cbn [ofBool].
      split; [done |]. split; [| done].
      case_bool_decide; cbn [ofBool]; split; done.
    + done.
    + intros resource action. rewrite !elem_of_cons, elem_of_nil.
      intros Hnot. destruct resource; [| | done];
        rewrite !bool_decide_eq_false_2; tauto.
Qed.

(** X8: the checks wired into the routes agree with [canAccessResource]:
    for an authenticated user and an existing bug, [deleteBug] deletes
    exactly when the evaluator grants "delete", and answers 403 without
    touching the collections otherwise; and [canModifyResource], on a
    route path that mentions [/bugs], lets the request through exactly
    when the evaluator grants "update". *)
Theorem route_checks_agree_with_canAccessResource {B} (req : Request unit)
    (req' : Request B) (db : Db) (u : User) (bug : Bug) :
  user req = Some u →
  user req' = Some u →
  bugs db !! params_id req = Some bug →
  bugs db !! params_id req' = Some bug →
  Js.includes (route_path req') "/bugs" = true →
  deleteBug req db =
    (if granted (canAccessResource u (BugDocument bug) "delete")
     then (Sent 200 (), remove_bug (params_id req) db)
     else (Rejected 403 "You can only delete bugs you reported", db)) ∧
  canModifyResource req' db =
    (if granted (canAccessResource u (BugDocument bug) "update")
     then Next
     else Respond 403
            "You can only modify bugs you reported or are assigned to.").
Proof.
  intros Hu Hu' Hbug Hbug' Hpath. split.
  - unfold deleteBug, canAccessResource. rewrite Hbug, Hu.
    decide_literals.
    destruct (bool_decide (role u = "admin")),
      (bool_decide (reporter bug = user_id u)); reflexivity.
  - unfold canModifyResource, canAccessResource. rewrite Hu'.
    decide_literals.
    destruct (bool_decide (role u = "admin")); [reflexivity |].
    rewrite Hpath, Hbug'. cbn [orb].
    destruct (bool_decide (reporter bug = user_id u)); [reflexivity |].
    cbn [orb]. destruct (assignee bug) as [a |]; cbn [from_option];
      [| reflexivity].
    destruct (bool_decide (a = user_id u)); reflexivity.
Qed.

Lemma route_checks_agree_with_canAccessResource_witness :
  deleteBug (mkRequest (Some bob) bugId () EmptyString) (sampleDb "open")
  = (Rejected 403 "You can only delete bugs you reported", sampleDb "open") ∧
  canModifyResource
    (mkRequest (Some bob) bugId () "/api/bugs/:id") (sampleDb "open")
  = Respond 403 "You can only modify bugs you reported or are assigned to.".
Proof.
  apply (route_checks_agree_with_canAccessResource
           (mkRequest (Some bob) bugId () EmptyString)
           (mkRequest (Some bob) bugId () "/api/bugs/:id")
           (sampleDb "open") bob (sampleBug "open")).
  - reflexivity.
  - reflexivity.
  - vm_compute. reflexivity.
  - vm_compute. reflexivity.
  - vm_compute. reflexivity.
Defined.

(** ** The rate limiter *)

Section RateLimit.

Variables (maxRequests windowMs : Z).

Implicit Types (userRequests : gmap string (list Z)) (userId : string).
Implicit Types (calls history : list (string * Z)).

Lemma userRateLimit_bounded userId now userRequests :
  bounded maxRequests userRequests →
  bounded maxRequests
    (userRateLimit maxRequests windowMs userId now userRequests).2.
Proof.
  intros Hb. unfold userRateLimit.
  set (cleaned := match userRequests !! userId with
                  | Some requests => _ | None => userRequests end).
  assert (bounded maxRequests cleaned) as Hc.
  { unfold cleaned. destruct (userRequests !! userId) as [l |] eqn:Hl;
      [| done].
    intros k l'. rewrite lookup_insert. case_decide as Hk; [| apply Hb].
    intros [= <-]. specialize (Hb _ _ Hl).
    pose proof (length_filter (λ time, now - windowMs < time) l). lia. }
  destruct (Z.leb_spec maxRequests
              (Z.of_nat (List.length (default [] (cleaned !! userId)))))
    as [Hfull | Hroom]; cbn [snd]; [done |].
  intros k l'. rewrite lookup_insert. case_decide as Hk; [| apply Hc].
  intros [= <-]. rewrite length_app. cbn [List.length]. lia.
Qed.

(** What one call does to the list of each key. *)
Lemma userRateLimit_lookup userId now userRequests k :
  let recent :=
    filter (λ time, now - windowMs < time)
      (default [] (userRequests !! userId)) in
  let '(answer, userRequests') :=
    userRateLimit maxRequests windowMs userId now userRequests in
  (answer = Next ↔ Z.of_nat (List.length recent) < maxRequests) ∧
  (k ≠ userId → userRequests' !! k = userRequests !! k) ∧
  default [] (userRequests' !! userId) =
    (if answer is Next then recent ++ [now] else recent)%list.
Proof.
  unfold userRateLimit.
  set (cleaned := match userRequests !! userId with
                  | Some requests => _ | None => userRequests end).
  assert (default [] (cleaned !! userId) =
          filter (λ time, now - windowMs < time)
            (default [] (userRequests !! userId))) as Hcur.
  { unfold cleaned. destruct (userRequests !! userId) eqn:Hl.
    - by rewrite lookup_insert_eq.
    - by rewrite Hl. }
  assert (k ≠ userId → cleaned !! k = userRequests !! k) as Hother.
  { intros Hk. unfold cleaned. destruct (userRequests !! userId); [| done].
    by rewrite lookup_insert_ne. }
  rewrite Hcur.
  destruct (Z.leb_spec maxRequests
    (Z.of_nat (List.length (filter (λ time, now - windowMs < time)
                              (default [] (userRequests !! userId))))))
    as [Hfull | Hroom]; cbn zeta.
  - split; [split; [done | lia] |]. by split.
  - split; [split; [lia | done] |]. split.
    + intros Hk. rewrite lookup_insert_ne by done. by apply Hother.
    + by rewrite lookup_insert_eq.
Qed.

Lemma filter_above (c start : Z) (l : list Z) :
  start ≤ c →
  filter (λ t, c < t) (filter (λ t, start < t) l) = filter (λ t, c < t) l.
Proof.
  intros Hle. induction l as [| t l IH]; [done |].
  rewrite !filter_cons. repeat case_decide; try lia.
  - rewrite filter_cons. case_decide; [| lia]. by rewrite IH.
  - rewrite filter_cons. case_decide; [lia |]. done.
  - done.
Qed.

Lemma userRateLimit_agrees userId now seen userRequests history :
  agrees windowMs seen userRequests history →
  let '(answer, userRequests') :=
    userRateLimit maxRequests windowMs userId now userRequests in
  agrees windowMs (now :: seen) userRequests'
    (if answer is Next then history ++ [(userId, now)] else history)%list.
Proof.
  intros Hinv.
  assert (∀ k, let '(answer, userRequests') :=
    userRateLimit maxRequests windowMs userId now userRequests in
    (k ≠ userId → userRequests' !! k = userRequests !! k) ∧
    default [] (userRequests' !! userId) =
      (if answer is Next
       then filter (λ time, now - windowMs < time)
              (default [] (userRequests !! userId)) ++ [now]
       else filter (λ time, now - windowMs < time)
              (default [] (userRequests !! userId)))%list) as Hstep.
  { intros k. pose proof (userRateLimit_lookup userId now userRequests k) as H.
    cbn zeta in H.
    destruct (userRateLimit maxRequests windowMs userId now userRequests).
    tauto. }
  destruct (userRateLimit maxRequests windowMs userId now userRequests)
    as [answer userRequests'].
  intros k c Hc.
  assert (now - windowMs ≤ c) as Hnow by (apply Hc; left).
  assert (∀ t, t ∈ seen → t - windowMs ≤ c) as Hseen
    by (intros t Ht; apply Hc; by right).
  destruct (Hstep k) as [Hother Hmine].
  destruct (decide (k = userId)) as [-> | Hk].
  - rewrite Hmine. destruct answer.
    + rewrite !filter_app, fmap_app, filter_above by done.
      rewrite (Hinv _ _ Hseen). f_equal.
      rewrite !filter_cons, !filter_nil. cbn [fst snd].
      repeat case_decide; try done; exfalso; intuition lia.
    + rewrite filter_above by done. by apply Hinv.
  - rewrite (Hother Hk), (Hinv _ _ Hseen). destruct answer; [| done].
    rewrite filter_app, fmap_app, filter_cons, filter_nil. cbn [fst snd].
    case_decide as Hd; [by destruct Hd |]. by rewrite app_nil_r.
Qed.

Lemma rateLimitRun_agrees calls seen userRequests history :
  agrees windowMs seen userRequests history →
  agrees windowMs (reverse calls.*2 ++ seen)
    (rateLimitRun maxRequests windowMs calls userRequests)
    (history ++ letThrough maxRequests windowMs calls userRequests).
Proof.
  revert seen userRequests history.
  induction calls as [| [userId now] calls IH]; intros seen st history Hinv.
  - cbn. by rewrite app_nil_r.
  - cbn [rateLimitRun letThrough]. rewrite fmap_cons, reverse_cons.
    cbn [snd].
    pose proof (userRateLimit_agrees userId now _ _ _ Hinv) as Hstep.
    destruct (userRateLimit maxRequests windowMs userId now st)
      as [answer st'].
    cbn [snd]. rewrite <- app_assoc. cbn [app].
    specialize (IH _ _ _ Hstep). destruct answer.
    + by rewrite <- app_assoc in IH.
    + done.
Qed.

End RateLimit.

(** X9: a sliding window. When the clock has not gone back, a request is
    let through exactly when fewer than [maxRequests] requests of the
    same key were let through within the window that ends at it. *)
Theorem userRateLimit_sliding_window maxRequests windowMs calls userId now :
  (∀ t, t ∈ calls.*2 → t ≤ now) →
  (userRateLimit maxRequests windowMs userId now
     (rateLimitRun maxRequests windowMs calls ∅)).1 = Next ↔
  Z.of_nat (List.length
    (inWindow windowMs userId now (letThrough maxRequests windowMs calls ∅)))
  < maxRequests.
Proof.
  intros Hclock.
  assert (agrees windowMs [] ∅ []) as H0.
  { intros k c _. by rewrite lookup_empty. }
  pose proof (rateLimitRun_agrees maxRequests windowMs calls _ _ _ H0) as Hrun.
  rewrite app_nil_r, app_nil_l in Hrun.
  specialize (Hrun userId (now - windowMs)).
  pose proof (userRateLimit_lookup maxRequests windowMs userId now
                (rateLimitRun maxRequests windowMs calls ∅) userId) as Hstep.
  cbn zeta in Hstep.
  destruct (userRateLimit maxRequests windowMs userId now _)
    as [answer st'].
  destruct Hstep as [Hstep _]. cbn [fst]. rewrite Hstep.
  rewrite Hrun.
  - unfold inWindow. by rewrite length_fmap.
  - intros t Ht. rewrite elem_of_reverse in Ht. specialize (Hclock t Ht). lia.
Qed.

Lemma userRateLimit_sliding_window_witness :
  let calls := [("u1", 0); ("u1", 600); ("u2", 700); ("u1", 900)] in
  (userRateLimit 2 1000 "u1" 1500 (rateLimitRun 2 1000 calls ∅)).1 = Next ↔
  Z.of_nat (List.length (inWindow 1000 "u1" 1500 (letThrough 2 1000 calls ∅)))
  < 2.
Proof.
  intros calls.
  refine (userRateLimit_sliding_window 2 1000 calls "u1" 1500 _).
  intros t Ht. cbn in Ht. rewrite !elem_of_cons, elem_of_nil in Ht. lia.
Defined.

Section RateLimitKeys.

Variables (maxRequests windowMs : Z).

Lemma userRateLimit_keys userId now (userRequests : gmap string (list Z)) k :
  let '(answer, userRequests') :=
    userRateLimit maxRequests windowMs userId now userRequests in
  is_Some (userRequests' !! k) ↔
  is_Some (userRequests !! k) ∨ (k = userId ∧ answer = Next).
Proof.
  unfold userRateLimit.
  set (cleaned := match userRequests !! userId with
                  | Some requests => _ | None => userRequests end).
  assert (is_Some (cleaned !! k) ↔ is_Some (userRequests !! k)) as Hc.
  { unfold cleaned. destruct (userRequests !! userId) eqn:Hl; [| done].
    destruct (decide (k = userId)) as [-> | Hk].
    - rewrite lookup_insert_eq, Hl. by split.
    - by rewrite lookup_insert_ne. }
  destruct (maxRequests <=? _).
  - rewrite Hc. intuition congruence.
  - destruct (decide (k = userId)) as [-> | Hk].
    + rewrite lookup_insert_eq. intuition eauto.
    + rewrite lookup_insert_ne, Hc by done. intuition congruence.
Qed.

Lemma rateLimitRun_keys calls (userRequests : gmap string (list Z)) k :
  is_Some (rateLimitRun maxRequests windowMs calls userRequests !! k) ↔
  is_Some (userRequests !! k) ∨
  k ∈ (letThrough maxRequests windowMs calls userRequests).*1.
Proof.
  revert userRequests.
  induction calls as [| [userId now] calls IH]; intros st.
  - cbn. rewrite elem_of_nil. tauto.
  - cbn [rateLimitRun letThrough].
    pose proof (userRateLimit_keys userId now st k) as Hstep.
    destruct (userRateLimit maxRequests windowMs userId now st)
      as [answer st'].
    cbn [snd]. rewrite IH, Hstep. destruct answer.
    + rewrite fmap_cons, elem_of_cons. cbn [fst]. intuition congruence.
    + intuition congruence.
Qed.

Lemma rateLimitRun_bounded calls (userRequests : gmap string (list Z)) :
  bounded maxRequests userRequests →
  bounded maxRequests (rateLimitRun maxRequests windowMs calls userRequests).
Proof.
  revert userRequests.
  induction calls as [| [userId now] calls IH]; intros st Hb; [done |].
  cbn [rateLimitRun]. by apply IH, userRateLimit_bounded.
Qed.

End RateLimitKeys.

(** X10: whatever the clock does, a limiter holds at most [maxRequests]
    times for a key, and it holds a list for exactly the keys it has let
    through at least once: no key is ever dropped. *)
Theorem rateLimitRun_memory maxRequests windowMs calls :
  let userRequests := rateLimitRun maxRequests windowMs calls ∅ in
  bounded maxRequests userRequests ∧
  ∀ userId,
    is_Some (userRequests !! userId) ↔
    userId ∈ (letThrough maxRequests windowMs calls ∅).*1.
Proof.
  split.
  - apply rateLimitRun_bounded. intros k l. by rewrite lookup_empty.
  - intros k. rewrite rateLimitRun_keys, lookup_empty.
    split; [intros [[? [=]] | H]; done | by right].
Qed.

Section Sanitizer.

Lemma Json_induction (P : Json → Prop) :
  P JNull →
  (∀ b, P (JBoolean b)) →
  (∀ n, P (JNumber n)) →
  (∀ s, P (JString s)) →
  (∀ items, Forall P items → P (JArray items)) →
  (∀ members, Forall (λ member, P member.2) members → P (JObject members)) →
  ∀ value, P value.
Proof.
  intros Hnull Hbool Hnum Hstr Harr Hobj.
  fix IH 1. intros [| b | n | s | items | members].
  - apply Hnull.
  - apply Hbool.
  - apply Hnum.
  - apply Hstr.
  - apply Harr. induction items as [| item items IHitems]; constructor.
    + apply IH.
    + apply IHitems.
  - apply Hobj. induction members as [| [key item] members IHmembers];
      constructor.
    + apply IH.
    + apply IHmembers.
Qed.

Lemma forEach_spec {A B} (f : A → Js.Completion B) (g : A → B)
    (bad : A → bool) (e : Js.Error) (items : list A) :
  Forall (λ item, f item = if bad item then Js.Throw e
                           else Js.Normal (g item)) items →
  forEach f items =
    if existsb bad items then Js.Throw e else Js.Normal (map g items).
Proof.
  induction 1 as [| item items Hitem _ IH]; [done |].
  cbn [forEach existsb map]. fold (forEach f). rewrite Hitem, IH.
  destruct (bad item); [done |]. cbn [orb].
  by destruct (existsb bad items).
Qed.

Lemma sanitize_spec value :
  sanitize value =
    if shadows value then Js.Throw Js.TypeError
    else Js.Normal (mapStrings sanitizeHtml value).
Proof.
  induction value as [| b | n | s | items IH | members IH]
    using Json_induction; try done.
  - cbn [sanitize shadows mapStrings].
    rewrite (forEach_spec sanitize (mapStrings sanitizeHtml) shadows
               Js.TypeError items IH).
    by destruct (existsb shadows items).
  - cbn [sanitize shadows mapStrings].
    destruct (Js.arrayIncludes members.*1 "hasOwnProperty"); [done |].
    cbn [orb].
    rewrite (forEach_spec _
               (λ member, (member.1, mapStrings sanitizeHtml member.2))
               (λ member, shadows member.2) Js.TypeError members).
    + by destruct (existsb _ members).
    + eapply Forall_impl; [exact IH |]. intros [key item] Hitem.
      cbn [fst snd] in *. rewrite Hitem. by destruct (shadows item).
Qed.

Lemma strings_mapStrings f value :
  strings (mapStrings f value) = map f (strings value).
Proof.
  induction value as [| b | n | s | items IH | members IH]
    using Json_induction; try done.
  - cbn [strings mapStrings]. induction IH as [| item items Hitem _ IHl];
      [done |].
    cbn [map List.concat]. rewrite map_app, Hitem. f_equal. apply IHl.
  - cbn [strings mapStrings]. induction IH as [| item items Hitem _ IHl];
      [done |].
    cbn [map List.concat fst snd]. rewrite map_app, Hitem. f_equal. apply IHl.
Qed.

End Sanitizer.

(** X11: [sanitizeInput] on a parsed body that is an object or an array.
    When some object in it, at any depth, has a member called
    [hasOwnProperty], the middleware throws a TypeError. Otherwise it
    goes on with the same value in which every string, at any depth, has
    been escaped: none of them holds a markup character any more. *)
Theorem sanitizeInput_walks (body : Json) :
  isContainer body = true →
  if shadows body then sanitizeInput body = Js.Throw Js.TypeError
  else
    sanitizeInput body = Js.Normal (mapStrings sanitizeHtml body) ∧
    strings (mapStrings sanitizeHtml body) = map sanitizeHtml (strings body) ∧
    Forall (λ s, Re.some markup s = false)
      (strings (mapStrings sanitizeHtml body)).
Proof.
  intros Hbody.
  assert (sanitizeInput body = sanitize body) as ->
    by (by destruct body).
  rewrite sanitize_spec. destruct (shadows body); [done |].
  split; [done |]. split; [apply strings_mapStrings |].
  rewrite strings_mapStrings.
  induction (strings body) as [| s l IH]; constructor;
    [apply sanitizeHtml_markup | apply IH].
Qed.

Lemma sanitizeInput_walks_witness :
  sanitizeInput sampleBody =
    Js.Normal
      (JObject [ ("title", JString "&lt;b&gt;Crash&lt;&#x2F;b&gt;");
                 ("steps", JArray [JString "open a&#x2F;b"; JNumber 2]) ]) ∧
  strings (mapStrings sanitizeHtml sampleBody)
    = map sanitizeHtml (strings sampleBody) ∧
  Forall (λ s, Re.some markup s = false)
    (strings (mapStrings sanitizeHtml sampleBody)).
Proof. exact (sanitizeInput_walks sampleBody eq_refl). Defined.

Section Numbers.

Lemma nearest_nonneg m : 0 ≤ m → 0 ≤ nearest m.
Proof.
  intros Hm. unfold nearest. destruct (m <? 2 ^ 53); [done |]. cbv zeta.
  assert (0 ≤ 2 ^ (Z.log2 m - 52)) as He by (apply Z.pow_nonneg; lia).
  assert (0 ≤ m / 2 ^ (Z.log2 m - 52)) as Hq
    by (by apply Z_div_nonneg_nonneg).
  destruct (_ || _); nia.
Qed.

(** A result that is not negative stays so. *)
Lemma toNumber_nonneg z :
  0 ≤ z → toNumber z = PlusInfinity ∨ ∃ m, toNumber z = Num m ∧ 0 ≤ m.
Proof.
  intros Hz. unfold toNumber.
  pose proof (nearest_nonneg (Z.abs z) (Z.abs_nonneg z)) as Hm.
  destruct (2 ^ 1024 <=? nearest (Z.abs z)).
  - left. destruct (Z.ltb_spec z 0); [lia | done].
  - right. eexists. split; [done |].
    assert (0 ≤ Z.sgn z) by (by apply Z.sgn_nonneg). nia.
Qed.

(** Below 2^53 the result is exact. *)
Lemma toNumber_exact z : Z.abs z < 2 ^ 53 → toNumber z = Num z.
Proof.
  intros Hz. unfold toNumber, nearest.
  destruct (Z.ltb_spec (Z.abs z) (2 ^ 53)) as [_ | Hge]; [| lia].
  assert (2 ^ 53 < 2 ^ 1024) as Hpow by (by vm_compute).
  destruct (Z.leb_spec (2 ^ 1024) (Z.abs z)) as [Hbig | _]; [lia |].
  f_equal. rewrite Z.mul_comm. apply Z.abs_sgn.
Qed.

Lemma page_cases (parsed : Number) :
  let page0 :=
    if isNaN parsed || Number_lt parsed (Num 1) then Num 1 else parsed in
  (page0 = PlusInfinity ∨ ∃ n, page0 = Num n ∧ 1 ≤ n) ∧
  (∀ m, parsed = Num m → page0 = Num (Z.max 1 m)).
Proof.
  destruct parsed as [| m | |]; cbn.
  - split; [right; by exists 1 | done].
  - destruct (Z.ltb_spec m 1); (split; [right | intros ? [= <-]; f_equal; lia]).
    + by exists 1.
    + by exists m.
  - split; [by left | done].
  - split; [right; by exists 1 | done].
Qed.

Lemma limit_cases (parsed : Number) :
  let limit0 :=
    if isNaN parsed || Number_lt parsed (Num 1) then Num 10 else parsed in
  let limit1 := if Number_lt (Num 100) limit0 then Num 100 else limit0 in
  ∃ l, limit1 = Num l ∧ 1 ≤ l ≤ 100 ∧
       ∀ m, parsed = Num m → l = if m <? 1 then 10 else Z.min m 100.
Proof.
  destruct parsed as [| m | |]; cbn.
  - by exists 10.
  - destruct (Z.ltb_spec m 1); cbn.
    + exists 10. split; [done |]. split; [lia |]. intros ? [= <-].
      by destruct (Z.ltb_spec m 1); [| lia].
    + destruct (Z.ltb_spec 100 m).
      * exists 100. split; [done |]. split; [lia |]. intros ? [= <-].
        destruct (Z.ltb_spec m 1); lia.
      * exists m. split; [done |]. split; [lia |]. intros ? [= <-].
        destruct (Z.ltb_spec m 1); lia.
  - by exists 100.
  - by exists 10.
Qed.

Lemma skip_cases (page0 : Number) n l :
  (page0 = PlusInfinity ∨ page0 = Num n ∧ 1 ≤ n) → 1 ≤ l →
  let skip0 := Number_mul (Number_sub page0 (Num 1)) (Num l) in
  (skip0 = PlusInfinity ∨ ∃ s, skip0 = Num s ∧ 0 ≤ s) ∧
  (page0 = Num n → (n - 1) * l < 2 ^ 53 → skip0 = Num ((n - 1) * l)).
Proof.
  intros Hpage Hl. cbv zeta.
  assert (Number_mul PlusInfinity (Num l) = PlusInfinity) as Hinf.
  { cbn. destruct (Z.eqb_spec l 0); [lia |].
    by destruct (Z.ltb_spec 0 l); [| lia]. }
  destruct Hpage as [-> | [-> Hn]].
  - cbn [Number_sub]. rewrite Hinf. split; [by left | done].
  - cbn [Number_sub]. split.
    + destruct (toNumber_nonneg (n - 1)) as [-> | (a & -> & Ha)]; [lia | |].
      * rewrite Hinf. by left.
      * cbn [Number_mul]. apply toNumber_nonneg. nia.
    + intros _ Hsafe. rewrite toNumber_exact by nia.
      cbn [Number_mul]. apply toNumber_exact. nia.
Qed.

End Numbers.

Section Pagination.

Implicit Types (value : Query) (queryPage queryLimit : option Query).

(** The conversion to a string throws nothing but a TypeError. *)
Lemma toString_throws : ∀ value e, toString value = Js.Throw e → e = Js.TypeError.
Proof.
  fix IH 1. intros [s | items | members] e; cbn [toString].
  - discriminate.
  - set (each := fix each (items : list Query) : Js.Completion (list string) :=
                   match items with
                   | [] => Js.Normal []
                   | item :: rest =>
                     match toString item with
                     | Js.Throw e => Js.Throw e
                     | Js.Normal s =>
                       match each rest with
                       | Js.Throw e => Js.Throw e
                       | Js.Normal ss => Js.Normal (s :: ss)
                       end
                     end
                   end).
    assert (∀ e', each items = Js.Throw e' → e' = Js.TypeError) as Heach.
    { induction items as [| item rest IHrest]; intros e'; cbn [each].
      - discriminate.
      - destruct (toString item) as [s | e0] eqn:Hitem.
        + destruct (each rest) as [ss | e1]; [discriminate |].
          intros [= <-]. by apply IHrest.
        + intros [= <-]. by apply (IH item). }
    destruct (each items) as [ss | e0]; [discriminate |].
    intros [= <-]. by apply Heach.
  - destruct (Js.arrayIncludes _ _); [| discriminate]. by intros [= <-].
Qed.

Lemma validatePagination_cases queryPage queryLimit :
  (validatePagination queryPage queryLimit = Js.Throw Js.TypeError ∧
   ∃ value, (queryPage = Some value ∨ queryLimit = Some value) ∧
            toString value = Js.Throw Js.TypeError) ∨
  (∃ pg lm p,
     readAs (Num 1) queryPage pg ∧ readAs (Num 10) queryLimit lm ∧
     validatePagination queryPage queryLimit = Js.Normal p ∧
     p = (let page0 :=
            if isNaN pg || Number_lt pg (Num 1) then Num 1 else pg in
          let limit0 :=
            if isNaN lm || Number_lt lm (Num 1) then Num 10 else lm in
          let limit1 :=
            if Number_lt (Num 100) limit0 then Num 100 else limit0 in
          mkPagination page0 limit1
            (Number_mul (Number_sub page0 (Num 1)) limit1))).
Proof.
  unfold validatePagination.
  assert (∀ default param,
            (∃ value, param = Some value ∧
                      toString value = Js.Throw Js.TypeError ∧
                      match param with
                      | None => Js.Normal default
                      | Some value =>
                        match toString value with
                        | Js.Throw e => Js.Throw e
                        | Js.Normal s => Js.Normal (parseInt s)
                        end
                      end = Js.Throw Js.TypeError) ∨
            (∃ n, readAs default param n ∧
                  match param with
                  | None => Js.Normal default
                  | Some value =>
                    match toString value with
                    | Js.Throw e => Js.Throw e
                    | Js.Normal s => Js.Normal (parseInt s)
                    end
                  end = Js.Normal n)) as Hread.
  { intros default [value |]; [| right; by exists default].
    destruct (toString value) as [s | e] eqn:Hv.
    - right. exists (parseInt s). split; [by exists s | done].
    - pose proof (toString_throws _ _ Hv) as ->. left. by exists value. }
  destruct (Hread (Num 1) queryPage)
    as [(value & Hq & Hv & ->) | (pg & Hpg & ->)].
  { left. split; [done |]. exists value. by split; [left |]. }
  destruct (Hread (Num 10) queryLimit)
    as [(value & Hq & Hv & ->) | (lm & Hlm & ->)].
  { left. split; [done |]. exists value. by split; [right |]. }
  right. by eexists pg, lm, _.
Qed.

Lemma validatePagination_limit queryPage queryLimit p :
  validatePagination queryPage queryLimit = Js.Normal p →
  ∃ l, limit p = Num l ∧ 1 ≤ l ≤ 100.
Proof.
  destruct (validatePagination_cases queryPage queryLimit)
    as [[-> _] | (pg & lm & p' & _ & _ & -> & Hp)]; [discriminate |].
  intros [= <-]. subst p'. cbv beta iota zeta delta [limit].
  destruct (limit_cases lm) as (l & Hl & Hb & _).
  by exists l.
Qed.

Lemma validatePagination_skip queryPage queryLimit p s :
  validatePagination queryPage queryLimit = Js.Normal p →
  skip p = Num s → 0 ≤ s.
Proof.
  destruct (validatePagination_cases queryPage queryLimit)
    as [[-> _] | (pg & lm & p' & _ & _ & -> & Hp)]; [discriminate |].
  intros [= <-]. subst p'. cbv beta iota zeta delta [skip].
  destruct (page_cases pg) as [Hpage _].
  destruct (limit_cases lm) as (l & Hl & Hlb & _).
  cbv zeta in *. rewrite Hl.
  set (page0 := if isNaN pg || Number_lt pg (Num 1) then Num 1 else pg)
    in *.
  assert (∃ n, page0 = PlusInfinity ∨ page0 = Num n ∧ 1 ≤ n) as [n Hn].
  { destruct Hpage as [-> | (n & -> & Hn)]; [exists 1; by left |].
    exists n. by right. }
  destruct (skip_cases page0 n l Hn) as [Hskip _]; [lia |].
  cbv zeta in Hskip. intros Heq. rewrite Heq in Hskip.
  destruct Hskip as [[=] | (s' & [= <-] & Hs)]. done.
Qed.

End Pagination.

(** X12: the middleware throws only when the page or the limit of the
    query has no string, and then a TypeError; strings always have one.
    Otherwise the page is a number that is at least 1 or infinite, the
    limit lies between 1 and 100, and the skip is the product, in
    doubles, of the page less one and the limit: it is not negative, and
    it is the exact product when that is below 2^53. A query without the
    parameters gives page 1 and limit 10; a parsed page [n] gives the
    larger of 1 and [n], and a parsed limit gives 10 when it is below 1
    and at most 100 otherwise. Above 2^53 the numbers are rounded as
    doubles are. *)
Theorem validatePagination_bounds (queryPage queryLimit : option Query) :
  match validatePagination queryPage queryLimit with
  | Js.Throw e =>
    e = Js.TypeError ∧
    ∃ value, (queryPage = Some value ∨ queryLimit = Some value) ∧
             toString value = Js.Throw Js.TypeError
  | Js.Normal p =>
    (page p = PlusInfinity ∨ ∃ n, page p = Num n ∧ 1 ≤ n) ∧
    (∃ l, limit p = Num l ∧ 1 ≤ l ≤ 100) ∧
    (skip p = PlusInfinity ∨ ∃ s, skip p = Num s ∧ 0 ≤ s) ∧
    (∀ n l, page p = Num n → limit p = Num l → (n - 1) * l < 2 ^ 53 →
            skip p = Num ((n - 1) * l)) ∧
    (queryPage = None → page p = Num 1) ∧
    (queryLimit = None → limit p = Num 10) ∧
    (∀ value s n, queryPage = Some value → toString value = Js.Normal s →
                  parseInt s = Num n → page p = Num (Z.max 1 n)) ∧
    (∀ value s n, queryLimit = Some value → toString value = Js.Normal s →
                  parseInt s = Num n →
                  limit p = Num (if n <? 1 then 10 else Z.min n 100))
  end ∧
  (∀ s t : option string,
     ∃ p, validatePagination (QString <$> s) (QString <$> t) = Js.Normal p) ∧
  validatePagination (Some (QString "9007199254740993")) None
  = Js.Normal
      (mkPagination (Num 9007199254740992) (Num 10) (Num 90071992547409904)) ∧
  validatePagination (Some (QObject [("toString", QString "2")])) None
  = Js.Throw Js.TypeError.
Proof.
  split; [| split; [| split; by vm_compute]].
  - destruct (validatePagination_cases queryPage queryLimit)
      as [[-> Hvalue] | (pg & lm & p & Hpg & Hlm & -> & ->)]; [done |].
    cbv beta iota zeta delta [page limit skip].
    destruct (page_cases pg) as [Hpage Hparsed].
    destruct (limit_cases lm) as (l & Hl & Hlb & Hlparsed).
    cbv zeta in *.
    set (page0 := if isNaN pg || Number_lt pg (Num 1) then Num 1 else pg)
      in *.
    rewrite Hl.
    assert (∃ n, page0 = PlusInfinity ∨ page0 = Num n ∧ 1 ≤ n) as [n Hn].
    { destruct Hpage as [-> | (n & -> & Hn)]; [exists 1; by left |].
      exists n. by right. }
    destruct (skip_cases page0 n l Hn) as [Hskip Hexact]; [lia |].
    cbv zeta in *.
    split; [done |]. split; [by exists l |]. split; [done |].
    split.
    { intros n' l' Hn' [= <-] Hsafe.
      destruct Hn as [Hinf | [Heq _]]; [congruence |].
      assert (n' = n) as -> by congruence. by apply Hexact. }
    split.
    { intros ->. cbn [readAs] in Hpg. by apply (Hparsed 1). }
    split.
    { intros ->. cbn [readAs] in Hlm. f_equal. by rewrite (Hlparsed 10). }
    split.
    + intros value s m -> Hs Hm. destruct Hpg as (s' & Hs' & ->).
      apply Hparsed. congruence.
    + intros value s m -> Hs Hm. destruct Hlm as (s' & Hs' & ->).
      f_equal. apply Hlparsed. congruence.
  - intros s t.
    destruct (validatePagination_cases (QString <$> s) (QString <$> t))
      as [[_ (value & Hq & Hv)] | (pg & lm & p & _ & _ & -> & _)]; [| eauto].
    destruct s, t, Hq as [[= <-] | [= <-]]; discriminate.
Qed.

Section Sort.

Implicit Types (sortObj : list (string * Z)) (key field : string).

Lemma setProperty_keys key (value : Z) sortObj :
  (setProperty key value sortObj).*1 =
    if bool_decide (key ∈ sortObj.*1) then sortObj.*1
    else (sortObj.*1 ++ [key])%list.
Proof.
  induction sortObj as [| [k v] rest IH].
  - cbn. rewrite bool_decide_eq_false_2; [done | apply not_elem_of_nil].
  - cbn [setProperty]. rewrite fmap_cons. cbn [fst].
    destruct (decide (k = key)) as [-> | Hk].
    + rewrite (bool_decide_eq_true_2 (key = key)) by done.
      rewrite (bool_decide_eq_true_2 (key ∈ key :: rest.*1)); [done | left].
    + rewrite (bool_decide_eq_false_2 (k = key)) by done.
      rewrite fmap_cons, IH. cbn [fst].
      destruct (decide (key ∈ rest.*1)) as [Hin | Hin].
      * rewrite (bool_decide_eq_true_2 (key ∈ rest.*1)) by done.
        rewrite (bool_decide_eq_true_2 (key ∈ k :: rest.*1)); [done |].
        by right.
      * rewrite (bool_decide_eq_false_2 (key ∈ rest.*1)) by done.
        rewrite (bool_decide_eq_false_2 (key ∈ k :: rest.*1)); [done |].
        rewrite elem_of_cons. intuition congruence.
Qed.

Lemma setProperty_Forall (P : string * Z → Prop) key value sortObj :
  P (key, value) → Forall P sortObj → Forall P (setProperty key value sortObj).
Proof.
  intros Hnew. induction 1 as [| [k v] rest Hkv Hrest IH].
  - by repeat constructor.
  - cbn [setProperty]. case_bool_decide as Hk.
    + subst k. by constructor.
    + by constructor.
Qed.

Lemma addSortField_sortFields sortObj field :
  sortFields sortObj → sortFields (addSortField sortObj field).
Proof.
  intros [Hnd Hall]. unfold addSortField.
  set (parsed := match field with
                 | String "-" rest => (rest, -1) | _ => (field, 1) end).
  assert (parsed.2 = 1 ∨ parsed.2 = -1) as Hv.
  { unfold parsed. destruct field as [| c rest]; [by left |].
    destruct (decide (c = "-"%char)) as [-> | Hc]; [by right |].
    destruct c as [[] [] [] [] [] [] [] []]; first [by left | done]. }
  destruct parsed as [sortField sortOrder]. cbn [snd] in Hv.
  destruct (Js.arrayIncludes allowedSortFields sortField) eqn:Hin; [| done].
  split.
  - rewrite setProperty_keys. case_bool_decide as Hk; [done |].
    apply NoDup_app. split; [done |]. split.
    + intros x Hx Hx'. apply list_elem_of_singleton in Hx'. by subst.
    + apply NoDup_singleton.
  - apply setProperty_Forall; [| done]. cbn [fst snd]. split; [| done].
    unfold Js.arrayIncludes in Hin. by apply bool_decide_eq_true in Hin.
Qed.

Lemma foldl_addSortField fields : ∀ sortObj,
  sortFields sortObj → sortFields (foldl addSortField sortObj fields).
Proof.
  induction fields as [| field fields IH]; intros sortObj H; [done |].
  cbn [foldl]. by apply IH, addSortField_sortFields.
Qed.

End Sort.

(** X13: for a [sort] parameter that is a string, or absent, the sort
    object is never empty, names each field once, names none but the
    five allowed fields, and gives each the order 1 or -1; without the
    parameter it is [{ createdAt: -1 }]. For a parameter that is an array
    or an object the middleware throws a TypeError. *)
Theorem validateSort_shape (querySort : option Query) :
  match querySort with
  | Some (QArray _) | Some (QObject _) =>
    validateSort querySort = Js.Throw Js.TypeError
  | _ =>
    ∃ sortObj,
      validateSort querySort = Js.Normal sortObj ∧
      sortObj ≠ [] ∧
      NoDup sortObj.*1 ∧
      Forall (λ entry, entry.1 ∈ allowedSortFields ∧
                       (entry.2 = 1 ∨ entry.2 = -1)) sortObj ∧
      (querySort = None → sortObj = [("createdAt", -1)])
  end.
Proof.
  assert (sortFields [("createdAt", -1)]) as Hdefault.
  { split; [apply NoDup_singleton |]. constructor; [| constructor].
    cbn [fst snd]. split; [left | by right]. }
  assert (∀ built, sortFields built →
            let sortObj := match built with
                           | [] => [("createdAt", -1)]
                           | _ :: _ => built
                           end in
            sortObj ≠ [] ∧ sortFields sortObj) as Hfinish.
  { intros [| entry rest] Hbuilt; cbn; by split. }
  destruct querySort as [[sort | items | members] |]; try done.
  - unfold validateSort.
    set (built := if Js.truthy sort then _ else []).
    assert (sortFields built) as Hbuilt.
    { unfold built. destruct (Js.truthy sort); [| by split; constructor].
      apply foldl_addSortField. by split; constructor. }
    destruct (Hfinish built Hbuilt) as (Hne & Hnd & Hall).
    eexists. split; [reflexivity |]. by repeat split.
  - exists [("createdAt", -1)]. destruct Hdefault as [Hnd Hall].
    by repeat split.
Qed.

Section Listings.

Variable sorted : list (string * Z) → list Bug → list Bug.
Hypothesis sorted_perm : ∀ sort docs, sorted sort docs ≡ₚ docs.

Lemma ceilDiv_spec total limit :
  0 < limit →
  (ceilDiv total limit - 1) * limit < total ≤ ceilDiv total limit * limit.
Proof.
  intros Hl. unfold ceilDiv.
  pose proof (Z.div_mod (- total) limit ltac:(lia)) as Hdm.
  pose proof (Z.mod_pos_bound (- total) limit Hl) as Hm.
  nia.
Qed.

Lemma findPage_pageOf (query : Bug → Prop) `{∀ b, Decision (query b)}
    pagination sort db l s :
  limit pagination = Num l → 1 ≤ l < 2 ^ 63 →
  skip pagination = Num s → 0 ≤ s < 2 ^ 63 →
  ∃ listing,
    findPage sorted query pagination sort db = Some listing ∧
    l_page listing = page pagination ∧
    pageOf query l s db listing.
Proof.
  intros Hl Hlb Hs Hsb. unfold findPage. rewrite Hl, Hs.
  destruct (Z.leb_spec 0 s); [| lia]. destruct (Z.ltb_spec s (2 ^ 63)); [| lia].
  destruct (Z.leb_spec 1 l); [| lia]. destruct (Z.ltb_spec l (2 ^ 63)); [| lia].
  cbn [andb]. eexists. split; [reflexivity |]. split; [done |].
  unfold pageOf, countDocuments, find, countWhere.
  cbn [listed l_limit l_total l_pages].
  split; [done |]. split; [done |]. split; [| split].
  - rewrite length_take, length_drop, (Permutation_length (sorted_perm _ _)).
    lia.
  - intros b Hb. apply subseteq_take, subseteq_drop in Hb.
    rewrite (sorted_perm sort _) in Hb.
    by apply list_elem_of_filter in Hb.
  - apply ceilDiv_spec. lia.
Qed.

End Listings.

(** X14: the two listings of the caller's bugs, whatever order the
    database gives to equal keys. What [validatePagination] throws, or
    [validateSort] after it, ends the request: a page or a limit without
    a string, or a [sort] parameter that is an array or an object, gives
    a TypeError. Otherwise, for a skip below 2^63, the answer is 200 and
    the store is not touched; the page holds bugs of the caller only, as
    many as the limit, which is at most 100, allows of those that are
    left after the skip; the total is the number of the caller's bugs
    and [pages] is the least number of pages that holds them all. *)
Theorem my_bugs_listings sorted queryPage queryLimit querySort req u db :
  (∀ sort docs, sorted sort docs ≡ₚ docs) →
  user req = Some u →
  (∀ e,
     validatePagination queryPage queryLimit = Js.Throw e ∨
     (∃ p, validatePagination queryPage queryLimit = Js.Normal p) ∧
     validateSort querySort = Js.Throw e →
     get_my_assigned sorted queryPage queryLimit querySort req db
       = Some (Crashed e, db) ∧
     get_my_reported sorted queryPage queryLimit querySort req db
       = Some (Crashed e, db)) ∧
  (∀ p sort s,
     validatePagination queryPage queryLimit = Js.Normal p →
     validateSort querySort = Js.Normal sort →
     skip p = Num s → s < 2 ^ 63 →
     ∃ l assigned reported,
       limit p = Num l ∧ 1 ≤ l ≤ 100 ∧
       get_my_assigned sorted queryPage queryLimit querySort req db
         = Some (Sent 200 assigned, db) ∧
       get_my_reported sorted queryPage queryLimit querySort req db
         = Some (Sent 200 reported, db) ∧
       l_page assigned = page p ∧ l_page reported = page p ∧
       pageOf (λ b, assignee b = Some (user_id u)) l s db assigned ∧
       pageOf (λ b, reporter b = user_id u) l s db reported).
Proof.
  intros Hperm Hu. unfold get_my_assigned, get_my_reported. split.
  - intros e [-> | [[p ->] ->]]; done.
  - intros p sort s Hp -> Hs Hsafe.
    destruct (validatePagination_limit queryPage queryLimit p Hp)
      as (l & Hl & Hlb).
    pose proof (validatePagination_skip queryPage queryLimit p s Hp Hs) as Hs0.
    rewrite Hp.
    assert (100 < 2 ^ 63) as Hpow by (by vm_compute).
    destruct (findPage_pageOf sorted Hperm
                (λ b, assignee b = Some (user_id u)) p sort db l s)
      as (assigned & Ha & Hpa & Hoa); [done | lia | done | lia |].
    destruct (findPage_pageOf sorted Hperm
                (λ b, reporter b = user_id u) p sort db l s)
      as (reported & Hr & Hpr & Hor); [done | lia | done | lia |].
    exists l, assigned, reported.
    unfold getMyAssignedBugs, getMyReportedBugs. rewrite Hu.
    rewrite Ha, Hr. cbn [mbind option_bind].
    exact (conj Hl (conj Hlb (conj eq_refl (conj eq_refl
             (conj Hpa (conj Hpr (conj Hoa Hor))))))).
Qed.

Lemma my_bugs_listings_witness :
  let req := mkRequest (Some alice) EmptyString () EmptyString in
  let db := sampleDb "open" in
  let queryPage := Some (QString "2") in
  let queryLimit := Some (QArray [QString "1"; QString "50"]) in
  let unreadable := Some (QObject [("toString", QString "2")]) in
  (get_my_assigned (λ _ docs, docs) unreadable queryLimit None req db
     = Some (Crashed Js.TypeError, db) ∧
   get_my_reported (λ _ docs, docs) unreadable queryLimit None req db
     = Some (Crashed Js.TypeError, db)) ∧
  (get_my_assigned (λ _ docs, docs) queryPage queryLimit (Some (QArray []))
     req db = Some (Crashed Js.TypeError, db) ∧
   get_my_reported (λ _ docs, docs) queryPage queryLimit (Some (QArray []))
     req db = Some (Crashed Js.TypeError, db)) ∧
  ∃ l assigned reported,
    Num 1 = Num l ∧ 1 ≤ l ≤ 100 ∧
    get_my_assigned (λ _ docs, docs) queryPage queryLimit
      (Some (QString "-priority")) req db = Some (Sent 200 assigned, db) ∧
    get_my_reported (λ _ docs, docs) queryPage queryLimit
      (Some (QString "-priority")) req db = Some (Sent 200 reported, db) ∧
    l_page assigned = Num 2 ∧ l_page reported = Num 2 ∧
    pageOf (λ b, assignee b = Some (user_id alice)) l 1 db assigned ∧
    pageOf (λ b, reporter b = user_id alice) l 1 db reported.
Proof.
  intros req db queryPage queryLimit unreadable. split; [| split].
  - refine (proj1 (my_bugs_listings (λ _ docs, docs) unreadable queryLimit
                     None req alice db
                     (λ _ docs, reflexivity docs) eq_refl) Js.TypeError _).
    left. vm_compute. reflexivity.
  - refine (proj1 (my_bugs_listings (λ _ docs, docs) queryPage queryLimit
                     (Some (QArray [])) req alice db
                     (λ _ docs, reflexivity docs) eq_refl) Js.TypeError _).
    right. split; [eexists; vm_compute |]; reflexivity.
  - refine (proj2 (my_bugs_listings (λ _ docs, docs) queryPage queryLimit
                     (Some (QString "-priority")) req alice db
                     (λ _ docs, reflexivity docs) eq_refl)
              (mkPagination (Num 2) (Num 1) (Num 1))
              [("priority", -1)] 1 _ _ _ _); vm_compute; reflexivity.
Defined.

Section Counts.

Implicit Types (docs : list Bug) (db : Db).

Lemma validate_enums b :
  validate b = true →
  status b ∈ validStatuses ∧ priority b ∈ validPriorities.
Proof.
  unfold validate, enum, Js.arrayIncludes. rewrite !andb_true_iff.
  intros H. decompose [and] H.
  split; by eapply bool_decide_eq_true.
Qed.

Lemma collection_elem db b :
  b ∈ collection db ↔ ∃ id, bugs db !! id = Some b.
Proof.
  unfold collection. rewrite list_elem_of_fmap. split.
  - intros [[id b'] [-> Hin]]. exists id. by apply elem_of_map_to_list.
  - intros [id Hid]. exists (id, b). split; [done |].
    by apply elem_of_map_to_list.
Qed.

Lemma wf_collection db :
  wf_db db → Forall (λ b, validate b = true) (collection db).
Proof.
  intros Hwf. apply Forall_forall. intros b Hb.
  apply collection_elem in Hb as [id Hid]. by destruct (Hwf _ _ Hid).
Qed.

Lemma countWhere_bounds (P : Bug → Prop) `{∀ b, Decision (P b)} docs :
  0 ≤ countWhere P docs ≤ Z.of_nat (List.length docs).
Proof.
  unfold countWhere. pose proof (length_filter P docs). lia.
Qed.

Lemma countWhere_partition docs :
  Forall (λ b, validate b = true) docs →
  countWhere (λ b, status b = "open") docs +
  countWhere (λ b, status b = "in-progress") docs +
  countWhere (λ b, status b = "testing") docs +
  countWhere (λ b, status b = "resolved") docs +
  countWhere (λ b, status b = "closed") docs = Z.of_nat (List.length docs) ∧
  countWhere (λ b, priority b = "critical") docs +
  countWhere (λ b, priority b = "high") docs +
  countWhere (λ b, priority b = "medium") docs +
  countWhere (λ b, priority b = "low") docs = Z.of_nat (List.length docs).
Proof.
  induction 1 as [| b docs Hb _ IH].
  - by vm_compute.
  - rewrite !countWhere_cons. cbn [List.length].
    destruct (validate_enums b Hb) as [Hs Hp].
    unfold validStatuses in Hs. unfold validPriorities in Hp.
    rewrite !elem_of_cons, elem_of_nil in Hs.
    rewrite !elem_of_cons, elem_of_nil in Hp.
    destruct IH as [IHs IHp]. split.
    + destruct Hs as [-> | [-> | [-> | [-> | [-> | []]]]]];
        vm_compute cond; lia.
    + destruct Hp as [-> | [-> | [-> | [-> | []]]]];
        vm_compute cond; lia.
Qed.

(** Overdue bugs are neither resolved nor closed. *)
Lemma countWhere_disjoint (P : Bug → Prop) `{∀ b, Decision (P b)} docs :
  (∀ b, P b → status b ≠ "resolved" ∧ status b ≠ "closed") →
  countWhere P docs +
  countWhere (λ b, status b = "resolved") docs +
  countWhere (λ b, status b = "closed") docs ≤ Z.of_nat (List.length docs).
Proof.
  intros HP. induction docs as [| b docs IH]; [by vm_compute |].
  rewrite !countWhere_cons. cbn [List.length]. unfold cond.
  destruct (decide (P b)) as [Hb | Hb].
  - destruct (HP b Hb) as [Hr Hc].
    rewrite (bool_decide_eq_true_2 (P b)), (bool_decide_eq_false_2 _ Hr),
      (bool_decide_eq_false_2 _ Hc) by done. lia.
  - rewrite (bool_decide_eq_false_2 (P b)) by done.
    destruct (decide (status b = "resolved")) as [Hr | Hr].
    + rewrite (bool_decide_eq_true_2 _ Hr), Hr.
      rewrite (bool_decide_eq_false_2 ("resolved" = "closed")) by done. lia.
    + rewrite (bool_decide_eq_false_2 _ Hr). case_bool_decide; lia.
Qed.

Lemma countWhere_ext (P Q : Bug → Prop) `{∀ b, Decision (P b)}
    `{∀ b, Decision (Q b)} docs :
  (∀ b, P b ↔ Q b) → countWhere P docs = countWhere Q docs.
Proof.
  intros HPQ. unfold countWhere. f_equal.
  induction docs as [| b docs IH]; [done |].
  rewrite !filter_cons.
  destruct (decide (P b)) as [HP | HP], (decide (Q b)) as [HQ | HQ];
    cbn [List.length]; try (by rewrite IH).
  - by apply HPQ in HP.
  - by apply HPQ in HQ.
Qed.

Lemma isOverdue_query now b :
  isOverdue now b = true ↔
  from_option (λ due, due <? now) false (dueDate b) = true ∧
  status b ∉ ["resolved"; "closed"].
Proof.
  unfold isOverdue, Js.arrayIncludes. destruct (dueDate b) as [due |];
    cbn [from_option]; [| intuition congruence].
  rewrite andb_true_iff, negb_true_iff, bool_decide_eq_false. done.
Qed.

End Counts.

(** X15: in a store whose bugs pass the schema, the five status counters
    of the statistics add up to the total, and so do the four priority
    counters. *)
Theorem getStatistics_partition db :
  wf_db db →
  let s := getStatistics db in
  open s + inProgress s + testing s + resolved s + closed s = total s ∧
  critical s + high s + medium s + low s = total s.
Proof.
  intros Hwf. unfold getStatistics.
  pose proof (statisticsOf_counts (collection db)) as Hc. cbv zeta in Hc.
  destruct Hc as (H0 & H1 & H2 & H3 & H4 & H5 & H6 & H7 & H8 & H9).
  cbv zeta. rewrite H0, H1, H2, H3, H4, H5, H6, H7, H8, H9.
  apply countWhere_partition, wf_collection, Hwf.
Qed.

Lemma getStatistics_partition_witness :
  let s := getStatistics (sampleDb "testing") in
  open s + inProgress s + testing s + resolved s + closed s = total s ∧
  critical s + high s + medium s + low s = total s.
Proof.
  apply (getStatistics_partition (sampleDb "testing")).
  repeat apply wf_put; first [apply wf_empty | vm_compute; reflexivity].
Defined.

(** X16: the statistics response. Its counters are those of
    [Bug.getStatistics]; [overdue] counts the bugs whose [isOverdue]
    virtual holds at that time, which are neither resolved nor closed,
    so that overdue, resolved and closed together stay within the total;
    [myBugs] counts the bugs the caller reported or is assigned to; the
    store is not touched. *)
Theorem getBugStatistics_counts now req u db :
  user req = Some u →
  ∃ data,
    getBugStatistics now req db = (Sent 200 data, db) ∧
    stats data = getStatistics db ∧
    overdue data = countWhere (λ b, isOverdue now b = true) (collection db) ∧
    myBugs data =
      countWhere (λ b, reporter b = user_id u ∨ assignee b = Some (user_id u))
        (collection db) ∧
    0 ≤ overdue data ∧
    overdue data + resolved (stats data) + closed (stats data)
      ≤ total (stats data) ∧
    0 ≤ myBugs data ≤ total (stats data).
Proof.
  intros Hu. unfold getBugStatistics. rewrite Hu.
  eexists. split; [reflexivity |].
  cbn [stats overdue myBugs]. unfold countDocuments, find.
  fold (countWhere (λ b, from_option (λ due, due <? now) false (dueDate b)
                         = true ∧ status b ∉ ["resolved"; "closed"])
          (collection db)).
  fold (countWhere (λ b, reporter b = user_id u ∨
                         assignee b = Some (user_id u)) (collection db)).
  unfold getStatistics.
  pose proof (statisticsOf_counts (collection db)) as Hc. cbv zeta in Hc.
  destruct Hc as (H0 & _ & _ & _ & H4 & H5 & _).
  rewrite H0, H4, H5.
  split; [done |]. split.
  { apply countWhere_ext. intros b. symmetry. apply isOverdue_query. }
  split; [done |]. split; [apply countWhere_bounds |].
  split; [| apply countWhere_bounds].
  apply countWhere_disjoint. intros b [_ Hst].
  rewrite !not_elem_of_cons in Hst. tauto.
Qed.

Lemma getBugStatistics_counts_witness :
  ∃ data,
    getBugStatistics 2000 (mkRequest (Some alice) EmptyString () EmptyString)
      fiveBugs = (Sent 200 data, fiveBugs) ∧
    stats data = getStatistics fiveBugs ∧
    overdue data
      = countWhere (λ b, isOverdue 2000 b = true) (collection fiveBugs) ∧
    myBugs data =
      countWhere
        (λ b, reporter b = user_id alice ∨ assignee b = Some (user_id alice))
        (collection fiveBugs) ∧
    0 ≤ overdue data ∧
    overdue data + resolved (stats data) + closed (stats data)
      ≤ total (stats data) ∧
    0 ≤ myBugs data ≤ total (stats data).
Proof.
  exact (getBugStatistics_counts 2000
           (mkRequest (Some alice) EmptyString () EmptyString) alice fiveBugs
           eq_refl).
Defined.

(** X17: the role checks of the two guarded routes. Without a user the
    answer is 401; creating is open to the three roles of the user
    schema and to no other; assigning is open to developers and admins
    only, and a reporter gets the 403 that names the two roles. No
    refusal touches the store. For a request with a user, [authorize]
    goes on exactly when [hasRole] holds of the role and the roles. *)
Theorem authorize_on_routes now id (create : Request CreateBody)
    (assign : Request ObjectId) db :
  (∀ roles u,
     user assign = Some u →
     authorize roles assign db = Next ↔
     hasRole (role u) (RoleArray roles) = true) ∧
  match user create with
  | None =>
    post_bugs now id create db = (Rejected 401 "Authentication required.", db)
  | Some u =>
    if decide (role u ∈ ["reporter"; "developer"; "admin"]) then
      post_bugs now id create db =
        createBug now id
          (mkRequest (Some u) (params_id create) (body create) "/") db
    else
      post_bugs now id create db =
        (Rejected 403
           "Access denied. Required role: reporter or developer or admin.", db)
  end ∧
  match user assign with
  | None =>
    put_assign now assign db = (Rejected 401 "Authentication required.", db)
  | Some u =>
    if decide (role u = "developer" ∨ role u = "admin") then
      put_assign now assign db =
        assignBug now
          (mkRequest (Some u) (params_id assign) (body assign) "/:id/assign")
          db
    else
      put_assign now assign db =
        (Rejected 403 "Access denied. Required role: developer or admin.", db)
  end.
Proof.
  split.
  { intros roles u Hu. unfold authorize, hasRole. rewrite Hu.
    by destruct (Js.arrayIncludes roles (role u)). }
  unfold post_bugs, put_assign, dispatch, runGuards, authorize.
  cbn [user]. split.
  - destruct (user create) as [u |]; [| done].
    unfold Js.arrayIncludes. case_decide as Hr.
    + by rewrite (bool_decide_eq_true_2 _ Hr).
    + by rewrite (bool_decide_eq_false_2 _ Hr).
  - destruct (user assign) as [u |]; [| done].
    unfold Js.arrayIncludes. case_decide as Hr.
    + rewrite bool_decide_eq_true_2; [done |].
      rewrite !elem_of_cons. tauto.
    + rewrite bool_decide_eq_false_2; [done |].
      rewrite !elem_of_cons, elem_of_nil. tauto.
Qed.

Section Steps.

Implicit Types (s : Step) (l : list Step).

Lemma insertStep_perm s l : insertStep s l ≡ₚ s :: l.
Proof.
  induction l as [| x l IH]; [done |]. cbn [insertStep].
  destruct (order s <=? order x); [done |].
  rewrite IH. apply Permutation_swap.
Qed.

Lemma insertStep_ascending s l :
  ascending l → ascending (insertStep s l).
Proof.
  induction l as [| x l IH]; intros Hl.
  - cbn. by repeat constructor.
  - cbn [insertStep]. destruct Hl as [Hx Hl].
    destruct (Z.leb_spec (order s) (order x)) as [Hle | Hgt].
    + split; [| by split]. constructor; [done |].
      eapply Forall_impl; [exact Hx |]. intros y Hy. cbn beta in *. lia.
    + split; [| by apply IH]. rewrite insertStep_perm.
      constructor; [lia | done].
Qed.

Lemma insertStep_filter k s l :
  filter (λ x, order x = k) (insertStep s l)
  = filter (λ x, order x = k) (s :: l).
Proof.
  induction l as [| x l IH]; [done |]. cbn [insertStep].
  destruct (Z.leb_spec (order s) (order x)) as [Hle | Hgt]; [done |].
  rewrite filter_cons, IH, !filter_cons.
  repeat case_decide; try done; lia.
Qed.

Lemma insertStep_head s l :
  ascending (s :: l) → insertStep s l = s :: l.
Proof.
  intros [Hs _]. destruct l as [| x l]; [done |]. cbn [insertStep].
  inversion Hs as [| ? ? Hle]; subst.
  by rewrite (proj2 (Z.leb_le _ _) Hle).
Qed.

Lemma sortSteps_facts l :
  ascending (sortSteps l) ∧
  sortSteps l ≡ₚ l ∧
  (∀ k, filter (λ x, order x = k) (sortSteps l)
        = filter (λ x, order x = k) l) ∧
  (ascending l → sortSteps l = l).
Proof.
  induction l as [| s l (Hsorted & Hperm & Hstable & Hid)].
  - by repeat split.
  - cbn [sortSteps foldr]. fold (sortSteps l).
    split; [| split; [| split]].
    + by apply insertStep_ascending.
    + by rewrite insertStep_perm, Hperm.
    + intros k. by rewrite insertStep_filter, !filter_cons, Hstable.
    + intros Hs. rewrite Hid; [by apply insertStep_head |].
      by destruct Hs.
Qed.

End Steps.

(** X18: after the save hook the steps to reproduce are in ascending
    order, they are the steps there were, and steps of equal order keep
    the places they had among themselves; steps that were in order are
    not moved. *)
Theorem pre_save_sorts_steps isModified_status now this :
  let steps := stepsToReproduce (pre_save isModified_status now this) in
  ascending steps ∧
  steps ≡ₚ stepsToReproduce this ∧
  (∀ k, filter (λ s, order s = k) steps
        = filter (λ s, order s = k) (stepsToReproduce this)) ∧
  (ascending (stepsToReproduce this) → steps = stepsToReproduce this).
Proof.
  cbv zeta. rewrite pre_save_stepsToReproduce. apply sortSteps_facts.
Qed.

Lemma pre_save_updatedAt m now this :
  updatedAt (pre_save m now this) = updatedAt this.
Proof.
  unfold pre_save. destruct m;
    repeat match goal with
           | |- context [if ?c then _ else _] => destruct c
           | |- context [match stepsToReproduce ?x with _ => _ end] =>
             destruct (stepsToReproduce x)
           end; reflexivity.
Qed.

Lemma pre_save_unmodified now this :
  ascending (stepsToReproduce this) → pre_save false now this = this.
Proof.
  intros Hsteps. unfold pre_save. cbv zeta.
  destruct (stepsToReproduce this) as [| s l] eqn:Hl; [done |].
  rewrite (proj2 (proj2 (proj2 (sortSteps_facts (s :: l)))) Hsteps).
  rewrite <- Hl. by destruct this.
Qed.

Lemma put_bug_same id b db : bugs db !! id = Some b → put_bug id b db = db.
Proof.
  intros Hb. unfold put_bug. rewrite insert_id by done. by destruct db.
Qed.

(** X19: [updateStatus] asks the schema, not the transition table. Any
    of the five statuses is saved, whatever the status was; any other is
    a validation error that leaves the store alone. When the status
    changes, [updatedAt] is the time of the call, and the hook stamps
    [resolvedAt] and [closedAt] for a change to resolved or closed
    unless the stamp is there; no stamp is ever cleared. When the status
    is the one the bug has, nothing is modified: [updatedAt] stays, and a
    stored bug whose steps are in order is left as it is. *)
Theorem updateStatus_any_status now newStatus this db :
  validate this = true →
  if decide (newStatus ∈ validStatuses) then
    ∃ saved,
      updateStatus now newStatus this db
        = (Js.Normal saved, put_bug (bug_id this) saved db) ∧
      status saved = newStatus ∧
      updatedAt saved
        = (if decide (newStatus = status this) then updatedAt this else now) ∧
      resolvedAt saved =
        match resolvedAt this with
        | Some stamp => Some stamp
        | None =>
          if decide (newStatus = "resolved" ∧ status this ≠ "resolved")
          then Some now else None
        end ∧
      closedAt saved =
        match closedAt this with
        | Some stamp => Some stamp
        | None =>
          if decide (newStatus = "closed" ∧ status this ≠ "closed")
          then Some now else None
        end ∧
      (newStatus = status this → ascending (stepsToReproduce this) →
       saved = this ∧
       (bugs db !! bug_id this = Some this →
        put_bug (bug_id this) saved db = db))
  else
    updateStatus now newStatus this db = (Js.Throw Js.ValidationError, db).
Proof.
  intros Hvalid. unfold updateStatus.
  case_decide as Hs.
  - destruct (decide (newStatus = status this)) as [-> | Hne].
    + assert (set_status (status this) this = this) as ->
        by (by destruct this).
      unfold save. rewrite Hvalid.
      rewrite (bool_decide_eq_true_2 (this = this)) by done.
      rewrite (bool_decide_eq_true_2 (status this = status this)) by done.
      cbn [negb]. eexists. split.
      { rewrite pre_save_bug_id. reflexivity. }
      rewrite pre_save_status, pre_save_updatedAt, pre_save_resolvedAt,
        pre_save_closedAt. cbn [andb].
      split; [done |]. split; [done |].
      split.
      { destruct (resolvedAt this); [done |].
        rewrite decide_False; [done | tauto]. }
      split.
      { destruct (closedAt this); [done |].
        rewrite decide_False; [done | tauto]. }
      intros _ Hsteps. rewrite pre_save_unmodified by done.
      split; [done | apply put_bug_same].
    + rewrite save_modified by (by apply set_status_modified).
      rewrite validate_set_status;
        [| done | by apply bool_decide_eq_true_2].
      eexists. split.
      { cbn [bug_id set_updatedAt]. rewrite pre_save_bug_id. reflexivity. }
      cbn [status set_updatedAt updatedAt resolvedAt closedAt].
      rewrite pre_save_status, pre_save_resolvedAt, pre_save_closedAt.
      cbn [status set_status resolvedAt closedAt].
      rewrite (bool_decide_eq_false_2 (newStatus = status this)) by done.
      cbn [negb andb].
      split; [done |]. split; [done |]. split; [| split; [| done]].
      * destruct (resolvedAt this); [done |]. case_bool_decide as Hr.
        -- rewrite decide_True; [done | split; congruence].
        -- rewrite decide_False; [done | tauto].
      * destruct (closedAt this); [done |]. case_bool_decide as Hr.
        -- rewrite decide_True; [done | split; congruence].
        -- rewrite decide_False; [done | tauto].
  - unfold save.
    assert (validate (set_status newStatus this) = false) as ->; [| done].
    unfold validate. cbn [status set_status title description priority
      severity category environment stepsToReproduce expectedResult
      actualResult comments].
    assert (enum validStatuses newStatus = false) as ->
      by (by apply bool_decide_eq_false_2).
    rewrite !andb_false_r. done.
Qed.

Lemma updateStatus_any_status_witness :
  (∃ saved,
     updateStatus 2000 "open" (sampleBug "closed") (sampleDb "closed")
       = (Js.Normal saved, put_bug bugId saved (sampleDb "closed")) ∧
     status saved = "open" ∧
     updatedAt saved = 2000 ∧
     resolvedAt saved = None ∧
     closedAt saved = None ∧
     ("open" = "closed" → ascending [] →
      saved = sampleBug "closed" ∧
      (bugs (sampleDb "closed") !! bugId = Some (sampleBug "closed") →
       put_bug bugId saved (sampleDb "closed") = sampleDb "closed"))) ∧
  (∃ saved,
     updateStatus 2000 "open" (sampleBug "open") (sampleDb "open")
       = (Js.Normal saved, put_bug bugId saved (sampleDb "open")) ∧
     status saved = "open" ∧
     updatedAt saved = 1000 ∧
     resolvedAt saved = None ∧
     closedAt saved = None ∧
     ("open" = "open" → ascending [] →
      saved = sampleBug "open" ∧
      (bugs (sampleDb "open") !! bugId = Some (sampleBug "open") →
       put_bug bugId saved (sampleDb "open") = sampleDb "open"))) ∧
  updateStatus 2000 "reopened" (sampleBug "closed") (sampleDb "closed")
    = (Js.Throw Js.ValidationError, sampleDb "closed").
Proof.
  split; [| split].
  - exact (updateStatus_any_status 2000 "open" (sampleBug "closed")
             (sampleDb "closed") eq_refl).
  - exact (updateStatus_any_status 2000 "open" (sampleBug "open")
             (sampleDb "open") eq_refl).
  - exact (updateStatus_any_status 2000 "reopened" (sampleBug "closed")
             (sampleDb "closed") eq_refl).
Defined.

Section StoreAndStatistics.

Implicit Types (docs : list Bug) (db : Db) (b bug : Bug).

Lemma countWhere_perm (P : Bug → Prop) `{∀ b, Decision (P b)} docs docs' :
  docs ≡ₚ docs' → countWhere P docs = countWhere P docs'.
Proof. intros Hp. unfold countWhere. by rewrite Hp. Qed.

Lemma Statistics_eq (s t : Statistics) :
  total s = total t → open s = open t → inProgress s = inProgress t →
  testing s = testing t → resolved s = resolved t → closed s = closed t →
  critical s = critical t → high s = high t → medium s = medium t →
  low s = low t → s = t.
Proof. destruct s, t. cbn. by intros -> -> -> -> -> -> -> -> -> ->. Qed.

(** The statistics of a collection with one more document. *)
Lemma statisticsOf_add b docs docs' :
  docs' ≡ₚ b :: docs →
  statisticsOf docs' = accumulate (statisticsOf docs) b.
Proof.
  intros Hp.
  pose proof (statisticsOf_counts docs) as H. cbv zeta in H.
  destruct H as (H0 & H1 & H2 & H3 & H4 & H5 & H6 & H7 & H8 & H9).
  pose proof (statisticsOf_counts docs') as H'. cbv zeta in H'.
  destruct H' as (G0 & G1 & G2 & G3 & G4 & G5 & G6 & G7 & G8 & G9).
  apply Statistics_eq;
    cbn [accumulate total open inProgress testing resolved closed critical
         high medium low];
    rewrite ?H0, ?H1, ?H2, ?H3, ?H4, ?H5, ?H6, ?H7, ?H8, ?H9,
            ?G0, ?G1, ?G2, ?G3, ?G4, ?G5, ?G6, ?G7, ?G8, ?G9;
    rewrite ?(countWhere_perm _ _ _ Hp), ?countWhere_cons, ?Hp;
    cbn [List.length]; lia.
Qed.

Lemma getStatistics_put id b db :
  bugs db !! id = None →
  getStatistics (put_bug id b db) = accumulate (getStatistics db) b.
Proof.
  intros Hfresh. unfold getStatistics. apply statisticsOf_add.
  unfold collection, put_bug. cbn [bugs].
  by rewrite map_to_list_insert.
Qed.

Lemma getStatistics_remove id b db :
  bugs db !! id = Some b →
  getStatistics db = accumulate (getStatistics (remove_bug id db)) b.
Proof.
  intros Hb. unfold getStatistics. apply statisticsOf_add.
  unfold collection, remove_bug. cbn [bugs].
  by rewrite <- (map_to_list_delete _ _ _ Hb).
Qed.

End StoreAndStatistics.

(** X20: [deleteBug] answers 200 only for a bug that is there and only
    to its reporter or an admin; then exactly that bug is gone: reading
    it gives 404, every other bug is as it was, and the statistics are
    those from before less this one bug. Any other answer leaves the
    store as it was. *)
Theorem deleteBug_removes_one (req : Request unit) db :
  match deleteBug req db with
  | (Sent code _, db') =>
    code = 200 ∧
    (∃ bug u,
       bugs db !! params_id req = Some bug ∧ user req = Some u ∧
       (reporter bug = user_id u ∨ role u = "admin") ∧
       getStatistics db = accumulate (getStatistics db') bug) ∧
    getBug req db' = (Rejected 404 "Bug not found", db') ∧
    (∀ id, id ≠ params_id req → bugs db' !! id = bugs db !! id) ∧
    users db' = users db
  | (_, db') => db' = db
  end.
Proof.
  unfold deleteBug.
  destruct (bugs db !! params_id req) as [bug |] eqn:Hbug; [| done].
  destruct (user req) as [u |]; [| done].
  destruct (decide (reporter bug = user_id u)) as [Hr | Hr];
    [rewrite (bool_decide_eq_true_2 _ Hr)
    | rewrite (bool_decide_eq_false_2 _ Hr)];
    (destruct (decide (role u = "admin")) as [Ha | Ha];
     [rewrite (bool_decide_eq_true_2 _ Ha)
     | rewrite (bool_decide_eq_false_2 _ Ha)]);
    cbn [negb andb]; try done.
  all: split; [done |]; split;
    [exists bug, u; repeat split; try tauto;
     by apply getStatistics_remove |].
  all: unfold getBug, remove_bug; cbn [bugs users];
    rewrite lookup_delete_eq; split; [done |]; split; [| done];
    intros id Hid; by rewrite lookup_delete_ne.
Qed.

(** X21: what [createBug] stores. The answer is 201 with a bug under the
    id the driver gave, which reads back as it was sent; it is valid,
    unassigned, without comments, watchers or stamps, with both
    timestamps at the time of the call and its steps in order; no other
    bug is touched, and under a fresh id the statistics are those from
    before and this one bug. Any other answer leaves the store as it
    was. *)
Theorem createBug_stores_new_bug now id (req : Request CreateBody) db :
  match createBug now id req db with
  | (Sent code bug, db') =>
    code = 201 ∧
    bug_id bug = id ∧
    getBug (mkRequest (user req) id () "/:id") db' = (Sent 200 bug, db') ∧
    validate bug = true ∧
    assignee bug = None ∧ comments bug = [] ∧ watchers bug = [] ∧
    resolvedAt bug = None ∧ closedAt bug = None ∧
    createdAt bug = now ∧ updatedAt bug = now ∧
    ascending (stepsToReproduce bug) ∧
    (∀ id', id' ≠ id → bugs db' !! id' = bugs db !! id') ∧
    (bugs db !! id = None →
     getStatistics db' = accumulate (getStatistics db) bug)
  | (_, db') => db' = db
  end.
Proof.
  unfold createBug, Bug_create.
  destruct (user req) as [u |]; [| done]. cbn [i_reporter].
  destruct (validate _) eqn:Hval; [| done].
  set (doc := construct _ _ _ _) in *.
  split; [done |].
  split; [by rewrite pre_save_bug_id |].
  split.
  { unfold getBug, put_bug. cbn [params_id bugs]. by rewrite lookup_insert_eq. }
  split; [by rewrite validate_pre_save |].
  split; [by rewrite pre_save_assignee |].
  split; [by rewrite pre_save_comments |].
  split; [by rewrite pre_save_watchers |].
  split; [by rewrite pre_save_resolvedAt |].
  split; [by rewrite pre_save_closedAt |].
  split; [by rewrite pre_save_createdAt |].
  split.
  { by rewrite pre_save_updatedAt. }
  split.
  { rewrite pre_save_stepsToReproduce. apply sortSteps_facts. }
  split.
  { intros id' Hid'. unfold put_bug. cbn [bugs]. by rewrite lookup_insert_ne. }
  intros Hfresh. by apply getStatistics_put.
Qed.



Section Routes.


End Routes.



Section Watchers.

Implicit Types (this : Bug) (db : Db) (ws : list ObjectId).

Lemma save_watchers now this ws db :
  validate this = true →
  ∃ saved,
    save now this (set_watchers ws this) db
      = (Js.Normal saved, put_bug (bug_id this) saved db) ∧
    watchers saved = ws ∧ bug_id saved = bug_id this ∧
    validate saved = true ∧ status saved = status this.
Proof.
  intros Hval. unfold save.
  assert (validate (set_watchers ws this) = true) as -> by exact Hval.
  cbv zeta. eexists. split.
  { f_equal. f_equal.
    destruct (bool_decide (set_watchers ws this = this));
      cbn [bug_id set_updatedAt]; by rewrite pre_save_bug_id. }
  destruct (bool_decide (set_watchers ws this = this));
    cbn [set_updatedAt watchers bug_id status];
    rewrite pre_save_watchers, pre_save_bug_id, pre_save_status,
      ?validate_saved, ?validate_pre_save; done.
Qed.

End Watchers.

(** X24: the two watcher methods of a valid bug. [addWatcher] of someone
    who watches already saves nothing; of someone else it saves the
    watchers with that user at the end, and a [removeWatcher] after it
    gives back the watchers there were. [removeWatcher] saves the
    watchers without that user, in their order. The handler
    [toggleWatcher] leaves the store that the one or the other method
    leaves. *)
Theorem watcher_methods now later userId this db :
  validate this = true →
  (userId ∈ watchers this →
   BugMethods.addWatcher now userId this db = (Js.Normal this, db)) ∧
  (userId ∉ watchers this →
   ∃ saved back,
     BugMethods.addWatcher now userId this db
       = (Js.Normal saved, put_bug (bug_id this) saved db) ∧
     watchers saved = (watchers this ++ [userId])%list ∧
     BugMethods.removeWatcher later userId saved
       (put_bug (bug_id this) saved db)
       = (Js.Normal back,
          put_bug (bug_id this) back (put_bug (bug_id this) saved db)) ∧
     watchers back = watchers this) ∧
  (∃ saved,
     BugMethods.removeWatcher now userId this db
       = (Js.Normal saved, put_bug (bug_id this) saved db) ∧
     watchers saved = filter (λ watcher, watcher ≠ userId) (watchers this) ∧
     userId ∉ watchers saved) ∧
  (∀ (req : Request unit) u,
     user req = Some u → user_id u = userId →
     bugs db !! params_id req = Some this →
     (toggleWatcher now req db).2 =
       if bool_decide (userId ∈ watchers this)
       then (BugMethods.removeWatcher now userId this db).2
       else (BugMethods.addWatcher now userId this db).2).
Proof.
  intros Hval. unfold BugMethods.addWatcher, BugMethods.removeWatcher.
  split; [| split; [| split]].
  - intros Hin. by rewrite (bool_decide_eq_true_2 _ Hin).
  - intros Hout. rewrite (bool_decide_eq_false_2 _ Hout). cbn [negb].
    destruct (save_watchers now this (watchers this ++ [userId])%list db Hval)
      as (saved & Hsave & Hws & Hid & Hval' & _).
    destruct (save_watchers later saved
                (filter (λ watcher, watcher ≠ userId) (watchers saved))
                (put_bug (bug_id this) saved db) Hval')
      as (back & Hsave' & Hws' & _).
    exists saved, back. rewrite Hsave, Hsave', Hid.
    split; [done |]. split; [done |]. split; [done |].
    rewrite Hws', Hws, filter_app, filter_absent by done.
    rewrite filter_cons, filter_nil, decide_False by (by intros []).
    by rewrite app_nil_r.
  - destruct (save_watchers now this
                (filter (λ watcher, watcher ≠ userId) (watchers this)) db Hval)
      as (saved & Hsave & Hws & _).
    exists saved. split; [done |]. split; [done |].
    rewrite Hws, list_elem_of_filter. tauto.
  - intros req u Hu Huid Hbug. unfold toggleWatcher.
    rewrite Hu, Hbug, Huid.
    destruct (bool_decide (userId ∈ watchers this)); cbn [negb].
    + by destruct (save now this _ db) as [[] ?].
    + by destruct (save now this _ db) as [[] ?].
Qed.

Lemma watcher_methods_witness :
  ∃ saved back,
    BugMethods.addWatcher 2000 (user_id bob) (sampleBug "open")
      (sampleDb "open")
      = (Js.Normal saved, put_bug bugId saved (sampleDb "open")) ∧
    watchers saved = [user_id bob] ∧
    BugMethods.removeWatcher 3000 (user_id bob) saved
      (put_bug bugId saved (sampleDb "open"))
      = (Js.Normal back,
         put_bug bugId back (put_bug bugId saved (sampleDb "open"))) ∧
    watchers back = [].
Proof.
  apply (proj1 (proj2 (watcher_methods 2000 3000 (user_id bob)
                         (sampleBug "open") (sampleDb "open") eq_refl))).
  apply not_elem_of_nil.
Defined.

Section Comments.

Lemma addComment_step now (req : Request (option Json)) db u bug raw :
  body req = Some (JString raw) →
  acceptable raw →
  user req = Some u →
  wf_db db →
  bugs db !! params_id req = Some bug →
  ∃ saved,
    addComment now req db =
      (Sent 201
         (mkCommentAdded (Some (mkComment (user_id u) (Js.trim raw) now))
            (params_id req) (title bug)
            (Z.of_nat (List.length (comments bug)) + 1)),
       put_bug (params_id req) saved db) ∧
    comments saved =
      (comments bug ++ [mkComment (user_id u) (Js.trim raw) now])%list ∧
    title saved = title bug.
Proof.
  intros Hbody [Hne Hlen] Hu Hwf Hbug.
  destruct (Hwf _ _ Hbug) as [Hid Hval].
  unfold addComment. rewrite Hbody.
  assert (raw ≠ EmptyString) as Hraw by (intros ->; by apply Hne).
  unfold Js.truthy. rewrite (bool_decide_eq_false_2 (raw = EmptyString)) by done.
  rewrite bool_decide_eq_false_2 by (by rewrite length_zero_empty).
  cbn [negb orb]. rewrite Hbug, Hu.
  rewrite save_modified by apply set_comments_modified.
  rewrite validate_push_comment; [| done |].
  2:{ unfold validate_comment, required, maxlength, Js.truthy. cbn [content].
      by rewrite (bool_decide_eq_false_2 (Js.trim raw = EmptyString)),
                 bool_decide_eq_true_2 by done. }
  cbn [set_updatedAt set_comments bug_id title comments status].
  autorewrite with frame. cbn [set_comments bug_id title comments].
  rewrite last_snoc, Hid, length_app. cbn [List.length].
  eexists. split.
  { do 3 f_equal. lia. }
  cbn [set_updatedAt comments title]. by autorewrite with frame.
Qed.

End Comments.

(** X25: comments posted one after the other on a bug of a well formed
    store, each with a content that is not blank and within the 1000
    characters: the bug ends up with the comments it had followed by the
    posted ones, trimmed, under their authors and times, in the order in
    which they came. *)
Theorem postComments_in_order id posts db bug :
  wf_db db →
  bugs db !! id = Some bug →
  Forall (λ p, acceptable (post_content p)) posts →
  ∃ bug',
    bugs (postComments id posts db) !! id = Some bug' ∧
    comments bug' = (comments bug ++ map posted posts)%list ∧
    title bug' = title bug.
Proof.
  intros Hwf Hbug Hposts. revert db bug Hwf Hbug.
  induction Hposts as [| p posts Hp _ IH]; intros db bug Hwf Hbug.
  - exists bug. by rewrite app_nil_r.
  - cbn [postComments map].
    set (req := mkRequest (Some (post_user p)) id (Some (JString (post_content p)))
                  EmptyString).
    assert (post_comments (post_time p) req db
            = addComment (post_time p)
                (mkRequest (Some (post_user p)) id (Some (JString (post_content p)))
                   "/:id/comments") db) as -> by done.
    destruct (addComment_step (post_time p)
                (mkRequest (Some (post_user p)) id (Some (JString (post_content p)))
                   "/:id/comments") db (post_user p) bug (post_content p)
                eq_refl Hp eq_refl Hwf Hbug)
      as (saved & Hsent & Hcomments & Htitle).
    pose proof (addComment_wf (post_time p)
                  (mkRequest (Some (post_user p)) id (Some (JString (post_content p)))
                     "/:id/comments") db Hwf) as Hwf'.
    rewrite Hsent in *. cbn [snd params_id] in *.
    destruct (IH _ saved Hwf') as (bug' & Hbug' & Hcs & Ht).
    { unfold put_bug. cbn [bugs]. by rewrite lookup_insert_eq. }
    exists bug'. split; [done |]. split; [| congruence].
    rewrite Hcs, Hcomments, <- app_assoc. done.
Qed.

Lemma postComments_in_order_witness :
  ∃ bug',
    bugs (postComments bugId samplePosts seededDb) !! bugId = Some bug' ∧
    comments bug' =
      [ mkComment (user_id bob) "seen" 1500;
        mkComment (user_id carol) "fixed in 1.2" 2000;
        mkComment (user_id dave) "confirmed" 3000 ] ∧
    title bug' = "Login fails".
Proof.
  apply (postComments_in_order bugId samplePosts seededDb seededBug).
  - repeat apply wf_put; first [apply wf_empty | vm_compute; reflexivity].
  - vm_compute. reflexivity.
  - repeat constructor; vm_compute; discriminate.
Defined.

(** X26: [protect] lets a request through only with a header made of
    [Bearer], one space and a token that is not empty, that verifies,
    and whose id is the id of an active user of the store; that user is
    then the user of the request. Every refusal is a 401 and leaves no
    user on the request. *)
Theorem protect_lets_active_users_through jwt_verify authHeader db :
  match protect jwt_verify authHeader db with
  | (Next, found) =>
    ∃ token id u,
      authHeader = Some ("Bearer " +:+ token) ∧
      token ≠ EmptyString ∧ hasChar " " token = false ∧
      jwt_verify token = Some (Some id) ∧
      users db !! id = Some u ∧ isActive u = true ∧
      found = Some u
  | (Respond code _, found) => code = 401 ∧ found = None
  end.
Proof.
  unfold protect, verifyToken.
  destruct (extractTokenFromHeader authHeader) as [token |] eqn:Hh; [| done].
  apply extractTokenFromHeader_Some in Hh as [-> Hclean].
  destruct (Js.truthy token) eqn:Htoken; [| done]. cbn [negb].
  destruct (jwt_verify token) as [[id |] |] eqn:Hv; [| done | done].
  cbn [mbind option_bind].
  destruct (users db !! id) as [u |] eqn:Hu; [| done].
  destruct (isActive u) eqn:Hact; [| done]. cbn [negb].
  exists token, id, u. repeat split; try done.
  intros ->. done.
Qed.

(** X27: [optionalAuth] never refuses, and the user it leaves on the
    request is the one [protect] would leave: an active user of the
    store named by a verified token, or none. *)
Theorem optionalAuth_agrees_with_protect jwt_verify authHeader db :
  optionalAuth jwt_verify authHeader db
  = (Next, (protect jwt_verify authHeader db).2).
Proof.
  unfold optionalAuth, protect.
  destruct (extractTokenFromHeader authHeader) as [token |]; [| done].
  destruct (Js.truthy token); [| done]. cbn [negb].
  destruct (verifyToken jwt_verify token) as [decoded_id |]; [| done].
  destruct (decoded_id ≫= _) as [u |]; [| done].
  by destruct (isActive u).
Qed.

Section Protected.

Variable jwt_verify : string → option (option ObjectId).
Variable authHeader : option string.

Lemma protect_cases db :
  (∃ error, protect jwt_verify authHeader db = (Respond 401 error, None)) ∨
  (∃ id u,
     users db !! id = Some u ∧ isActive u = true ∧
     protect jwt_verify authHeader db = (Next, Some u)).
Proof.
  unfold protect, verifyToken.
  destruct (extractTokenFromHeader authHeader) as [token |]; [| eauto].
  destruct (negb (Js.truthy token)); [eauto |].
  destruct (jwt_verify token) as [[id |] |]; [| eauto | eauto].
  cbn [mbind option_bind].
  destruct (users db !! id) as [u |] eqn:Hu; [| eauto].
  destruct (isActive u) eqn:Hact; cbn [negb]; [| eauto].
  right. by exists id, u.
Qed.

Lemma protect_found db found :
  protect jwt_verify authHeader db = (Next, found) → is_Some found.
Proof.
  unfold protect.
  repeat match goal with
         | |- context [match ?x with _ => _ end] => destruct x
         end; intros [= <-]; eauto.
Qed.

Lemma protected_not_crashed {B A} (route : Request B → Db → Result A * Db)
    req db e :
  (∀ r, is_Some (user r) → (route r db).1 ≠ Crashed e) →
  (protected jwt_verify authHeader route req db).1 ≠ Crashed e.
Proof.
  intros Hroute. unfold protected.
  destruct (protect jwt_verify authHeader db) as [[| code error] found] eqn:Hp;
    [| done].
  apply Hroute. cbn [user]. by eapply protect_found.
Qed.

Lemma dispatch_not_crashed {B A} path guards
    (handler : Request B → Db → Result A * Db) db e :
  (∀ r, is_Some (user r) → (handler r db).1 ≠ Crashed e) →
  ∀ r, is_Some (user r) → (dispatch path guards handler r db).1 ≠ Crashed e.
Proof.
  intros Hh r Hr. unfold dispatch. destruct (runGuards _ _ _); [| done].
  by apply Hh.
Qed.

Lemma deleteBug_not_crashed (r : Request unit) db e :
  is_Some (user r) → (deleteBug r db).1 ≠ Crashed e.
Proof.
  intros [u Hu]. unfold deleteBug. rewrite Hu.
  destruct (bugs db !! params_id r); [| done]. by destruct (_ && _).
Qed.

Lemma toggleWatcher_not_crashed now (r : Request unit) db e :
  wf_db db → is_Some (user r) → (toggleWatcher now r db).1 ≠ Crashed e.
Proof.
  intros Hwf [u Hu]. unfold toggleWatcher. rewrite Hu.
  destruct (bugs db !! params_id r) as [bug |] eqn:Hbug; [| done].
  destruct (Hwf _ _ Hbug) as [_ Hval].
  destruct (save_watchers now bug
              (if bool_decide (user_id u ∈ watchers bug)
               then filter (λ watcher, watcher ≠ user_id u) (watchers bug)
               else (watchers bug ++ [user_id u])%list) db Hval)
    as (saved & Hsave & _).
  destruct (bool_decide (user_id u ∈ watchers bug)); by rewrite Hsave.
Qed.

End Protected.

(** X28: behind [protect] a route either is not reached, the answer
    being a 401 that leaves the store as it was, or runs on the request
    with an active user of the store as its user. On a well formed
    store, deleting and watching, which read no body, then never end in
    a thrown error. Commenting does: a content that is an array has no
    [trim], and the request ends in a TypeError once it is past
    [protect]. *)
Theorem protected_routes_have_a_user {B A} jwt_verify authHeader now
    (route : Request B → Db → Result A * Db) (req : Request B)
    (delete_ watch : Request unit) (comment_ : Request (option Json)) db :
  wf_db db →
  ((∃ error,
      protected jwt_verify authHeader route req db = (Rejected 401 error, db)) ∨
   (∃ id u,
      users db !! id = Some u ∧ isActive u = true ∧
      protected jwt_verify authHeader route req db
        = route (mkRequest (Some u) (params_id req) (body req) (route_path req))
            db)) ∧
  (∀ e, (protected jwt_verify authHeader delete_bug_by_id delete_ db).1
        ≠ Crashed e) ∧
  (∀ e, (protected jwt_verify authHeader (put_watch now) watch db).1
        ≠ Crashed e) ∧
  (∀ items,
     body comment_ = Some (JArray items) →
     (∃ error,
        protected jwt_verify authHeader (post_comments now) comment_ db
          = (Rejected 401 error, db)) ∨
     protected jwt_verify authHeader (post_comments now) comment_ db
       = (Crashed Js.TypeError, db)).
Proof.
  intros Hwf. split; [| split; [| split]].
  - unfold protected.
    destruct (protect_cases jwt_verify authHeader db)
      as [[error ->] | (id' & u & Hu & Hact & ->)].
    + left. by exists error.
    + right. by exists id', u.
  - intros e. apply protected_not_crashed, dispatch_not_crashed.
    intros r Hr. by apply deleteBug_not_crashed.
  - intros e. apply protected_not_crashed, dispatch_not_crashed.
    intros r Hr. by apply toggleWatcher_not_crashed.
  - intros items Hitems. unfold protected.
    destruct (protect_cases jwt_verify authHeader db)
      as [[error ->] | (id' & u & Hu & Hact & ->)].
    + left. by exists error.
    + right. unfold post_comments, dispatch, addComment. cbn [runGuards body].
      by rewrite Hitems.
Qed.

Lemma protected_routes_have_a_user_witness :
  let db := sampleDb "open" in
  let none := EmptyString in
  let header := Some "Bearer t0k3n" in
  let req := mkRequest None bugId (Some (JString " seen ")) none in
  let listed := mkRequest None bugId (Some (JArray [JString "seen"])) none in
  ((∃ error,
      protected sampleVerify header (post_comments 2000) req db
        = (Rejected 401 error, db)) ∨
   (∃ id u,
      users db !! id = Some u ∧ isActive u = true ∧
      protected sampleVerify header (post_comments 2000) req db
        = post_comments 2000
            (mkRequest (Some u) bugId (Some (JString " seen ")) none) db)) ∧
  (∀ e, (protected sampleVerify header delete_bug_by_id
           (mkRequest None bugId () none) db).1 ≠ Crashed e) ∧
  (∀ e, (protected sampleVerify header (put_watch 2000)
           (mkRequest None bugId () none) db).1 ≠ Crashed e) ∧
  (∀ items,
     Some (JArray [JString "seen"]) = Some (JArray items) →
     (∃ error,
        protected sampleVerify header (post_comments 2000) listed db
          = (Rejected 401 error, db)) ∨
     protected sampleVerify header (post_comments 2000) listed db
       = (Crashed Js.TypeError, db)).
Proof.
  intros db none header req listed.
  apply (protected_routes_have_a_user sampleVerify header 2000
           (post_comments 2000) req (mkRequest None bugId () none)
           (mkRequest None bugId () none) listed db).
  repeat apply wf_put; first [apply wf_empty | vm_compute; reflexivity].
Defined.
